(** * Degenter indexer: trade sink, pool registry, block processor,
      fast-track reactor and live broadcaster

    A shallow embedding of the indexer's JavaScript sources and of the SQL
    statements they issue.  Each module embeds one source file and keeps
    the names of the source. *)

From Stdlib Require Import ZArith QArith List Lia Bool Ascii String.
From stdpp Require Import gmap strings list fin_maps sorting.

Local Open Scope Z_scope.
Local Open Scope string_scope.
Local Open Scope list_scope.

(** ** JavaScript values shared by the modules *)

(** A [TIMESTAMPTZ] value: microseconds since the Unix epoch. *)
Abbreviation timestamp := Z (only parsing).

(** * core/trades.js *)
Module Trades.

(** The enum types [trade_action] and [trade_direction] of the schema. *)
Inductive trade_action := swap | provide | withdraw.
Inductive trade_direction := buy | sell | dir_provide | dir_withdraw.
Inductive size_class := shrimp | shark | whale.

#[global] Instance trade_action_eq_dec : EqDecision trade_action.
Proof. solve_decision. Defined.
#[global] Instance trade_direction_eq_dec : EqDecision trade_direction.
Proof. solve_decision. Defined.
#[global] Instance size_class_eq_dec : EqDecision size_class.
Proof. solve_decision. Defined.

(** The object [t] handed to [insertTrade]: the twenty columns listed in
    [INSERT_SQL].  An amount column holds what [digitsOrNull] returned: a
    string of ASCII digits, kept here as the natural number it denotes, or
    [null].  The surrogate key [trade_id] is filled by the database and is
    not part of the object. *)
Record trade := {
  pool_id : Z;
  pair_contract : string;
  action : trade_action;
  direction : trade_direction;
  offer_asset_denom : option string;
  offer_amount_base : option N;
  ask_asset_denom : option string;
  ask_amount_base : option N;
  return_amount_base : option N;
  is_router : bool;
  reserve_asset1_denom : option string;
  reserve_asset1_amount_base : option N;
  reserve_asset2_denom : option string;
  reserve_asset2_amount_base : option N;
  height : Z;
  tx_hash : option string;
  signer : option string;
  msg_index : Z;
  created_at : timestamp;
  class : option size_class
}.

Definition set_class (t : trade) (c : option size_class) : trade :=
  {| pool_id := pool_id t; pair_contract := pair_contract t;
     action := action t; direction := direction t;
     offer_asset_denom := offer_asset_denom t;
     offer_amount_base := offer_amount_base t;
     ask_asset_denom := ask_asset_denom t;
     ask_amount_base := ask_amount_base t;
     return_amount_base := return_amount_base t;
     is_router := is_router t;
     reserve_asset1_denom := reserve_asset1_denom t;
     reserve_asset1_amount_base := reserve_asset1_amount_base t;
     reserve_asset2_denom := reserve_asset2_denom t;
     reserve_asset2_amount_base := reserve_asset2_amount_base t;
     height := height t; tx_hash := tx_hash t; signer := signer t;
     msg_index := msg_index t; created_at := created_at t;
     class := c |}.

(** [Number(x)] on an amount column: [Number(null)] is [0], and a digit
    string converts to the number it denotes. *)
Definition Number (a : option N) : Q :=
  match a with
  | None => 0
  | Some n => inject_Z (Z.of_N n)
  end.

Definition Qltb (a b : Q) : bool := negb (Qle_bool b a).

(** The body of [insertTrade] up to the push: [zigAmount], then the class.

    [Number(..) / 1e6] is a double in the source and an exact rational
    here.  The three comparisons agree: rounding to the nearest double is
    monotone, and [0], [1000], [10000], [10^9] and [10^10] are doubles, so
    the quotient of a digit string's value [n] by [1e6] is below [1000]
    (below [10000]) exactly when [n < 10^9] ([n < 10^10]), and positive
    exactly when [n] is. *)
Definition zigAmount (t : trade) : Q :=
  if decide (offer_asset_denom t = Some "uzig") then
    Number (offer_amount_base t) / 1000000
  else if decide (ask_asset_denom t = Some "uzig") then
    Number (return_amount_base t) / 1000000
  else 0.

Definition classOf (zig : Q) : option size_class :=
  if Qltb 0 zig then
    if Qltb zig 1000 then Some shrimp
    else if Qltb zig 10000 then Some shark
    else Some whale
  else None.

(** [insertTrade(t)]: set [t.class], then [tradesQueue.push(t)].  The
    queue is the list of pending items, oldest first. *)
Definition insertTrade (t : trade) (tradesQueue : list trade) : list trade :=
  tradesQueue ++ [set_class t (classOf (zigAmount t))].

(** *** [INSERT_SQL]: the flush statement

    [INSERT INTO trades (...) VALUES ... ON CONFLICT (created_at, tx_hash,
    pool_id, msg_index) DO NOTHING], arbitrated by the unique index
    [uq_trades_tx_pool_msg_time].  [created_at] and [pool_id] are
    [NOT NULL]; [tx_hash] is a nullable [TEXT] column, and the block
    processor passes [hashes[i] || null] for it.  A unique index keeps
    [NULL]s distinct, so a row whose [tx_hash] is [NULL] conflicts with no
    row. *)
Definition key_conflict (t r : trade) : bool :=
  bool_decide (created_at t = created_at r)
  && match tx_hash t, tx_hash r with
     | Some a, Some b => bool_decide (a = b)
     | _, _ => false
     end
  && bool_decide (pool_id t = pool_id r)
  && bool_decide (msg_index t = msg_index r).

(** One row of the [VALUES] list against the table so far (rows proposed
    earlier by the same statement included). *)
Definition insert_row (table : list trade) (t : trade) : list trade :=
  if existsb (key_conflict t) table then table else table ++ [t].

(** [flushFn(items)]: one multi-row insert. *)
Definition flushFn (items : list trade) (table : list trade) : list trade :=
  fold_left insert_row items table.

(** *** Size class *)

Lemma Qltb_lt (a b : Q) : Qltb a b = true <-> (a < b)%Q.
Proof.
  unfold Qltb. rewrite negb_true_iff, <- not_true_iff_false, Qle_bool_iff.
  split; [apply Qnot_le_lt | apply Qlt_not_le].
Qed.

Lemma Qltb_ge (a b : Q) : Qltb a b = false <-> (b <= a)%Q.
Proof.
  unfold Qltb. rewrite negb_false_iff. apply Qle_bool_iff.
Qed.

Lemma classOf_null (z : Q) : (z <= 0)%Q -> classOf z = None.
Proof.
  intros Hz. unfold classOf.
  destruct (Qltb 0 z) eqn:E; [|reflexivity].
  apply Qltb_lt in E. exfalso. exact (Qlt_not_le _ _ E Hz).
Qed.

Lemma classOf_shrimp (z : Q) : (0 < z)%Q -> (z < 1000)%Q -> classOf z = Some shrimp.
Proof.
  intros H0 H1. unfold classOf.
  apply Qltb_lt in H0, H1. now rewrite H0, H1.
Qed.

Lemma classOf_shark (z : Q) :
  (1000 <= z)%Q -> (z < 10000)%Q -> classOf z = Some shark.
Proof.
  intros H0 H1. unfold classOf.
  assert (Hpos : (0 < z)%Q) by (eapply Qlt_le_trans; [|exact H0]; reflexivity).
  apply Qltb_lt in Hpos, H1. apply Qltb_ge in H0.
  now rewrite Hpos, H0, H1.
Qed.

Lemma classOf_whale (z : Q) : (10000 <= z)%Q -> classOf z = Some whale.
Proof.
  intros H0. unfold classOf.
  assert (Hpos : (0 < z)%Q) by (eapply Qlt_le_trans; [|exact H0]; reflexivity).
  assert (H1 : (1000 <= z)%Q) by (eapply Qle_trans; [|exact H0]; discriminate).
  apply Qltb_lt in Hpos. apply Qltb_ge in H0, H1.
  now rewrite Hpos, H1, H0.
Qed.

Lemma Number_nonneg (a : option N) : (0 <= Number a / 1000000)%Q.
Proof.
  destruct a as [n|]; simpl; [|discriminate].
  unfold Qle, Qdiv, Qmult, Qinv, inject_Z; simpl. lia.
Qed.

(** [native_leg t z]: [z] is the amount [insertTrade] reads for the
    native leg of [t], over [10^6].  The offer leg reads
    [offer_amount_base]; the ask leg is consulted only when the offer leg
    is not native, and reads [return_amount_base]. *)
Inductive native_leg (t : trade) : Q -> Prop :=
| native_offer :
    offer_asset_denom t = Some "uzig" ->
    native_leg t (Number (offer_amount_base t) / 1000000)%Q
| native_ask :
    offer_asset_denom t <> Some "uzig" ->
    ask_asset_denom t = Some "uzig" ->
    native_leg t (Number (return_amount_base t) / 1000000)%Q.

Lemma native_leg_zigAmount (t : trade) (z : Q) :
  native_leg t z -> zigAmount t = z.
Proof.
  intros [Ho | Ho Ha]; unfold zigAmount.
  - now rewrite decide_True.
  - rewrite decide_False by assumption. now rewrite decide_True.
Qed.

(** A swap that offers a million [uzig]: scenario S1 of the spec. *)
Definition sample_trade (offer : option string) (offerAmt : option N)
    (ask : option string) (retAmt : option N) (tx : option string) : trade :=
  {| pool_id := 1; pair_contract := "zig1pool"; action := swap; direction := buy;
     offer_asset_denom := offer; offer_amount_base := offerAmt;
     ask_asset_denom := ask; ask_amount_base := None;
     return_amount_base := retAmt; is_router := false;
     reserve_asset1_denom := None; reserve_asset1_amount_base := None;
     reserve_asset2_denom := None; reserve_asset2_amount_base := None;
     height := 100; tx_hash := tx; signer := None; msg_index := 0;
     created_at := 1700000000000000; class := None |}.

Example insertTrade_S1 :
  insertTrade (sample_trade (Some "uzig") (Some 1000000%N) (Some "factory/X")
                 (Some 250000%N) (Some "AB12")) []
  = [set_class (sample_trade (Some "uzig") (Some 1000000%N) (Some "factory/X")
                 (Some 250000%N) (Some "AB12")) (Some shrimp)].
Proof. reflexivity. Qed.

Example insertTrade_thresholds :
  map class
    (fold_right insertTrade []
       [sample_trade (Some "uzig") (Some 10000000000%N) None None None;
        sample_trade (Some "uzig") (Some 9999999999%N) None None None;
        sample_trade (Some "factory/X") None (Some "uzig") (Some 1000000000%N) None;
        sample_trade (Some "uzig") (Some 999999999%N) None None None;
        sample_trade (Some "factory/X") (Some 5%N) (Some "ibc/Y") (Some 7%N) None])
  = [None; Some shrimp; Some shark; Some shark; Some whale].
Proof. reflexivity. Qed.

(** C4, as the spec words it, at a native offer leg of amount zero:
    [z = 0 < 1000], and yet the class is [null], not ['shrimp'].  The
    guard [if (zigAmount > 0)] sends a zero (or missing) amount to the
    [else] branch. *)
Lemma insertTrade_zero_native_leg_unclassified :
  let t := sample_trade (Some "uzig") (Some 0%N) (Some "factory/X") (Some 5%N) None in
  native_leg t (0 / 1000000)%Q /\ (0 / 1000000 < 1000)%Q /\
  insertTrade t [] = [set_class t None] /\
  class (set_class t None) <> Some shrimp.
Proof.
  cbv zeta. split; [|split; [|split]].
  - exact (native_offer (sample_trade (Some "uzig") (Some 0%N) (Some "factory/X")
                           (Some 5%N) None) eq_refl).
  - reflexivity.
  - reflexivity.
  - discriminate.
Qed.

(** C4 (amended).  [insertTrade] enqueues the trade with its class set:
    when the offer leg is ['uzig'], from [z = offer_amount_base / 10^6];
    otherwise, when the ask leg is ['uzig'], from
    [z = return_amount_base / 10^6]; with [0 < z < 1000] giving
    ['shrimp'], [1000 <= z < 10000] giving ['shark'] and [z >= 10000]
    giving ['whale'].  The class is [null] when [z] is zero (the amount is
    zero or [null]) and when neither leg is ['uzig']. *)
Theorem insertTrade_size_class (t : trade) (tradesQueue : list trade) :
  exists t',
    insertTrade t tradesQueue = tradesQueue ++ [t'] /\
    t' = set_class t (class t') /\
    (forall z, native_leg t z ->
       ((z <= 0)%Q -> class t' = None) /\
       ((0 < z)%Q -> (z < 1000)%Q -> class t' = Some shrimp) /\
       ((1000 <= z)%Q -> (z < 10000)%Q -> class t' = Some shark) /\
       ((10000 <= z)%Q -> class t' = Some whale)) /\
    (offer_asset_denom t <> Some "uzig" ->
     ask_asset_denom t <> Some "uzig" -> class t' = None).
Proof.
  exists (set_class t (classOf (zigAmount t))).
  split; [reflexivity|]. split; [reflexivity|]. split.
  - intros z Hz. rewrite (native_leg_zigAmount t z Hz). simpl.
    repeat split.
    + apply classOf_null.
    + apply classOf_shrimp.
    + apply classOf_shark.
    + apply classOf_whale.
  - intros Ho Ha. simpl. unfold zigAmount.
    rewrite !decide_False by assumption. reflexivity.
Qed.

(** A swap that offers a thousand ZIG, to the unit, is a shark's. *)
Lemma insertTrade_size_class_at_1000 :
  exists t',
    insertTrade (sample_trade (Some "uzig") (Some 1000000000%N) (Some "factory/X")
                   (Some 250000%N) (Some "AB12")) [] = [t'] /\
    class t' = Some shark.
Proof.
  destruct (insertTrade_size_class
              (sample_trade (Some "uzig") (Some 1000000000%N) (Some "factory/X")
                 (Some 250000%N) (Some "AB12")) [])
    as (t' & Hqueue & _ & Hleg & _).
  exists t'. split; [exact Hqueue|].
  destruct (Hleg _ (native_offer
                      (sample_trade (Some "uzig") (Some 1000000000%N)
                         (Some "factory/X") (Some 250000%N) (Some "AB12"))
                      eq_refl)) as (_ & _ & Hshark & _).
  apply Hshark; vm_compute; [discriminate | reflexivity].
Defined.

(** *** Replays of a flush *)

(** The queue hands its items to [flushFn] in batches; a flush of
    [l1 ++ l2] and a flush of [l1] followed by a flush of [l2] leave the
    same table. *)
Lemma flushFn_app (l1 l2 table : list trade) :
  flushFn (l1 ++ l2) table = flushFn l2 (flushFn l1 table).
Proof. apply fold_left_app. Qed.

Lemma key_conflict_refl (t : trade) :
  is_Some (tx_hash t) -> key_conflict t t = true.
Proof.
  intros [h Hh]. unfold key_conflict. rewrite Hh.
  now rewrite !bool_decide_eq_true_2.
Qed.

Lemma insert_row_mono (table : list trade) (t r : trade) :
  existsb (key_conflict r) table = true ->
  existsb (key_conflict r) (insert_row table t) = true.
Proof.
  intros H. unfold insert_row.
  destruct (existsb (key_conflict t) table); [exact H|].
  rewrite existsb_app, H. reflexivity.
Qed.

Lemma insert_row_covers (table : list trade) (t : trade) :
  is_Some (tx_hash t) ->
  existsb (key_conflict t) (insert_row table t) = true.
Proof.
  intros Ht. unfold insert_row.
  destruct (existsb (key_conflict t) table) eqn:E; [exact E|].
  rewrite existsb_app. simpl. rewrite (key_conflict_refl t Ht).
  now rewrite orb_true_r.
Qed.

Lemma flushFn_mono (items table : list trade) (r : trade) :
  existsb (key_conflict r) table = true ->
  existsb (key_conflict r) (flushFn items table) = true.
Proof.
  revert table. induction items as [|t items IH]; intros table H; simpl.
  - exact H.
  - apply IH, insert_row_mono, H.
Qed.

Lemma flushFn_covers (items table : list trade) :
  Forall (fun t => is_Some (tx_hash t)) items ->
  Forall (fun t => existsb (key_conflict t) (flushFn items table) = true) items.
Proof.
  revert table. induction items as [|t items IH]; intros table H.
  - constructor.
  - inversion H as [|? ? Ht Hrest]; subst. constructor.
    + simpl. apply flushFn_mono, insert_row_covers, Ht.
    + simpl. apply IH, Hrest.
Qed.

Lemma flushFn_all_conflict (items table : list trade) :
  Forall (fun t => existsb (key_conflict t) table = true) items ->
  flushFn items table = table.
Proof.
  induction 1 as [|t items Ht _ IH]; simpl; [reflexivity|].
  unfold insert_row at 1. rewrite Ht. exact IH.
Qed.

(** Rows with a transaction hash: a second flush of the same rows finds a
    conflicting row for each and inserts nothing. *)
Lemma flushFn_idempotent_hashed (items table : list trade) :
  Forall (fun t => is_Some (tx_hash t)) items ->
  flushFn items (flushFn items table) = flushFn items table.
Proof.
  intros H. apply flushFn_all_conflict, flushFn_covers, H.
Qed.

(** Rows with a transaction hash: flushing the same batch again, any
    number of times, leaves the table as the first flush left it. *)
Lemma flushFn_replay_hashed (n : nat) (items table : list trade) :
  Forall (fun t => is_Some (tx_hash t)) items ->
  Nat.iter n (flushFn items) (flushFn items table) = flushFn items table.
Proof.
  intros H. induction n as [|n IH]; simpl; [reflexivity|].
  rewrite IH. apply flushFn_idempotent_hashed, H.
Qed.

Lemma flushFn_idempotent_hashed_sample :
  let items :=
    [sample_trade (Some "uzig") (Some 1000000%N) (Some "factory/X")
       (Some 250000%N) (Some "AB12")] in
  Forall (fun t => is_Some (tx_hash t)) items /\
  flushFn items (flushFn items []) = flushFn items [].
Proof.
  cbv zeta. split.
  - repeat constructor. now exists "AB12".
  - apply (flushFn_idempotent_hashed
             [sample_trade (Some "uzig") (Some 1000000%N) (Some "factory/X")
                (Some 250000%N) (Some "AB12")] []).
    repeat constructor. now exists "AB12".
Defined.

(** C1 at a row whose [tx_hash] is [null] (a transaction result at an
    index past the block's [txs], where the block processor passes
    [hashes[i] || null]): the row conflicts with no row, the replayed
    flush inserts it again, and the table holds it twice. *)
Theorem flushFn_replay_null_tx_hash :
  let t := set_class (sample_trade (Some "uzig") (Some 1000000%N)
                        (Some "factory/X") (Some 250000%N) None) (Some shrimp) in
  insertTrade t [] = [t] /\
  flushFn [t] [] = [t] /\
  flushFn [t] (flushFn [t] []) = [t; t].
Proof. cbv zeta. repeat split. Qed.

(** *** What a flush stores *)

(** A flush only appends: the stored rows stay as they are, in place, and
    what follows them are rows of the batch, in the order of the batch. *)
Theorem flushFn_appends (items table : list trade) :
  exists inserted,
    flushFn items table = table ++ inserted /\
    inserted `sublist_of` items.
Proof.
  revert table. induction items as [|t items IH]; intros table; simpl.
  - exists []. split; [now rewrite app_nil_r | constructor].
  - destruct (IH (insert_row table t)) as (inserted & Heq & Hsub).
    unfold insert_row in Heq. unfold insert_row at 1.
    destruct (existsb (key_conflict t) table).
    + exists inserted. split; [exact Heq|]. now apply sublist_cons.
    + exists (t :: inserted). split.
      * rewrite Heq. now rewrite <- app_assoc.
      * now apply sublist_skip.
Qed.

(** No two rows of [table] are arbitrated as the same row by
    [uq_trades_tx_pool_msg_time]. *)
Definition distinct_keys (table : list trade) : Prop :=
  forall i j ti tj,
    table !! i = Some ti -> table !! j = Some tj -> i <> j ->
    key_conflict ti tj = false.

Lemma key_conflict_sym (t r : trade) : key_conflict t r = key_conflict r t.
Proof.
  unfold key_conflict.
  rewrite (bool_decide_ext (created_at t = created_at r) (created_at r = created_at t))
    by (split; congruence).
  rewrite (bool_decide_ext (pool_id t = pool_id r) (pool_id r = pool_id t))
    by (split; congruence).
  rewrite (bool_decide_ext (msg_index t = msg_index r) (msg_index r = msg_index t))
    by (split; congruence).
  destruct (tx_hash t) as [a|], (tx_hash r) as [b|]; try reflexivity.
  now rewrite (bool_decide_ext (a = b) (b = a)) by (split; congruence).
Qed.

Lemma insert_row_distinct_keys (table : list trade) (t : trade) :
  distinct_keys table -> distinct_keys (insert_row table t).
Proof.
  intros Hd. unfold insert_row.
  destruct (existsb (key_conflict t) table) eqn:E; [exact Hd|].
  assert (Hfree : forall r, r ∈ table -> key_conflict t r = false).
  { intros r Hr. apply list_elem_of_In in Hr.
    destruct (key_conflict t r) eqn:Er; [|reflexivity].
    assert (existsb (key_conflict t) table = true)
      by (apply existsb_exists; eauto).
    congruence. }
  intros i j ti tj Hi Hj Hij.
  apply lookup_app_Some in Hi as [Hi|[Hil Hi]];
    apply lookup_app_Some in Hj as [Hj|[Hjl Hj]].
  - exact (Hd i j ti tj Hi Hj Hij).
  - apply list_lookup_singleton_Some in Hj as [_ <-].
    rewrite key_conflict_sym. apply Hfree. eapply list_elem_of_lookup_2, Hi.
  - apply list_lookup_singleton_Some in Hi as [_ <-].
    apply Hfree. eapply list_elem_of_lookup_2, Hj.
  - apply list_lookup_singleton_Some in Hi as [Hi _].
    apply list_lookup_singleton_Some in Hj as [Hj _]. lia.
Qed.

(** The flush keeps the unique index: when no two stored rows share the
    natural key, no two do after the flush, whatever the batch holds
    (the same row twice, rows already stored). *)
Theorem flushFn_keeps_distinct_keys (items table : list trade) :
  distinct_keys table -> distinct_keys (flushFn items table).
Proof.
  revert table. induction items as [|t items IH]; intros table Hd; simpl.
  - exact Hd.
  - apply IH, insert_row_distinct_keys, Hd.
Qed.

Lemma flushFn_keeps_distinct_keys_sample :
  let t := sample_trade (Some "uzig") (Some 1000000%N) (Some "factory/X")
             (Some 250000%N) (Some "AB12") in
  distinct_keys [] /\ distinct_keys (flushFn [t; t] []) /\ flushFn [t; t] [] = [t].
Proof.
  cbv zeta.
  assert (H0 : distinct_keys []) by (intros i j ti tj Hi; discriminate).
  split; [exact H0|]. split; [|reflexivity].
  apply flushFn_keeps_distinct_keys, H0.
Defined.

Lemma flushFn_replay_hashed_sample :
  let items :=
    [sample_trade (Some "uzig") (Some 1000000%N) (Some "factory/X")
       (Some 250000%N) (Some "AB12");
     sample_trade (Some "factory/X") (Some 5%N) (Some "uzig")
       (Some 7%N) (Some "CD34")] in
  Forall (fun t => is_Some (tx_hash t)) items /\
  Nat.iter 3 (flushFn items) (flushFn items []) = items.
Proof.
  cbv zeta.
  assert (H : Forall (fun t => is_Some (tx_hash t))
                [sample_trade (Some "uzig") (Some 1000000%N) (Some "factory/X")
                   (Some 250000%N) (Some "AB12");
                 sample_trade (Some "factory/X") (Some 5%N) (Some "uzig")
                   (Some 7%N) (Some "CD34")])
    by (repeat constructor; eexists; reflexivity).
  split; [exact H|].
  rewrite (flushFn_replay_hashed 3 _ [] H). reflexivity.
Defined.

(** *** [sqlValues] *)

(** A value bound to a placeholder. *)
Inductive arg :=
| bigint (z : Z)
| text (s : option string)
| numeric (n : option N)
| boolean (b : bool)
| action_of (a : trade_action)
| direction_of (d : trade_direction)
| timestamptz (t : Z)
| class_of (c : option size_class).

(** The twenty values [args.push(...)] takes from a row, in its order. *)
Definition pushed (t : trade) : list arg :=
  [bigint (pool_id t); text (Some (pair_contract t)); action_of (action t);
   direction_of (direction t);
   text (offer_asset_denom t); numeric (offer_amount_base t);
   text (ask_asset_denom t); numeric (ask_amount_base t);
   numeric (return_amount_base t); boolean (is_router t);
   text (reserve_asset1_denom t); numeric (reserve_asset1_amount_base t);
   text (reserve_asset2_denom t); numeric (reserve_asset2_amount_base t);
   bigint (height t); text (tx_hash t); text (signer t); bigint (msg_index t);
   timestamptz (created_at t); class_of (class t)].

(** The text of one tuple, [($i,$i+1,...,$i+19)], given by the numbers
    of its placeholders: twenty [$${i++}]. *)
Definition tuple (i : nat) : list nat := seq i 20.

(** The loop of [sqlValues]: [vals] holds the tuples pushed, [args] the
    arguments, and [i] is the number of the next placeholder. *)
Record values := {
  vals : list (list nat);
  args : list arg;
  i : nat
}.

Definition sqlValues_row (v : values) (t : trade) : values :=
  {| vals := vals v ++ [tuple (i v)];
     args := args v ++ pushed t;
     i := (i v + 20)%nat |}.

(** [sqlValues(rows)]: the tuples that replace [%VALUES%] and the
    arguments of the statement. *)
Definition sqlValues (rows : list trade) : list (list nat) * list arg :=
  let v := fold_left sqlValues_row rows {| vals := []; args := []; i := 1 |} in
  (vals v, args v).

Lemma sqlValues_rows (rows : list trade) (v : values) :
  vals (fold_left sqlValues_row rows v)
  = vals v ++ ((fun k => tuple (i v + 20 * k)) <$> seq 0 (length rows)) /\
  args (fold_left sqlValues_row rows v) = args v ++ concat (pushed <$> rows) /\
  i (fold_left sqlValues_row rows v) = (i v + 20 * length rows)%nat.
Proof.
  revert v. induction rows as [|t rows IH]; intros v.
  - simpl. rewrite !app_nil_r. repeat split. lia.
  - destruct (IH (sqlValues_row v t)) as (Hv & Ha & Hi).
    change (fold_left sqlValues_row (t :: rows) v)
      with (fold_left sqlValues_row rows (sqlValues_row v t)).
    rewrite Hv, Ha, Hi. unfold sqlValues_row at 1 2 3. cbn [vals args i].
    change (length (t :: rows)) with (S (length rows)).
    split; [|split].
    + rewrite <- app_assoc. f_equal.
      rewrite <- cons_seq, fmap_cons, Nat.mul_0_r, Nat.add_0_r.
      change ([tuple (i v)] ++ ?l) with (tuple (i v) :: l). f_equal.
      rewrite <- fmap_S_seq, <- list_fmap_compose.
      apply list_fmap_ext. intros k0 k Hk0. unfold compose. f_equal. lia.
    + rewrite fmap_cons. change (concat (?x :: ?l)) with (x ++ concat l).
      now rewrite <- app_assoc.
    + unfold sqlValues_row. cbn [i]. lia.
Qed.

Lemma lookup_concat_uniform {A : Type} (n : nat) (ls : list (list A)) (k j : nat) :
  Forall (fun l => length l = n) ls -> (j < n)%nat ->
  concat ls !! (k * n + j)%nat = ls !! k ≫= (fun l => l !! j).
Proof.
  intros Hall Hj. revert k.
  induction Hall as [|l ls Hl _ IH]; intros k.
  - now rewrite !lookup_nil.
  - cbn [concat]. destruct k as [|k].
    + cbn. rewrite lookup_app_l by lia. reflexivity.
    + rewrite lookup_app_r by lia.
      replace (S k * n + j - length l)%nat with (k * n + j)%nat by lia.
      apply IH.
Qed.

Lemma length_concat_uniform {A : Type} (n : nat) (ls : list (list A)) :
  Forall (fun l => length l = n) ls -> length (concat ls) = (n * length ls)%nat.
Proof.
  induction 1 as [|l ls Hl _ IH]; cbn [concat length]; [lia|].
  rewrite length_app, IH. lia.
Qed.

(** Placeholders and arguments line up: the [j]-th placeholder of the
    [k]-th tuple is [$(20k + j + 1)], and the argument it binds is the
    [j]-th column of the [k]-th row.  One argument is sent for each
    placeholder. *)
Theorem sqlValues_binds_columns (rows : list trade) (k j : nat) (t : trade) :
  rows !! k = Some t -> (j < 20)%nat ->
  exists p,
    (sqlValues rows).1 !! k ≫= (fun tuple => tuple !! j) = Some p /\
    p = (20 * k + j + 1)%nat /\
    (sqlValues rows).2 !! (p - 1)%nat = pushed t !! j /\
    length (sqlValues rows).2 = (20 * length (sqlValues rows).1)%nat.
Proof.
  intros Hk Hj. unfold sqlValues.
  destruct (sqlValues_rows rows {| vals := []; args := []; i := 1 |})
    as (Hv & Ha & _).
  cbn [vals args i app fst snd] in *. rewrite Hv, Ha. clear Hv Ha.
  exists (20 * k + j + 1)%nat.
  assert (Hlen : (k < length rows)%nat) by (eapply lookup_lt_Some, Hk).
  assert (Hall : Forall (fun l => length l = 20%nat) (pushed <$> rows)).
  { apply Forall_fmap, Forall_forall. intros r _. reflexivity. }
  split; [|split; [reflexivity|split]].
  - rewrite list_lookup_fmap, lookup_seq_lt by exact Hlen.
    cbn [fmap option_fmap option_map mbind option_bind]. unfold tuple.
    rewrite lookup_seq_lt by exact Hj. f_equal. lia.
  - replace (20 * k + j + 1 - 1)%nat with (k * 20 + j)%nat by lia.
    rewrite (lookup_concat_uniform 20 _ k j Hall Hj).
    rewrite list_lookup_fmap, Hk. reflexivity.
  - rewrite length_fmap, length_seq.
    rewrite (length_concat_uniform 20 _ Hall), length_fmap. lia.
Qed.

Lemma sqlValues_binds_columns_sample :
  let t := sample_trade (Some "uzig") (Some 1000000%N) (Some "factory/X")
             (Some 250000%N) (Some "AB12") in
  (sqlValues [t; t]).1 !! 1%nat ≫= (fun tuple => tuple !! 15%nat) = Some 36%nat /\
  (sqlValues [t; t]).2 !! 35%nat = Some (text (Some "AB12")).
Proof.
  cbv zeta.
  destruct (sqlValues_binds_columns
              [sample_trade (Some "uzig") (Some 1000000%N) (Some "factory/X")
                 (Some 250000%N) (Some "AB12");
               sample_trade (Some "uzig") (Some 1000000%N) (Some "factory/X")
                 (Some 250000%N) (Some "AB12")] 1 15 _ eq_refl)
    as (p & Hp & -> & Harg & _); [lia|].
  split; [exact Hp | exact Harg].
Defined.

End Trades.

(** * The persisted schema (the tables the embedded code reads and writes) *)
Module Schema.

(** [tokens]: unique by [denom]. *)
Record token_row := {
  token_id : Z;
  token_type : string;
  exponent : Z
}.

(** [dex_catalogue]: unique by [factory_contract] and by
    [(dex_name, chain_id)]; [chain_id] references [chain_catalogue]. *)
Record dex_row := {
  dex_id : Z;
  dex_name : string;
  dex_factory_contract : string;
  dex_chain_id : option Z
}.

(** [pools]: unique by [pair_contract]. *)
Record pool_row := {
  pool_id : Z;
  pair_contract : string;
  base_token_id : Z;
  quote_token_id : Z;
  lp_token_denom : option string;
  pair_type : string;
  is_uzig_quote : bool;
  factory_contract : option string;
  router_contract : option string;
  created_at : option timestamp;
  created_height : option Z;
  created_tx_hash : option string;
  signer : option string;
  pool_dex_id : option Z;
  pool_chain_id : option Z
}.

(** The database: each table with its sequence.  [tokens] is keyed by
    [denom], [token_holders_stats] by [token_id] (its [holders_count]),
    [pools] by [pair_contract], [index_state] by [id] (its
    [last_height]). *)
Record db := {
  chain_catalogue : gset Z;
  dex_catalogue : list dex_row;
  dex_catalogue_seq : Z;
  tokens : gmap string token_row;
  tokens_seq : Z;
  token_holders_stats : gmap Z Z;
  pools : gmap string pool_row;
  pools_seq : Z;
  trades : list Trades.trade;
  index_state : gmap string Z
}.

Definition set_tokens (d : db) (t : gmap string token_row) (s : Z) : db :=
  {| chain_catalogue := chain_catalogue d; dex_catalogue := dex_catalogue d;
     dex_catalogue_seq := dex_catalogue_seq d; tokens := t; tokens_seq := s;
     token_holders_stats := token_holders_stats d;
     pools := pools d; pools_seq := pools_seq d; trades := trades d;
     index_state := index_state d |}.

Definition set_dex_catalogue (d : db) (c : list dex_row) (s : Z) : db :=
  {| chain_catalogue := chain_catalogue d; dex_catalogue := c;
     dex_catalogue_seq := s; tokens := tokens d; tokens_seq := tokens_seq d;
     token_holders_stats := token_holders_stats d;
     pools := pools d; pools_seq := pools_seq d; trades := trades d;
     index_state := index_state d |}.

Definition set_pools (d : db) (p : gmap string pool_row) (s : Z) : db :=
  {| chain_catalogue := chain_catalogue d; dex_catalogue := dex_catalogue d;
     dex_catalogue_seq := dex_catalogue_seq d; tokens := tokens d;
     tokens_seq := tokens_seq d;
     token_holders_stats := token_holders_stats d; pools := p; pools_seq := s;
     trades := trades d; index_state := index_state d |}.

Definition set_trades (d : db) (t : list Trades.trade) : db :=
  {| chain_catalogue := chain_catalogue d; dex_catalogue := dex_catalogue d;
     dex_catalogue_seq := dex_catalogue_seq d; tokens := tokens d;
     tokens_seq := tokens_seq d;
     token_holders_stats := token_holders_stats d;
     pools := pools d; pools_seq := pools_seq d;
     trades := t; index_state := index_state d |}.

(** What an [await] gives back: the value, or the error thrown. *)
Inductive result (A : Type) :=
| Ok (a : A)
| Throw (e : string).
Arguments Ok {A} a.
Arguments Throw {A} e.

(** Code that reads and writes a store [S] and may throw: the store it
    leaves is kept on both outcomes (each statement commits on its own). *)
Definition M (S A : Type) : Type := S -> result A * S.

#[global] Instance M_ret {S} : MRet (M S) := fun A a s => (Ok a, s).
#[global] Instance M_bind {S} : MBind (M S) := fun A B k m s =>
  match m s with
  | (Ok a, s') => k a s'
  | (Throw e, s') => (Throw e, s')
  end.

Definition get {S} : M S S := fun s => (Ok s, s).
Definition put {S} (s : S) : M S unit := fun _ => (Ok tt, s).
Definition throw {S A} (e : string) : M S A := fun s => (Throw e, s).

End Schema.

(** * core/pools.js *)
Module Pools.
Import Schema.

(** Modelled from the spec: [upsertTokenMinimal] of core/tokens.js (not
    among the sources), "idempotent insert-or-return; new rows default to
    [type='factory'], [exponent=6]". *)
Definition upsertTokenMinimal (denom : string) : M db Z := fun d =>
  match tokens d !! denom with
  | Some r => (Ok (token_id r), d)
  | None =>
      let id := tokens_seq d in
      (Ok id,
       set_tokens d
         (<[denom := {| token_id := id; token_type := "factory"; exponent := 6 |}]>
            (tokens d))
         (id + 1))
  end.

(** The argument object of [upsertPool]. *)
Record upsertPool_args := {
  pairContract : string;
  baseDenom : string;
  quoteDenom : string;
  pairType : string;
  createdAt : timestamp;
  height : Z;
  txHash : option string;
  signer_arg : option string;
  factoryContract : string
}.

(** [x || null] on a nullable integer column: [0] is falsy. *)
Definition truthy_id (x : option Z) : option Z :=
  match x with
  | Some 0 => None
  | _ => x
  end.

(** The auto-registration statement: [INSERT INTO dex_catalogue
    (dex_name, factory_contract, chain_id) VALUES ('UnknownDEX', $2, 1)
    ON CONFLICT (factory_contract) DO NOTHING RETURNING dex_id].  Only a
    conflict on [factory_contract] is absorbed; the unique constraint on
    [(dex_name, chain_id)] and the reference to [chain_catalogue] raise. *)
Definition register_unknown_dex (factory : string) : M db (option Z) := fun d =>
  if existsb (fun r => bool_decide (dex_factory_contract r = factory))
       (dex_catalogue d)
  then (Ok None, set_dex_catalogue d (dex_catalogue d) (dex_catalogue_seq d + 1))
  else if existsb (fun r => bool_decide (dex_name r = "UnknownDEX")
                            && bool_decide (dex_chain_id r = Some 1))
            (dex_catalogue d)
  then (Throw "duplicate key value violates unique constraint uq_dex_catalogue_name_chain",
        set_dex_catalogue d (dex_catalogue d) (dex_catalogue_seq d + 1))
  else if bool_decide (1 ∈ chain_catalogue d) then
    let id := dex_catalogue_seq d in
    (Ok (Some id),
     set_dex_catalogue d
       (dex_catalogue d ++
          [{| dex_id := id; dex_name := "UnknownDEX";
              dex_factory_contract := factory; dex_chain_id := Some 1 |}])
       (id + 1))
  else (Throw "insert on dex_catalogue violates foreign key constraint",
        set_dex_catalogue d (dex_catalogue d) (dex_catalogue_seq d + 1)).

(** The row the [VALUES] list proposes. *)
Definition proposed_row (a : upsertPool_args) (id baseId quoteId : Z)
    (dex chain : option Z) : pool_row :=
  {| pool_id := id; pair_contract := pairContract a;
     base_token_id := baseId; quote_token_id := quoteId;
     lp_token_denom := None; pair_type := pairType a;
     is_uzig_quote := bool_decide (quoteDenom a = "uzig");
     factory_contract := None; router_contract := None;
     created_at := Some (createdAt a); created_height := Some (height a);
     created_tx_hash := txHash a; signer := signer_arg a;
     pool_dex_id := dex; pool_chain_id := chain |}.

(** [ON CONFLICT (pair_contract) DO UPDATE SET base_token_id =
    EXCLUDED.base_token_id, quote_token_id = EXCLUDED.quote_token_id,
    pair_type = EXCLUDED.pair_type, dex_id = EXCLUDED.dex_id,
    chain_id = EXCLUDED.chain_id]: the stored row with the five columns
    taken from the proposed one. *)
Definition do_update (old excluded : pool_row) : pool_row :=
  {| pool_id := pool_id old; pair_contract := pair_contract old;
     base_token_id := base_token_id excluded;
     quote_token_id := quote_token_id excluded;
     lp_token_denom := lp_token_denom old;
     pair_type := pair_type excluded;
     is_uzig_quote := is_uzig_quote old;
     factory_contract := factory_contract old;
     router_contract := router_contract old;
     created_at := created_at old; created_height := created_height old;
     created_tx_hash := created_tx_hash old; signer := signer old;
     pool_dex_id := pool_dex_id excluded;
     pool_chain_id := pool_chain_id excluded |}.

(** [INSERT INTO pools (...) VALUES (...) ON CONFLICT (pair_contract) DO
    UPDATE SET ... RETURNING pool_id].  The sequence hands out a
    [pool_id] for the proposed row before the conflict is seen. *)
Definition insert_pool (a : upsertPool_args) (baseId quoteId : Z)
    (dex chain : option Z) : M db Z := fun d =>
  let excluded := proposed_row a (pools_seq d) baseId quoteId dex chain in
  if match chain with
     | Some c => bool_decide (c ∈ chain_catalogue d)
     | None => true
     end
  then
    match pools d !! pairContract a with
    | Some old =>
        (Ok (pool_id old),
         set_pools d (<[pairContract a := do_update old excluded]> (pools d))
           (pools_seq d + 1))
    | None =>
        (Ok (pool_id excluded),
         set_pools d (<[pairContract a := excluded]> (pools d))
           (pools_seq d + 1))
    end
  else (Throw "insert or update on pools violates foreign key constraint",
        set_pools d (pools d) (pools_seq d + 1)).

(** The two lines that read the [SELECT] on [dex_catalogue]:
    [dexRows?.[0]?.dex_id || null] and [dexRows?.[0]?.chain_id || null]. *)
Definition select_dex (factory : string) : M db (option Z * option Z) := fun d =>
  let dexRow := find (fun r => bool_decide (dex_factory_contract r = factory))
                  (dex_catalogue d) in
  (Ok (truthy_id (dex_id <$> dexRow), truthy_id (dexRow ≫= dex_chain_id)), d).

(** [upsertPool]. *)
Definition upsertPool (a : upsertPool_args) : M db Z :=
  '(dex_id0, chain_id0) ← select_dex (factoryContract a);
  '(dex, chain) ←
     match dex_id0 with
     | None =>
         rows ← register_unknown_dex (factoryContract a);
         mret (match truthy_id rows with Some i => Some i | None => dex_id0 end,
               match chain_id0 with Some c => Some c | None => Some 1 end)
     | Some _ => mret (dex_id0, chain_id0)
     end;
  baseId ← upsertTokenMinimal (baseDenom a);
  quoteId ← upsertTokenMinimal (quoteDenom a);
  insert_pool a baseId quoteId dex chain.

(** The row [poolWithTokens] selects. *)
Module PoolWithTokens.
Record row := {
  pool_id : Z;
  is_uzig_quote : bool;
  base_id : Z;
  base_denom : string;
  base_exp : Z;
  quote_id : Z;
  quote_denom : string;
  quote_exp : Z
}.
End PoolWithTokens.

(** [SELECT ... FROM tokens WHERE token_id = $1]: [token_id] is the
    primary key, so at most one row answers. *)
Definition token_by_id (d : db) (id : Z) : option (string * token_row) :=
  find (fun kv => bool_decide (token_id kv.2 = id)) (map_to_list (tokens d)).

(** [poolWithTokens]: the pool joined with its two tokens, or [null]. *)
Definition poolWithTokens (pairContract : string) : M db (option PoolWithTokens.row) :=
  fun d =>
  (Ok (p ← pools d !! pairContract;
       b ← token_by_id d (base_token_id p);
       q ← token_by_id d (quote_token_id p);
       Some {| PoolWithTokens.pool_id := pool_id p;
               PoolWithTokens.is_uzig_quote := is_uzig_quote p;
               PoolWithTokens.base_id := token_id b.2;
               PoolWithTokens.base_denom := b.1;
               PoolWithTokens.base_exp := exponent b.2;
               PoolWithTokens.quote_id := token_id q.2;
               PoolWithTokens.quote_denom := q.1;
               PoolWithTokens.quote_exp := exponent q.2 |}),
   d).

(** *** The conflict branch *)

Lemma bind_Ok {S A B : Type} (m : M S A) (k : A -> M S B) (s s' : S) (b : B) :
  (m ≫= k) s = (Ok b, s') ->
  exists a s1, m s = (Ok a, s1) /\ k a s1 = (Ok b, s').
Proof.
  unfold mbind, M_bind. destruct (m s) as [[a|e] s1]; [eauto | discriminate].
Qed.

Lemma upsertTokenMinimal_Ok (denom : string) (d d' : db) (id : Z) :
  upsertTokenMinimal denom d = (Ok id, d') ->
  pools d' = pools d /\ pools_seq d' = pools_seq d /\
  chain_catalogue d' = chain_catalogue d /\
  token_id <$> tokens d' !! denom = Some id /\
  (forall k i, token_id <$> tokens d !! k = Some i ->
               token_id <$> tokens d' !! k = Some i).
Proof.
  unfold upsertTokenMinimal. destruct (tokens d !! denom) eqn:E;
    intros H; inversion H; subst; simpl; repeat split; auto.
  - now rewrite E.
  - now rewrite lookup_insert_eq.
  - intros k i Hk. destruct (decide (denom = k)) as [->|Hne].
    + rewrite E in Hk. discriminate.
    + now rewrite lookup_insert_ne.
Qed.

Lemma register_unknown_dex_Ok (factory : string) (d d1 : db) (rows : option Z) :
  register_unknown_dex factory d = (Ok rows, d1) ->
  pools d1 = pools d /\ pools_seq d1 = pools_seq d.
Proof.
  unfold register_unknown_dex.
  repeat match goal with |- context [if ?b then _ else _] => destruct b end;
    intros H; inversion H; subst; simpl; auto.
Qed.

Lemma insert_pool_conflict (a : upsertPool_args) (baseId quoteId : Z)
    (dex chain : option Z) (d d' : db) (old : pool_row) (id : Z) :
  pools d !! pairContract a = Some old ->
  insert_pool a baseId quoteId dex chain d = (Ok id, d') ->
  id = pool_id old /\ tokens d' = tokens d /\
  pools d' =
    <[pairContract a :=
        do_update old (proposed_row a (pools_seq d) baseId quoteId dex chain)]>
      (pools d).
Proof.
  intros Hold. unfold insert_pool. rewrite Hold.
  destruct (match chain with Some c => _ | None => _ end);
    intros H; inversion H; subst; simpl; auto.
Qed.

(** The pool registry after scenario S1, and a second [create_pair] for
    the same contract that disagrees on every argument. *)
Definition sample_db : db :=
  {| chain_catalogue := {[ 1 ]};
     dex_catalogue :=
       [{| dex_id := 1; dex_name := "OroSwap";
           dex_factory_contract := "zig1factory"; dex_chain_id := Some 1 |}];
     dex_catalogue_seq := 2;
     tokens :=
       <["uzig" := {| token_id := 1; token_type := "native"; exponent := 6 |}]>
         (<["factory/X" := {| token_id := 2; token_type := "factory"; exponent := 6 |}]> ∅);
     tokens_seq := 3;
     token_holders_stats := ∅;
     pools :=
       <["zig1pool" :=
           {| pool_id := 1; pair_contract := "zig1pool";
              base_token_id := 2; quote_token_id := 1;
              lp_token_denom := None; pair_type := "xyk";
              is_uzig_quote := true;
              factory_contract := None; router_contract := None;
              created_at := Some 1700000000000000;
              created_height := Some 100;
              created_tx_hash := Some "AB12"; signer := Some "zig1alice";
              pool_dex_id := Some 1; pool_chain_id := Some 1 |}]> ∅;
     pools_seq := 2;
     trades := [];
     index_state := <["core" := 99]> ∅ |}.

Definition sample_args : upsertPool_args :=
  {| pairContract := "zig1pool"; baseDenom := "uzig"; quoteDenom := "ibc/Y";
     pairType := "concentrated"; createdAt := 1800000000000000; height := 200;
     txHash := Some "CD34"; signer_arg := Some "zig1bob";
     factoryContract := "zig1other" |}.

Example upsertPool_sample :
  (fun r => (r.1, pools r.2 !! "zig1pool")) (upsertPool sample_args sample_db)
  = (Ok 1, Some {| pool_id := 1; pair_contract := "zig1pool";
                   base_token_id := 1; quote_token_id := 3;
                   lp_token_denom := None; pair_type := "concentrated";
                   is_uzig_quote := true;
                   factory_contract := None; router_contract := None;
                   created_at := Some 1700000000000000;
                   created_height := Some 100;
                   created_tx_hash := Some "AB12"; signer := Some "zig1alice";
                   pool_dex_id := Some 2; pool_chain_id := Some 1 |}).
Proof. vm_compute. reflexivity. Qed.

Lemma existsb_find {A : Type} (f : A -> bool) (l : list A) :
  existsb f l = match find f l with Some _ => true | None => false end.
Proof.
  induction l as [|x l IH]; [reflexivity|]. cbn [existsb find].
  destruct (f x); [reflexivity | exact IH].
Qed.

(** C10.  When [pair_contract] is already in [pools], a successful
    [upsertPool] returns the stored [pool_id] and leaves at that key the
    stored row with [base_token_id], [quote_token_id], [pair_type],
    [dex_id] and [chain_id] taken from the proposed row; [is_uzig_quote],
    [created_at], [created_height], [created_tx_hash] and [signer] (and
    every other column) keep their stored values whatever the call
    supplies, and no other pool row changes.  The proposed row has the
    arguments of the call, the ids of its two denoms, and the dex and
    chain the call resolved from [dex_catalogue]: those of the row of its
    factory, or, for a factory the catalogue does not hold, the [dex_id]
    of the row it registers and chain [1]. *)
Theorem upsertPool_conflict_keeps_provenance
    (a : upsertPool_args) (d d' : db) (old : pool_row) (id : Z) :
  pools d !! pairContract a = Some old ->
  upsertPool a d = (Ok id, d') ->
  exists new excluded : pool_row,
    pools d' !! pairContract a = Some new /\
    id = pool_id old /\
    (* the row the call proposed *)
    pair_type excluded = pairType a /\
    is_uzig_quote excluded = bool_decide (quoteDenom a = "uzig") /\
    created_at excluded = Some (createdAt a) /\
    created_height excluded = Some (height a) /\
    created_tx_hash excluded = txHash a /\
    signer excluded = signer_arg a /\
    token_id <$> tokens d' !! baseDenom a = Some (base_token_id excluded) /\
    token_id <$> tokens d' !! quoteDenom a = Some (quote_token_id excluded) /\
    match find (fun r => bool_decide (dex_factory_contract r = factoryContract a))
            (dex_catalogue d) with
    | Some known =>
        match truthy_id (Some (dex_id known)) with
        | Some dex =>
            pool_dex_id excluded = Some dex /\
            pool_chain_id excluded = truthy_id (dex_chain_id known)
        | None =>
            pool_dex_id excluded = None /\
            pool_chain_id excluded
            = Some (default 1 (truthy_id (dex_chain_id known)))
        end
    | None =>
        pool_dex_id excluded = truthy_id (Some (dex_catalogue_seq d)) /\
        pool_chain_id excluded = Some 1
    end /\
    (* the five overwritten columns *)
    base_token_id new = base_token_id excluded /\
    quote_token_id new = quote_token_id excluded /\
    pair_type new = pair_type excluded /\
    pool_dex_id new = pool_dex_id excluded /\
    pool_chain_id new = pool_chain_id excluded /\
    (* the columns that keep their stored values *)
    is_uzig_quote new = is_uzig_quote old /\
    created_at new = created_at old /\
    created_height new = created_height old /\
    created_tx_hash new = created_tx_hash old /\
    signer new = signer old /\
    pool_id new = pool_id old /\
    pair_contract new = pair_contract old /\
    lp_token_denom new = lp_token_denom old /\
    factory_contract new = factory_contract old /\
    router_contract new = router_contract old /\
    (* the other rows *)
    (forall k, k <> pairContract a -> pools d' !! k = pools d !! k).
Proof.
  intros Hold Hrun. unfold upsertPool in Hrun.
  apply bind_Ok in Hrun as ([dex_id0 chain_id0] & d0 & Hsel & Hrun).
  assert (d0 = d) as -> by (unfold select_dex in Hsel; now inversion Hsel).
  apply bind_Ok in Hrun as ([dex chain] & d1 & Hdex & Hrun).
  assert (Hp1 : pools d1 = pools d).
  { destruct dex_id0.
    - now inversion Hdex.
    - apply bind_Ok in Hdex as (rows & d1' & Hreg & Hret).
      apply register_unknown_dex_Ok in Hreg as [Hp _].
      inversion Hret; subst. exact Hp. }
  assert (Hresolved :
    match find (fun r => bool_decide (dex_factory_contract r = factoryContract a))
            (dex_catalogue d) with
    | Some known =>
        match truthy_id (Some (dex_id known)) with
        | Some i => dex = Some i /\ chain = truthy_id (dex_chain_id known)
        | None =>
            dex = None /\ chain = Some (default 1 (truthy_id (dex_chain_id known)))
        end
    | None => dex = truthy_id (Some (dex_catalogue_seq d)) /\ chain = Some 1
    end).
  { unfold select_dex in Hsel. injection Hsel as Hd0 Hc0.
    destruct (find _ (dex_catalogue d)) as [known|] eqn:Efind;
      cbn [fmap option_fmap option_map mbind option_bind] in Hd0, Hc0.
    - destruct (truthy_id (Some (dex_id known))) as [i|] eqn:Ei;
        subst dex_id0 chain_id0.
      + inversion Hdex; subst. auto.
      + apply bind_Ok in Hdex as (rows & d1' & Hreg & Hret).
        unfold register_unknown_dex in Hreg.
        rewrite existsb_find, Efind in Hreg. inversion Hreg; subst.
        inversion Hret; subst. cbn [truthy_id]. split; [reflexivity|].
        now destruct (truthy_id (dex_chain_id known)).
    - subst dex_id0 chain_id0. cbn [truthy_id] in Hdex.
      apply bind_Ok in Hdex as (rows & d1' & Hreg & Hret).
      unfold register_unknown_dex in Hreg.
      rewrite existsb_find, Efind in Hreg.
      destruct (existsb _ (dex_catalogue d)); [discriminate|].
      destruct (bool_decide (1 ∈ chain_catalogue d)); [|discriminate].
      inversion Hreg; subst. inversion Hret; subst. split; [|reflexivity].
      unfold truthy_id. now destruct (dex_catalogue_seq d). }
  apply bind_Ok in Hrun as (baseId & d2 & Hb & Hrun).
  apply bind_Ok in Hrun as (quoteId & d3 & Hq & Hrun).
  apply upsertTokenMinimal_Ok in Hb as (Hp2 & _ & _ & Hbl & _).
  apply upsertTokenMinimal_Ok in Hq as (Hp3 & _ & _ & Hql & Hqk).
  assert (Hold3 : pools d3 !! pairContract a = Some old)
    by (rewrite Hp3, Hp2, Hp1; exact Hold).
  destruct (insert_pool_conflict _ _ _ _ _ _ _ _ _ Hold3 Hrun)
    as (Hid & Htok & Hpools).
  exists (do_update old (proposed_row a (pools_seq d3) baseId quoteId dex chain)),
         (proposed_row a (pools_seq d3) baseId quoteId dex chain).
  rewrite Hpools, Htok.
  split; [apply lookup_insert_eq|]. split; [exact Hid|].
  do 6 (split; [reflexivity|]).
  split; [simpl; apply Hqk, Hbl|]. split; [simpl; exact Hql|].
  split; [exact Hresolved|].
  do 15 (split; [reflexivity|]).
  intros k Hk. rewrite lookup_insert_ne by congruence.
  now rewrite Hp3, Hp2, Hp1.
Qed.

(** The pool of S1 upserted again from a factory the catalogue does not
    hold: the stored provenance stays, and the row now points to the
    catalogue row registered for that factory. *)
Lemma upsertPool_conflict_keeps_provenance_sample :
  exists (id : Z) (d' : db) (new : pool_row),
    upsertPool sample_args sample_db = (Ok id, d') /\
    pools d' !! "zig1pool" = Some new /\
    is_uzig_quote new = true /\
    created_at new = Some 1700000000000000 /\
    created_height new = Some 100 /\
    created_tx_hash new = Some "AB12" /\
    signer new = Some "zig1alice" /\
    pair_type new = "concentrated" /\
    pool_dex_id new = Some 2 /\
    pool_chain_id new = Some 1.
Proof.
  destruct (upsertPool sample_args sample_db) as [[id|e] d'] eqn:E;
    [|vm_compute in E; discriminate].
  destruct (pools sample_db !! pairContract sample_args) as [old|] eqn:Eold;
    [|vm_compute in Eold; discriminate].
  destruct (upsertPool_conflict_keeps_provenance sample_args sample_db d' old id
              Eold E)
    as (new & excl & Hnew & _ & Hpt & _ & _ & _ & _ & _ & _ & _ & Hres & _ & _ & Hpt'
        & Hdex & Hchain & Hu & Hc & Hh & Htx & Hs & _).
  assert (Hold : old =
    {| pool_id := 1; pair_contract := "zig1pool";
       base_token_id := 2; quote_token_id := 1;
       lp_token_denom := None; pair_type := "xyk"; is_uzig_quote := true;
       factory_contract := None; router_contract := None;
       created_at := Some 1700000000000000; created_height := Some 100;
       created_tx_hash := Some "AB12"; signer := Some "zig1alice";
       pool_dex_id := Some 1; pool_chain_id := Some 1 |}).
  { vm_compute in Eold. now inversion Eold. }
  cbn in Hres. destruct Hres as [Hrd Hrc].
  exists id, d', new. split; [reflexivity|]. split; [exact Hnew|].
  rewrite Hu, Hc, Hh, Htx, Hs, Hpt', Hpt, Hdex, Hchain, Hrd, Hrc, Hold.
  repeat split.
Defined.

(** *** The insert branch and the catalogue *)

Lemma insert_pool_new (a : upsertPool_args) (baseId quoteId : Z)
    (dex chain : option Z) (d d' : db) (id : Z) :
  pools d !! pairContract a = None ->
  insert_pool a baseId quoteId dex chain d = (Ok id, d') ->
  id = pools_seq d /\ tokens d' = tokens d /\
  dex_catalogue d' = dex_catalogue d /\
  pools_seq d' = pools_seq d + 1 /\
  pools d' =
    <[pairContract a := proposed_row a (pools_seq d) baseId quoteId dex chain]>
      (pools d).
Proof.
  intros Hnew. unfold insert_pool. rewrite Hnew.
  destruct (match chain with Some c => _ | None => _ end);
    intros H; inversion H; subst; simpl; auto.
Qed.

Lemma upsertTokenMinimal_frame (denom : string) (d : db) :
  dex_catalogue (upsertTokenMinimal denom d).2 = dex_catalogue d /\
  dex_catalogue_seq (upsertTokenMinimal denom d).2 = dex_catalogue_seq d /\
  chain_catalogue (upsertTokenMinimal denom d).2 = chain_catalogue d /\
  pools (upsertTokenMinimal denom d).2 = pools d /\
  pools_seq (upsertTokenMinimal denom d).2 = pools_seq d /\
  exists id, (upsertTokenMinimal denom d).1 = Ok id.
Proof.
  unfold upsertTokenMinimal. destruct (tokens d !! denom); simpl; eauto 10.
Qed.

(** The two token upserts and the pool statement, after the catalogue
    has been consulted. *)
Lemma upsertPool_after_catalogue (a : upsertPool_args) (dex chain : option Z)
    (d1 d' : db) (id : Z) :
  pools d1 !! pairContract a = None ->
  (baseId ← upsertTokenMinimal (baseDenom a);
   quoteId ← upsertTokenMinimal (quoteDenom a);
   insert_pool a baseId quoteId dex chain) d1 = (Ok id, d') ->
  exists baseId quoteId,
    id = pools_seq d1 /\ pools_seq d' = pools_seq d1 + 1 /\
    dex_catalogue d' = dex_catalogue d1 /\
    token_id <$> tokens d' !! baseDenom a = Some baseId /\
    token_id <$> tokens d' !! quoteDenom a = Some quoteId /\
    pools d' =
      <[pairContract a := proposed_row a (pools_seq d1) baseId quoteId dex chain]>
        (pools d1).
Proof.
  intros Hnew Hrun.
  apply bind_Ok in Hrun as (baseId & d2 & Hb & Hrun).
  apply bind_Ok in Hrun as (quoteId & d3 & Hq & Hrun).
  pose proof (upsertTokenMinimal_frame (baseDenom a) d1) as (Hx1 & _ & _ & Hp1 & Hs1 & _).
  pose proof (upsertTokenMinimal_frame (quoteDenom a) d2) as (Hx2 & _ & _ & Hp2 & Hs2 & _).
  rewrite Hb in Hx1, Hp1, Hs1. rewrite Hq in Hx2, Hp2, Hs2. simpl in *.
  apply upsertTokenMinimal_Ok in Hb as (_ & _ & _ & Hbl & _).
  apply upsertTokenMinimal_Ok in Hq as (_ & _ & _ & Hql & Hqk).
  assert (Hnew3 : pools d3 !! pairContract a = None) by (rewrite Hp2, Hp1; exact Hnew).
  destruct (insert_pool_new _ _ _ _ _ _ _ _ Hnew3 Hrun)
    as (Hid & Htok & Hdex & Hseq & Hpools).
  exists baseId, quoteId. rewrite Htok, Hpools, Hseq, Hdex, Hid.
  rewrite Hs2, Hs1, Hp2, Hp1, Hx2, Hx1.
  repeat split; auto.
Qed.

Lemma upsertPool_Ok_catalogue (a : upsertPool_args) (d d' : db) (id : Z) :
  upsertPool a d = (Ok id, d') ->
  exists dex chain d1,
    pools d1 = pools d /\ pools_seq d1 = pools_seq d /\
    (baseId ← upsertTokenMinimal (baseDenom a);
     quoteId ← upsertTokenMinimal (quoteDenom a);
     insert_pool a baseId quoteId dex chain) d1 = (Ok id, d') /\
    match (select_dex (factoryContract a) d).1 with
    | Ok (Some known, chain0) => dex = Some known /\ chain = chain0 /\ d1 = d
    | Ok (None, chain0) =>
        exists rows,
          register_unknown_dex (factoryContract a) d = (Ok rows, d1) /\
          dex = truthy_id rows /\
          chain = Some (default 1 chain0)
    | Throw _ => False
    end.
Proof.
  intros Hrun. unfold upsertPool in Hrun.
  apply bind_Ok in Hrun as ([dex_id0 chain_id0] & d0 & Hsel & Hrun).
  assert (d0 = d) as -> by (unfold select_dex in Hsel; now inversion Hsel).
  apply bind_Ok in Hrun as ([dex chain] & d1 & Hdex & Hrun).
  exists dex, chain, d1. rewrite Hsel. cbn [fst].
  destruct dex_id0 as [known|].
  - inversion Hdex; subst. repeat split; auto.
  - apply bind_Ok in Hdex as (rows & d1' & Hreg & Hret).
    inversion Hret; subst.
    destruct (register_unknown_dex_Ok _ _ _ _ Hreg) as [Hp Hs].
    repeat split; auto. exists rows. repeat split; auto.
    + now destruct (truthy_id rows).
    + now destruct chain_id0.
Qed.

(** The insert branch.  A successful [upsertPool] for a [pair_contract]
    that [pools] does not hold stores one new row under the next
    [pool_id] of the sequence and returns that id.  The row has the
    arguments of the call, [is_uzig_quote] says whether the quote denom is
    ['uzig'], and the two token ids are those of the denoms.
    [factory_contract], [router_contract] and [lp_token_denom] stay
    [NULL]: the statement does not list them.  No other pool row
    changes. *)
Theorem upsertPool_stores_new_pool
    (a : upsertPool_args) (d d' : db) (id : Z) :
  pools d !! pairContract a = None ->
  upsertPool a d = (Ok id, d') ->
  exists new : pool_row,
    pools d' !! pairContract a = Some new /\
    id = pools_seq d /\ pool_id new = id /\ pools_seq d' = id + 1 /\
    pair_contract new = pairContract a /\
    pair_type new = pairType a /\
    is_uzig_quote new = bool_decide (quoteDenom a = "uzig") /\
    created_at new = Some (createdAt a) /\
    created_height new = Some (height a) /\
    created_tx_hash new = txHash a /\
    signer new = signer_arg a /\
    token_id <$> tokens d' !! baseDenom a = Some (base_token_id new) /\
    token_id <$> tokens d' !! quoteDenom a = Some (quote_token_id new) /\
    factory_contract new = None /\ router_contract new = None /\
    lp_token_denom new = None /\
    (forall k, k <> pairContract a -> pools d' !! k = pools d !! k).
Proof.
  intros Hnew Hrun.
  apply upsertPool_Ok_catalogue in Hrun as (dex & chain & d1 & Hp & Hs & Hrun & _).
  apply upsertPool_after_catalogue in Hrun
    as (baseId & quoteId & Hid & Hseq & _ & Hb & Hq & Hpools);
    [|rewrite Hp; exact Hnew].
  exists (proposed_row a (pools_seq d1) baseId quoteId dex chain).
  rewrite Hpools, Hseq, Hid, Hs, Hp.
  repeat match goal with |- _ /\ _ => split end; try reflexivity; auto.
  - apply lookup_insert_eq.
  - intros k Hk. now rewrite lookup_insert_ne by congruence.
Qed.

(** A first [create_pair] of scenario S1 in a database that knows the
    factory and the native token only. *)
Definition fresh_db : db :=
  {| chain_catalogue := {[ 1 ]};
     dex_catalogue :=
       [{| dex_id := 1; dex_name := "OroSwap";
           dex_factory_contract := "zig1factory"; dex_chain_id := Some 1 |}];
     dex_catalogue_seq := 2;
     tokens := <["uzig" := {| token_id := 1; token_type := "native"; exponent := 6 |}]> ∅;
     tokens_seq := 2;
     token_holders_stats := ∅;
     pools := ∅; pools_seq := 1; trades := [];
     index_state := ∅ |}.

Definition first_args (factory : string) : upsertPool_args :=
  {| pairContract := "zig1pool"; baseDenom := "factory/X"; quoteDenom := "uzig";
     pairType := "xyk"; createdAt := 1700000000123456; height := 100;
     txHash := Some "AB12"; signer_arg := Some "zig1alice";
     factoryContract := factory |}.

Lemma upsertPool_stores_new_pool_sample :
  exists (d' : db) (new : pool_row),
    upsertPool (first_args "zig1factory") fresh_db = (Ok 1, d') /\
    pools d' !! "zig1pool" = Some new /\
    pool_id new = 1 /\ is_uzig_quote new = true /\
    created_height new = Some 100 /\ factory_contract new = None.
Proof.
  destruct (upsertPool (first_args "zig1factory") fresh_db) as [[id|e] d'] eqn:E;
    [|vm_compute in E; discriminate].
  destruct (upsertPool_stores_new_pool (first_args "zig1factory") fresh_db d' id)
    as (new & Hnew & Hid & Hpid & _ & _ & _ & Hu & _ & Hh & _ & _ & _ & _ & Hf & _);
    [vm_compute; reflexivity | exact E |].
  exists d', new. rewrite Hid in *. change (pools_seq fresh_db) with 1 in *.
  repeat split; auto.
Defined.

(** *** Factories the catalogue does not know *)

(** The catalogue holds no row for [factory]. *)
Definition unseen (factory : string) (d : db) : Prop :=
  Forall (fun r => dex_factory_contract r <> factory) (dex_catalogue d).

Lemma unseen_existsb (factory : string) (d : db) :
  unseen factory d ->
  existsb (fun r => bool_decide (dex_factory_contract r = factory)) (dex_catalogue d)
  = false.
Proof.
  unfold unseen. induction 1 as [|r l Hr _ IH]; simpl; [reflexivity|].
  now rewrite bool_decide_eq_false_2, IH.
Qed.

Lemma unseen_find (factory : string) (d : db) :
  unseen factory d ->
  find (fun r => bool_decide (dex_factory_contract r = factory)) (dex_catalogue d)
  = None.
Proof.
  unfold unseen. induction 1 as [|r l Hr _ IH]; simpl; [reflexivity|].
  now rewrite bool_decide_eq_false_2.
Qed.

(** [upsertPool] registers an unseen factory under the name
    ['UnknownDEX'] on chain [1].  The catalogue is unique by
    [(dex_name, chain_id)], and [ON CONFLICT (factory_contract)] absorbs
    no other conflict: once one factory has been registered that way, the
    registration of the next unseen factory raises, [upsertPool] throws
    before it reaches [tokens] and [pools], and the pool is not stored. *)
Theorem upsertPool_rejects_second_unseen_factory
    (a : upsertPool_args) (d : db) (first : dex_row) :
  unseen (factoryContract a) d ->
  first ∈ dex_catalogue d ->
  dex_name first = "UnknownDEX" -> dex_chain_id first = Some 1 ->
  exists e d',
    upsertPool a d = (Throw e, d') /\
    pools d' = pools d /\ tokens d' = tokens d /\
    dex_catalogue d' = dex_catalogue d.
Proof.
  intros Hunseen Hfirst Hname Hchain.
  assert (Hdup : existsb (fun r => bool_decide (dex_name r = "UnknownDEX")
                                   && bool_decide (dex_chain_id r = Some 1))
                   (dex_catalogue d) = true).
  { apply existsb_exists. exists first. split; [now apply list_elem_of_In|].
    now rewrite !bool_decide_eq_true_2. }
  assert (Hreg : exists e,
            register_unknown_dex (factoryContract a) d
            = (Throw e, set_dex_catalogue d (dex_catalogue d) (dex_catalogue_seq d + 1))).
  { unfold register_unknown_dex.
    rewrite (unseen_existsb _ _ Hunseen), Hdup. now eexists. }
  destruct Hreg as [e Hreg].
  exists e, (set_dex_catalogue d (dex_catalogue d) (dex_catalogue_seq d + 1)).
  split; [|repeat split].
  unfold upsertPool, mbind, M_bind, select_dex.
  rewrite (unseen_find _ _ Hunseen). cbn [fmap option_fmap option_map mbind option_bind truthy_id].
  now rewrite Hreg.
Qed.

(** The first unseen factory is registered: the catalogue gains the row
    [('UnknownDEX', factory, 1)] under the next [dex_id], and the new
    pool references that id and chain [1]. *)
Theorem upsertPool_registers_unseen_factory
    (a : upsertPool_args) (d d' : db) (id : Z) :
  unseen (factoryContract a) d ->
  dex_catalogue_seq d <> 0 ->
  pools d !! pairContract a = None ->
  upsertPool a d = (Ok id, d') ->
  exists new : pool_row,
    dex_catalogue d' =
      dex_catalogue d ++
        [{| dex_id := dex_catalogue_seq d; dex_name := "UnknownDEX";
            dex_factory_contract := factoryContract a; dex_chain_id := Some 1 |}] /\
    pools d' !! pairContract a = Some new /\
    pool_dex_id new = Some (dex_catalogue_seq d) /\
    pool_chain_id new = Some 1.
Proof.
  intros Hunseen Hseq Hnew Hrun.
  apply upsertPool_Ok_catalogue in Hrun as (dex & chain & d1 & Hp & Hs & Hrun & Hcat).
  unfold select_dex in Hcat. rewrite (unseen_find _ _ Hunseen) in Hcat.
  cbn in Hcat. destruct Hcat as (rows & Hreg & -> & ->).
  apply upsertPool_after_catalogue in Hrun
    as (baseId & quoteId & _ & _ & Hdex & _ & _ & Hpools);
    [|rewrite Hp; exact Hnew].
  unfold register_unknown_dex in Hreg. rewrite (unseen_existsb _ _ Hunseen) in Hreg.
  destruct (existsb _ (dex_catalogue d)); [discriminate|].
  destruct (bool_decide (1 ∈ chain_catalogue d)); [|discriminate].
  inversion Hreg; subst rows d1. clear Hreg.
  exists (proposed_row a (pools_seq d) baseId quoteId
            (truthy_id (Some (dex_catalogue_seq d))) (Some 1)).
  rewrite Hdex, Hpools. cbn [dex_catalogue set_dex_catalogue pools_seq].
  split; [reflexivity|]. split; [apply lookup_insert_eq|].
  split; [|reflexivity].
  cbn [pool_dex_id proposed_row truthy_id].
  destruct (dex_catalogue_seq d); [contradiction | reflexivity | reflexivity].
Qed.

Lemma upsertPool_registers_unseen_factory_sample :
  exists (d' : db) (new : pool_row),
    upsertPool (first_args "zig1other") fresh_db = (Ok 1, d') /\
    dex_name <$> dex_catalogue d' = ["OroSwap"; "UnknownDEX"] /\
    pools d' !! "zig1pool" = Some new /\
    pool_dex_id new = Some 2 /\ pool_chain_id new = Some 1.
Proof.
  destruct (upsertPool (first_args "zig1other") fresh_db) as [[id|e] d'] eqn:E;
    [|vm_compute in E; discriminate].
  assert (Hid : id = 1) by (vm_compute in E; now inversion E).
  destruct (upsertPool_registers_unseen_factory (first_args "zig1other") fresh_db d' id)
    as (new & Hcat & Hnew & Hdex & Hchain);
    [repeat constructor; discriminate | discriminate | vm_compute; reflexivity
    | exact E |].
  exists d', new. subst id. rewrite Hcat.
  repeat split; auto.
Defined.

(** The database after that registration, and a [create_pair] of a
    third factory. *)
Lemma upsertPool_rejects_second_unseen_factory_sample :
  exists (e : string) (d1 d2 : db),
    upsertPool (first_args "zig1other") fresh_db = (Ok 1, d1) /\
    upsertPool
      {| pairContract := "zig1pool2"; baseDenom := "factory/Y"; quoteDenom := "uzig";
         pairType := "xyk"; createdAt := 1700000006000000; height := 101;
         txHash := Some "CD34"; signer_arg := None;
         factoryContract := "zig1third" |} d1 = (Throw e, d2) /\
    pools d2 !! "zig1pool2" = None.
Proof.
  destruct (upsertPool (first_args "zig1other") fresh_db) as [r d1] eqn:E.
  assert (Hr : r = Ok 1) by (vm_compute in E; now inversion E). subst r.
  assert (Hd1 : dex_catalogue d1 =
            [{| dex_id := 1; dex_name := "OroSwap";
                dex_factory_contract := "zig1factory"; dex_chain_id := Some 1 |};
             {| dex_id := 2; dex_name := "UnknownDEX";
                dex_factory_contract := "zig1other"; dex_chain_id := Some 1 |}])
    by (vm_compute in E; now inversion E).
  assert (Hp1 : pools d1 !! "zig1pool2" = None)
    by (vm_compute in E; inversion E; vm_compute; reflexivity).
  destruct (upsertPool_rejects_second_unseen_factory
              {| pairContract := "zig1pool2"; baseDenom := "factory/Y";
                 quoteDenom := "uzig"; pairType := "xyk";
                 createdAt := 1700000006000000; height := 101;
                 txHash := Some "CD34"; signer_arg := None;
                 factoryContract := "zig1third" |} d1
              {| dex_id := 2; dex_name := "UnknownDEX";
                 dex_factory_contract := "zig1other"; dex_chain_id := Some 1 |})
    as (e & d2 & Hthrow & Hpools & _).
  - unfold unseen. rewrite Hd1. repeat constructor; discriminate.
  - rewrite Hd1. apply list_elem_of_In. right. now left.
  - reflexivity.
  - reflexivity.
  - exists e, d1, d2. split; [reflexivity|]. split; [exact Hthrow|].
    now rewrite Hpools.
Defined.

(** *** A pool that was written can be read *)

(** [token_id] is the primary key of [tokens] and comes from its
    sequence. *)
Definition token_ids (d : db) : list Z :=
  (fun kv => token_id kv.2) <$> map_to_list (tokens d).

Definition tokens_keyed (d : db) : Prop :=
  NoDup (token_ids d) /\ Forall (fun i => i < tokens_seq d) (token_ids d).

Lemma find_key {A : Type} (f : A -> Z) (l : list A) (x : A) :
  NoDup (f <$> l) -> x ∈ l ->
  find (fun y => bool_decide (f y = f x)) l = Some x.
Proof.
  induction l as [|y l IH]; intros Hnd Hx; [now apply elem_of_nil in Hx|].
  rewrite fmap_cons in Hnd. apply NoDup_cons in Hnd as [Hy Hnd].
  cbn [find]. apply elem_of_cons in Hx as [->|Hx].
  - now rewrite bool_decide_eq_true_2.
  - rewrite bool_decide_eq_false_2; [now apply IH|].
    intros Heq. apply Hy. rewrite Heq. apply list_elem_of_fmap. now exists x.
Qed.

Lemma token_by_id_keyed (d : db) (k : string) (t : token_row) :
  tokens_keyed d -> tokens d !! k = Some t ->
  token_by_id d (token_id t) = Some (k, t).
Proof.
  intros [Hnd _] Hk. unfold token_by_id.
  apply (find_key (fun kv => token_id kv.2) _ (k, t) Hnd).
  now apply elem_of_map_to_list.
Qed.

Lemma upsertTokenMinimal_keyed (denom : string) (d d' : db) (id : Z) :
  tokens_keyed d ->
  upsertTokenMinimal denom d = (Ok id, d') ->
  tokens_keyed d' /\
  (exists t, tokens d' !! denom = Some t /\ token_id t = id) /\
  (forall k t, tokens d !! k = Some t -> tokens d' !! k = Some t).
Proof.
  intros [Hnd Hlt]. unfold upsertTokenMinimal.
  destruct (tokens d !! denom) as [r|] eqn:E; intros H; inversion H; subst.
  - split; [now split|]. split; [now exists r | auto].
  - assert (Hperm : token_ids
              (set_tokens d
                 (<[denom := {| token_id := tokens_seq d; token_type := "factory";
                                exponent := 6 |}]> (tokens d))
                 (tokens_seq d + 1))
              ≡ₚ tokens_seq d :: token_ids d).
    { unfold token_ids. cbn [tokens set_tokens].
      rewrite (map_to_list_insert _ _ _ E). reflexivity. }
    split; [split|split].
    + rewrite Hperm. apply NoDup_cons. split; [|exact Hnd].
      intros Hin. rewrite Forall_forall in Hlt. specialize (Hlt _ Hin). lia.
    + rewrite Hperm. cbn [tokens_seq set_tokens]. apply Forall_cons. split; [lia|].
      eapply Forall_impl; [exact Hlt|]. cbn. intros. lia.
    + eexists. cbn [tokens set_tokens]. rewrite lookup_insert_eq.
      split; reflexivity.
    + intros k t Hk. cbn [tokens set_tokens].
      rewrite lookup_insert_ne; [exact Hk|]. intros ->. congruence.
Qed.

Lemma register_unknown_dex_tokens (factory : string) (d : db) :
  tokens (register_unknown_dex factory d).2 = tokens d /\
  tokens_seq (register_unknown_dex factory d).2 = tokens_seq d.
Proof.
  unfold register_unknown_dex.
  repeat match goal with |- context [if ?b then _ else _] => destruct b end;
    split; reflexivity.
Qed.

Lemma insert_pool_Ok (a : upsertPool_args) (baseId quoteId : Z)
    (dex chain : option Z) (d d' : db) (id : Z) :
  insert_pool a baseId quoteId dex chain d = (Ok id, d') ->
  tokens d' = tokens d /\ tokens_seq d' = tokens_seq d /\
  exists p, pools d' !! pairContract a = Some p /\ pool_id p = id /\
            base_token_id p = baseId /\ quote_token_id p = quoteId.
Proof.
  unfold insert_pool.
  destruct (match chain with Some c => _ | None => _ end); [|discriminate].
  destruct (pools d !! pairContract a) as [old|];
    intros H; inversion H; subst; cbn [tokens tokens_seq pools set_pools];
    rewrite lookup_insert_eq; (split; [reflexivity|]); (split; [reflexivity|]);
    eexists; (split; [reflexivity|]); auto.
Qed.

(** After a successful [upsertPool], [poolWithTokens] finds the contract:
    it returns the [pool_id] that [upsertPool] returned, with the base
    and quote denoms of the call and their token ids, whether the pool
    was new or stored before. *)
Theorem upsertPool_then_poolWithTokens
    (a : upsertPool_args) (d d' : db) (id : Z) :
  tokens_keyed d ->
  upsertPool a d = (Ok id, d') ->
  exists r,
    poolWithTokens (pairContract a) d' = (Ok (Some r), d') /\
    PoolWithTokens.pool_id r = id /\
    PoolWithTokens.base_denom r = baseDenom a /\
    PoolWithTokens.quote_denom r = quoteDenom a /\
    token_id <$> tokens d' !! baseDenom a = Some (PoolWithTokens.base_id r) /\
    token_id <$> tokens d' !! quoteDenom a = Some (PoolWithTokens.quote_id r) /\
    tokens_keyed d'.
Proof.
  intros Hkeyed Hrun.
  assert (Hrest : exists dex chain d1,
            tokens d1 = tokens d /\ tokens_seq d1 = tokens_seq d /\
            (baseId ← upsertTokenMinimal (baseDenom a);
             quoteId ← upsertTokenMinimal (quoteDenom a);
             insert_pool a baseId quoteId dex chain) d1 = (Ok id, d')).
  { unfold upsertPool in Hrun.
    apply bind_Ok in Hrun as ([dex0 chain0] & d0 & Hsel & Hrun).
    unfold select_dex in Hsel. inversion Hsel; subst d0. clear Hsel.
    apply bind_Ok in Hrun as ([dex chain] & d1 & Hreg & Hrun).
    exists dex, chain, d1.
    destruct dex0 as [known|].
    - inversion Hreg; subst. auto.
    - apply bind_Ok in Hreg as (rows & d1' & Hreg & Hret).
      inversion Hret; subst.
      pose proof (register_unknown_dex_tokens (factoryContract a) d) as [Ht Hs].
      rewrite Hreg in Ht, Hs. auto. }
  destruct Hrest as (dex & chain & d1 & Ht1 & Hs1 & Hrest).
  assert (Hk1 : tokens_keyed d1).
  { destruct Hkeyed as [Hnd Hlt]. unfold tokens_keyed, token_ids in *.
    now rewrite Ht1, Hs1. }
  apply bind_Ok in Hrest as (baseId & d2 & Hb & Hrest).
  apply bind_Ok in Hrest as (quoteId & d3 & Hq & Hrest).
  destruct (upsertTokenMinimal_keyed _ _ _ _ Hk1 Hb) as (Hk2 & (tb & Htb & Hidb) & _).
  destruct (upsertTokenMinimal_keyed _ _ _ _ Hk2 Hq) as (Hk3 & (tq & Htq & Hidq) & Hkeep).
  apply Hkeep in Htb.
  destruct (insert_pool_Ok _ _ _ _ _ _ _ _ Hrest) as (Ht & Hs & p & Hp & Hpid & Hpb & Hpq).
  assert (Hk' : tokens_keyed d').
  { destruct Hk3 as [Hnd Hlt]. unfold tokens_keyed, token_ids in *.
    now rewrite Ht, Hs. }
  rewrite <- Ht in Htb, Htq.
  eexists. unfold poolWithTokens. rewrite Hp. cbn [mbind option_bind].
  rewrite Hpb, Hpq, <- Hidb, <- Hidq.
  rewrite (token_by_id_keyed d' _ _ Hk' Htb), (token_by_id_keyed d' _ _ Hk' Htq).
  cbn [mbind option_bind fst snd].
  split; [reflexivity|]. cbn.
  rewrite Htb, Htq. cbn.
  split; [exact Hpid|]. do 4 (split; [reflexivity|]). exact Hk'.
Qed.

Lemma sample_db_keyed : tokens_keyed sample_db.
Proof.
  split; [apply (bool_decide_unpack _) | apply (bool_decide_unpack _)];
    vm_compute; reflexivity.
Qed.

Lemma upsertPool_then_poolWithTokens_sample :
  tokens_keyed sample_db /\
  exists id d' r,
    upsertPool sample_args sample_db = (Ok id, d') /\
    poolWithTokens "zig1pool" d' = (Ok (Some r), d') /\
    PoolWithTokens.pool_id r = id /\
    PoolWithTokens.base_denom r = "uzig" /\
    PoolWithTokens.quote_denom r = "ibc/Y".
Proof.
  split; [exact sample_db_keyed|].
  destruct (upsertPool sample_args sample_db) as [[id|e] d'] eqn:E;
    [|vm_compute in E; discriminate].
  destruct (upsertPool_then_poolWithTokens sample_args sample_db d' id
              sample_db_keyed E) as (r & Hr & Hid & Hb & Hq & _).
  exists id, d', r. auto.
Defined.

End Pools.

(** * JavaScript values and the collaborators outside the sources *)
Module Js.

(** A JavaScript number that holds a price: [NaN], an infinity, or a
    finite value. *)
Inductive number :=
| NaN
| Infinity (negative : bool)
| Finite (q : Q).

(** [x != null && Number.isFinite(x) && x > 0], with the value. *)
Definition finite_positive (x : option number) : option Q :=
  match x with
  | Some (Finite q) => if Trades.Qltb 0 q then Some q else None
  | _ => None
  end.

(** What [||] keeps of a possibly missing string: the empty string is
    falsy. *)
Definition truthy (x : option string) : option string :=
  match x with
  | Some "" => None
  | _ => x
  end.

(** [a || b] on possibly missing strings. *)
Definition or_else (a b : option string) : option string :=
  match truthy a with
  | Some x => Some x
  | None => b
  end.

(** [new Date(t).getTime()]: milliseconds since the epoch. *)
Definition getTime (t : timestamp) : Z := t / 1000.

(** A [for] loop over [l] whose body may [await] and throw. *)
Fixpoint for_each {S A : Type} (l : list A) (body : A -> Schema.M S unit)
  : Schema.M S unit :=
  match l with
  | [] => mret tt
  | x :: l' => body x ≫= fun _ => for_each l' body
  end.

(** The same loop threading the variables the body assigns. *)
Fixpoint fold_each {S A B : Type} (l : list A) (body : B -> A -> Schema.M S B)
    (b : B) : Schema.M S B :=
  match l with
  | [] => mret b
  | x :: l' => body b x ≫= fun b' => fold_each l' body b'
  end.

End Js.

(** Calls to the modules that are not among the sources
    (core/pool_state.js, core/ohlcv.js, core/prices.js, core/tokens.js,
    lib/pg_notify.js and the jobs): what they write is theirs; the
    embedding records each call with its arguments, in order. *)
Module Collaborators.

Record pair_created := {
  pool_id : Z;
  pair_contract : string;
  base_denom : string;
  quote_denom : string;
  base_token_id : Z;
  quote_token_id : Z;
  is_uzig_quote : bool
}.

Inductive call :=
| pgNotify (topic : string) (payload : pair_created)
| setTokenMetaFromLCD (denom : string)
| upsertPoolState (pool_id : Z) (base_denom quote_denom : string)
    (r1_denom : option string) (r1_amt : option N)
    (r2_denom : option string) (r2_amt : option N)
| upsertOHLCV1m (pool_id : Z) (bucket_start : Z) (price vol_zig : Q)
    (trade_inc : Z)
| upsertPrice (token_id pool_id : Z) (price : Q) (is_pair_native : bool)
| refreshMetaOnce (denom : string)
| refreshHoldersOnce (token_id : Z) (denom : string)
| scanTokenOnce (token_id : Z) (denom : string)
| refreshPoolMatrixOnce (pool_id : Z)
| refreshTokenMatrixOnce (token_id : Z)
| fetchPoolReserves (pair_contract : string).

End Collaborators.

(** * core/block-processor.js *)
Module BlockProcessor.
Import Schema.
Import Pools.PoolWithTokens.

(** An event of a transaction result as the helpers of core/parse.js
    hand it on: its [type] and its attribute map [m]. *)
Record event := {
  type : string;
  m : gmap string string
}.

(** One leg of a parsed [reserves] or [assets] attribute. *)
Record leg := {
  denom : option string;
  amount_base : option string
}.

(** The first argument of [priceFromReserves]. *)
Record price_meta := {
  base_denom : string;
  base_exp : Z;
  quote_denom : string;
  quote_exp : Z
}.

(** core/parse.js is not among the sources: its helpers are an interface
    the block processor imports.  [classifyDirection] has the two
    arguments the call site passes. *)
Class ParseJs := {
  byType : list event -> string -> list event;
  wasmByAction : list event -> string -> list event;
  buildMsgSenderMap : list event -> gmap Z string;
  normalizePair : option string -> string * string;
  classifyDirection : option string -> string -> Trades.trade_direction;
  digitsOrNull : option string -> option N;
  parseReservesKV : string -> option leg * option leg;
  parseAssetsList : string -> option leg * option leg;
  sha256hex : string -> string
}.

(** Modelled from the spec: [classifyDirection] of core/parse.js (not
    among the sources), "buy if offer denom == pool.quote_denom, sell if
    offer denom == pool.base_denom", on the two arguments the swap task
    passes: the offer denom and the pool's quote denom.  Of the two
    denoms of a pool the one that is not the quote is the base, so an
    offer that is not the quote is a sale.  The helper is handed neither
    the ask denom nor the base denom: the spec's "else fallback by ask
    denom symmetry" has nothing to read. *)
Module Parse.
Definition classifyDirection (offer : option string) (quote : string)
  : Trades.trade_direction :=
  if bool_decide (offer = Some quote) then Trades.buy else Trades.sell.
End Parse.

(** core/prices.js, likewise. *)
Class PricesJs := {
  priceFromReserves :
    price_meta -> list (option string * option N) -> option Js.number
}.

(** The two built-ins the scan applies to attribute strings: [Number] on
    a [msg_index] attribute (a decimal integer) and [String.trim]. *)
Class Builtins := {
  NumberOfString : string -> Z;
  trim : string -> string
}.

(** The environment knobs: [BLOCK_PROC_CONCURRENCY || 12],
    [BLOCK_PROC_MAX_TASKS || 5000], [ROUTER_ADDR || null]. *)
Record config := {
  BLOCK_PROC_CONCURRENCY : nat;
  MAX_PENDING_TASKS : nat;
  ROUTER_ADDR : option string
}.

Definition default_config : config :=
  {| BLOCK_PROC_CONCURRENCY := 12; MAX_PENDING_TASKS := 5000; ROUTER_ADDR := None |}.

(** What the closure of a swap task captures. *)
Module Swap.
Record closure := {
  pairContract : string;
  offer : option string;
  ask : option string;
  offerAmt : option N;
  askAmt : option N;
  retAmt : option N;
  res1d : option string;
  res1a : option N;
  res2d : option string;
  res2a : option N;
  msgIndex : Z;
  signerEOA : option string;
  isRouter : bool;
  h : Z;
  tx_hash : option string;
  timestamp : Z
}.
End Swap.

(** What the closure of a liquidity task captures. *)
Module Liq.
Record closure := {
  pairContract : string;
  action : Trades.trade_action;
  res1d : option string;
  res1a : option N;
  res2d : option string;
  res2a : option N;
  shareBase : option N;
  msgIndex : Z;
  signerEOA : option string;
  h : Z;
  tx_hash : option string;
  timestamp : Z
}.
End Liq.

(** The closures pushed on [poolTasks], [tasks] and [lowPrioTasks], and
    the ones built from [prefetchSet]. *)
Inductive task :=
| pool_task (a : Pools.upsertPool_args)
| swap_task (s : Swap.closure)
| liq_task (l : Liq.closure)
| meta_task (denom : string)
| prefetch_task (pc : string).

(** The process: the database, the two module-level caches, the trade
    batch queue, the calls made to collaborators, and the labels handed
    to [T.track] in the order their tasks ran. *)
Record world := {
  DB : db;
  poolsByContract : gmap string row;
  metaFetched : gset string;
  tradesQueue : list Trades.trade;
  calls : list Collaborators.call;
  tracked : list (string * nat)
}.

Definition query {A : Type} (q : M db A) : M world A := fun w =>
  let '(r, d) := q (DB w) in
  (r, {| DB := d; poolsByContract := poolsByContract w;
         metaFetched := metaFetched w; tradesQueue := tradesQueue w;
         calls := calls w; tracked := tracked w |}).

Definition cache_set (pc : string) (p : row) : M world unit := fun w =>
  (Ok tt, {| DB := DB w; poolsByContract := <[pc := p]> (poolsByContract w);
             metaFetched := metaFetched w; tradesQueue := tradesQueue w;
             calls := calls w; tracked := tracked w |}).

Definition meta_add (denom : string) : M world unit := fun w =>
  (Ok tt, {| DB := DB w; poolsByContract := poolsByContract w;
             metaFetched := {[ denom ]} ∪ metaFetched w;
             tradesQueue := tradesQueue w;
             calls := calls w; tracked := tracked w |}).

Definition insertTrade (t : Trades.trade) : M world unit := fun w =>
  (Ok tt, {| DB := DB w; poolsByContract := poolsByContract w;
             metaFetched := metaFetched w;
             tradesQueue := Trades.insertTrade t (tradesQueue w);
             calls := calls w; tracked := tracked w |}).

Definition call (c : Collaborators.call) : M world unit := fun w =>
  (Ok tt, {| DB := DB w; poolsByContract := poolsByContract w;
             metaFetched := metaFetched w; tradesQueue := tradesQueue w;
             calls := calls w ++ [c]; tracked := tracked w |}).

Definition track (label : string) (idx : nat) : M world unit := fun w =>
  (Ok tt, {| DB := DB w; poolsByContract := poolsByContract w;
             metaFetched := metaFetched w; tradesQueue := tradesQueue w;
             calls := calls w; tracked := tracked w ++ [(label, idx)] |}).

(** [getPoolCached]. *)
Definition getPoolCached (pairContract : string) : M world (option row) :=
  if bool_decide (pairContract = "") then mret None
  else
    w ← get;
    match poolsByContract w !! pairContract with
    | Some c => mret (Some c)
    | None =>
        p ← query (Pools.poolWithTokens pairContract);
        match p with
        | Some r => cache_set pairContract r ≫= fun _ => mret (Some r)
        | None => mret None
        end
    end.

(** [SELECT exponent AS exp FROM tokens WHERE token_id = $1], read as
    [rows?.[0]?.exp]. *)
Definition select_exp (id : Z) : M db (option Z) := fun d =>
  (Ok ((fun kv => exponent kv.2) <$> Pools.token_by_id d id), d).

Section processHeight.
Context {parse : ParseJs} {prices : PricesJs} {builtins : Builtins}.

(** The closure pushed on [poolTasks]. *)
Definition run_pool (a : Pools.upsertPool_args) : M world unit :=
  _ ← query (Pools.upsertPool a);
  p ← query (Pools.poolWithTokens (Pools.pairContract a));
  match p with
  | Some p =>
      _ ← cache_set (Pools.pairContract a) p;
      call (Collaborators.pgNotify "pair_created"
              {| Collaborators.pool_id := pool_id p;
                 Collaborators.pair_contract := Pools.pairContract a;
                 Collaborators.base_denom := Pools.PoolWithTokens.base_denom p;
                 Collaborators.quote_denom := Pools.PoolWithTokens.quote_denom p;
                 Collaborators.base_token_id := base_id p;
                 Collaborators.quote_token_id := quote_id p;
                 Collaborators.is_uzig_quote := is_uzig_quote p |})
  | None => mret tt
  end.

(** The price block shared by the swap and the liquidity closures, up to
    the positive finite price.  The [try] around it catches what the
    awaited collaborators throw; they are recorded calls here. *)
Definition live_price (pool : row) (res1d : option string) (res1a : option N)
    (res2d : option string) (res2a : option N) : M world (option (Q * Z)) :=
  baseExp ← query (select_exp (base_id pool));
  quoteExp ← query (select_exp (quote_id pool));
  match baseExp, quoteExp with
  | Some baseExp, Some quoteExp =>
      mret ((fun price => (price, quoteExp)) <$>
            Js.finite_positive
              (priceFromReserves
                 {| base_denom := Pools.PoolWithTokens.base_denom pool;
                    base_exp := baseExp;
                    quote_denom := Pools.PoolWithTokens.quote_denom pool;
                    quote_exp := quoteExp |}
                 [(res1d, res1a); (res2d, res2a)]))
  | _, _ => mret None
  end.

(** The closure pushed on [tasks] for a swap. *)
Definition run_swap (s : Swap.closure) : M world unit :=
  pool ← getPoolCached (Swap.pairContract s);
  match pool with
  | None => mret tt
  | Some pool =>
      _ ← insertTrade
            {| Trades.pool_id := pool_id pool;
               Trades.pair_contract := Swap.pairContract s;
               Trades.action := Trades.swap;
               Trades.direction :=
                 classifyDirection (Swap.offer s)
                   (Pools.PoolWithTokens.quote_denom pool);
               Trades.offer_asset_denom := Swap.offer s;
               Trades.offer_amount_base := Swap.offerAmt s;
               Trades.ask_asset_denom := Swap.ask s;
               Trades.ask_amount_base := Swap.askAmt s;
               Trades.return_amount_base := Swap.retAmt s;
               Trades.is_router := Swap.isRouter s;
               Trades.reserve_asset1_denom := Swap.res1d s;
               Trades.reserve_asset1_amount_base := Swap.res1a s;
               Trades.reserve_asset2_denom := Swap.res2d s;
               Trades.reserve_asset2_amount_base := Swap.res2a s;
               Trades.height := Swap.h s;
               Trades.tx_hash := Swap.tx_hash s;
               Trades.signer := Swap.signerEOA s;
               Trades.msg_index := Swap.msgIndex s;
               Trades.created_at := Swap.timestamp s;
               Trades.class := None |};
      _ ← call (Collaborators.upsertPoolState (pool_id pool)
                  (Pools.PoolWithTokens.base_denom pool)
                  (Pools.PoolWithTokens.quote_denom pool)
                  (Swap.res1d s) (Swap.res1a s) (Swap.res2d s) (Swap.res2a s));
      if is_uzig_quote pool then
        px ← live_price pool (Swap.res1d s) (Swap.res1a s) (Swap.res2d s)
               (Swap.res2a s);
        match px with
        | Some (price, quoteExp) =>
            let quoteRaw :=
              if bool_decide (Swap.offer s = Some (Pools.PoolWithTokens.quote_denom pool))
              then Trades.Number (Swap.offerAmt s)
              else Trades.Number (Swap.retAmt s) in
            let volZig := (quoteRaw / inject_Z 10 ^ quoteExp)%Q in
            let bucket := Js.getTime (Swap.timestamp s) / 60000 * 60000 in
            _ ← call (Collaborators.upsertOHLCV1m (pool_id pool) bucket price volZig 1);
            call (Collaborators.upsertPrice (base_id pool) (pool_id pool) price false)
        | None => mret tt
        end
      else mret tt
  end.

Definition direction_of (a : Trades.trade_action) : Trades.trade_direction :=
  match a with
  | Trades.provide => Trades.dir_provide
  | Trades.withdraw => Trades.dir_withdraw
  | Trades.swap => Trades.buy
  end.

(** The closure pushed on [tasks] for a liquidity event. *)
Definition run_liq (l : Liq.closure) : M world unit :=
  pool ← getPoolCached (Liq.pairContract l);
  match pool with
  | None => mret tt
  | Some pool =>
      _ ← insertTrade
            {| Trades.pool_id := pool_id pool;
               Trades.pair_contract := Liq.pairContract l;
               Trades.action := Liq.action l;
               Trades.direction := direction_of (Liq.action l);
               Trades.offer_asset_denom := None;
               Trades.offer_amount_base := None;
               Trades.ask_asset_denom := None;
               Trades.ask_amount_base := None;
               Trades.return_amount_base := Liq.shareBase l;
               Trades.is_router := false;
               Trades.reserve_asset1_denom := Liq.res1d l;
               Trades.reserve_asset1_amount_base := Liq.res1a l;
               Trades.reserve_asset2_denom := Liq.res2d l;
               Trades.reserve_asset2_amount_base := Liq.res2a l;
               Trades.height := Liq.h l;
               Trades.tx_hash := Liq.tx_hash l;
               Trades.signer := Liq.signerEOA l;
               Trades.msg_index := Liq.msgIndex l;
               Trades.created_at := Liq.timestamp l;
               Trades.class := None |};
      if is_uzig_quote pool then
        px ← live_price pool (Liq.res1d l) (Liq.res1a l) (Liq.res2d l) (Liq.res2a l);
        match px with
        | Some (price, _) =>
            call (Collaborators.upsertPrice (base_id pool) (pool_id pool) price false)
        | None => mret tt
        end
      else mret tt
  end.

(** The closure built for each member of [prefetchSet]. *)
Definition run_prefetch (pc : string) : M world unit :=
  w ← get;
  match poolsByContract w !! pc with
  | Some _ => mret tt
  | None =>
      p ← query (Pools.poolWithTokens pc);
      match p with
      | Some p => cache_set pc p
      | None => mret tt
      end
  end.

Definition run_task (t : task) : M world unit :=
  match t with
  | pool_task a => run_pool a
  | swap_task s => run_swap s
  | liq_task l => run_liq l
  | meta_task denom => call (Collaborators.setTokenMetaFromLCD denom)
  | prefetch_task pc => run_prefetch pc
  end.

(** One worker's loop, from index [idx] on.  [T.track] records what a
    task throws and the worker takes the next index. *)
Fixpoint workers (labelPrefix : string) (idx : nat) (tasks : list task)
  : M world unit := fun w =>
  match tasks with
  | [] => (Ok tt, w)
  | t :: rest =>
      workers labelPrefix (S idx) rest
        (run_task t (track labelPrefix idx w).2).2
  end.

(** [runWithConcurrency(tasks, limit, T, labelPrefix)]: it returns when
    every worker has left its loop.  With [limit > 1] the workers
    interleave at their [await]s; the embedding runs the tasks of one
    call in index order, the schedule of a single worker.  No worker is
    created when [limit] or [tasks.length] is [0]. *)
Definition runWithConcurrency (tasks : list task) (limit : nat)
    (labelPrefix : string) : M world unit :=
  if (Nat.min limit (length tasks) =? 0)%nat then mret tt
  else workers labelPrefix 0 tasks.

(** *** The scan *)

(** The variables of [processHeight] the scan assigns.  [prefetchSet] is
    a [Set]: insertion order, no repeats. *)
Record scan_state := {
  poolTasks : list task;
  tasks : list task;
  lowPrioTasks : list task;
  prefetchSet : list string;
  nCreatePair : nat;
  nSwap : nat;
  nLiq : nat
}.

Definition scan_start : scan_state :=
  {| poolTasks := []; tasks := []; lowPrioTasks := []; prefetchSet := [];
     nCreatePair := 0; nSwap := 0; nLiq := 0 |}.

Definition set_add (pc : string) (s : list string) : list string :=
  if bool_decide (pc ∈ s) then s else s ++ [pc].

(** [rememberMeta(denom, lowPrioTasks)]. *)
Definition rememberMeta (denom : string) (lowPrioTasks : list task)
  : M world (list task) :=
  w ← get;
  if bool_decide (denom = "") || bool_decide (denom ∈ metaFetched w)
  then mret lowPrioTasks
  else
    _ ← meta_add denom;
    mret (lowPrioTasks ++ [meta_task denom]).

(** [x ?? y]. *)
Definition nullish {A : Type} (x y : option A) : option A :=
  match x with
  | Some _ => x
  | None => y
  end.

(** The reserve legs as the scan holds them: [res1d], [res1a], [res2d],
    [res2a]. *)
Definition legs : Type := option string * option N * option string * option N.

Definition incomplete (r : legs) : bool :=
  match r with
  | (Some _, Some _, Some _, Some _) => false
  | _ => true
  end.

(** The two [if (kv?.[0]) ...] / [if (kv?.[1]) ...] lines (and their
    [parsed?.a1] / [parsed?.a2] twins). *)
Definition fill (r : legs) (kv : option leg * option leg) : legs :=
  let '(res1d, res1a, res2d, res2a) := r in
  let '(res1d, res1a) :=
    match kv.1 with
    | Some k => (nullish res1d (denom k), nullish res1a (digitsOrNull (amount_base k)))
    | None => (res1d, res1a)
    end in
  let '(res2d, res2a) :=
    match kv.2 with
    | Some k => (nullish res2d (denom k), nullish res2a (digitsOrNull (amount_base k)))
    | None => (res2d, res2a)
    end in
  (res1d, res1a, res2d, res2a).

(** [if ((!res1d || !res1a || !res2d || !res2a) && str) ...]. *)
Definition fill_from (r : legs) (str : option string)
    (parse : string -> option leg * option leg) : legs :=
  match Js.truthy str with
  | Some str => if incomplete r then fill r (parse str) else r
  | None => r
  end.

Section scan_tx.
Variables (cfg : config) (height : Z) (timestamp : Z).
Variables (tx_hash : option string).
Variables (wasms insts executes : list event) (msgSenderByIndex : gmap Z string).

(** The body of [for (const cp of cps)]. *)
Definition scan_create_pair (st : scan_state) (cp : event) : M world scan_state :=
  let factoryAddrFromEvent :=
    trim (default "" (Js.truthy (m cp !! "_contract_address"))) in
  if bool_decide (factoryAddrFromEvent = "") then mret st
  else
    let pairType := default "xyk" (Js.truthy (m cp !! "pair_type")) in
    let '(base, quote) := normalizePair (m cp !! "pair") in
    let reg :=
      find (fun w => bool_decide (m w !! "action" = Some "register")
                     && bool_decide (m w !! "_contract_address"
                                     = Some factoryAddrFromEvent)) wasms in
    let poolAddr :=
      Js.or_else (reg ≫= fun r => m r !! "pair_contract_addr")
                 (last insts ≫= fun i => m i !! "_contract_address") in
    match Js.truthy poolAddr with
    | None =>
        mret {| poolTasks := poolTasks st; tasks := tasks st;
                lowPrioTasks := lowPrioTasks st; prefetchSet := prefetchSet st;
                nCreatePair := S (nCreatePair st); nSwap := nSwap st;
                nLiq := nLiq st |}
    | Some poolAddr =>
        let signer :=
          Js.truthy (m cp !! "msg_index" ≫= fun i =>
                     msgSenderByIndex !! NumberOfString i) in
        let pushed :=
          poolTasks st ++
            [pool_task
               {| Pools.pairContract := poolAddr;
                  Pools.baseDenom := base;
                  Pools.quoteDenom := quote;
                  Pools.pairType := pairType;
                  Pools.createdAt := timestamp;
                  Pools.height := height;
                  Pools.txHash := tx_hash;
                  Pools.signer_arg := signer;
                  Pools.factoryContract := factoryAddrFromEvent |}] in
        low1 ← rememberMeta base (lowPrioTasks st);
        low2 ← rememberMeta quote low1;
        mret {| poolTasks := pushed; tasks := tasks st;
                lowPrioTasks := low2; prefetchSet := prefetchSet st;
                nCreatePair := S (nCreatePair st); nSwap := nSwap st;
                nLiq := nLiq st |}
    end.

(** The body of [for (let idx = 0; idx < swaps.length; idx++)]. *)
Definition scan_swap (st : scan_state) (ie : nat * event) : scan_state :=
  let '(idx, s) := ie in
  match Js.truthy (m s !! "_contract_address") with
  | None => st
  | Some pairContract =>
      let offer := Js.or_else (m s !! "offer_asset") (m s !! "offer_asset_denom") in
      let ask := Js.or_else (m s !! "ask_asset") (m s !! "ask_asset_denom") in
      let offerAmt := digitsOrNull (m s !! "offer_amount") in
      let askAmt := digitsOrNull (m s !! "ask_amount") in
      let retAmt := digitsOrNull (m s !! "return_amount") in
      let direct : legs :=
        (Js.truthy (Js.or_else (m s !! "reserve_asset1_denom") (m s !! "asset1_denom")),
         digitsOrNull (Js.or_else (m s !! "reserve_asset1_amount") (m s !! "asset1_amount")),
         Js.truthy (Js.or_else (m s !! "reserve_asset2_denom") (m s !! "asset2_denom")),
         digitsOrNull (Js.or_else (m s !! "reserve_asset2_amount") (m s !! "asset2_amount"))) in
      let '(res1d, res1a, res2d, res2a) :=
        fill_from direct (m s !! "reserves") parseReservesKV in
      let msgIndex :=
        match m s !! "msg_index" with
        | Some v => NumberOfString v
        | None => Z.of_nat idx
        end in
      let signerEOA := Js.truthy (msgSenderByIndex !! msgIndex) in
      let poolSwapSender := Js.truthy (m s !! "sender") in
      let isRouter :=
        match ROUTER_ADDR cfg with
        | Some router =>
            bool_decide (poolSwapSender = Some router)
            || existsb
                 (fun e =>
                    bool_decide (m e !! "_contract_address" = Some router)
                    && bool_decide
                         (match Js.truthy (m e !! "msg_index") with
                          | Some v => NumberOfString v
                          | None => -1
                          end = msgIndex))
                 executes
        | None => false
        end in
      {| poolTasks := poolTasks st;
         tasks := tasks st ++
           [swap_task
              {| Swap.pairContract := pairContract;
                 Swap.offer := offer; Swap.ask := ask;
                 Swap.offerAmt := offerAmt; Swap.askAmt := askAmt;
                 Swap.retAmt := retAmt;
                 Swap.res1d := res1d; Swap.res1a := res1a;
                 Swap.res2d := res2d; Swap.res2a := res2a;
                 Swap.msgIndex := msgIndex; Swap.signerEOA := signerEOA;
                 Swap.isRouter := isRouter;
                 Swap.h := height; Swap.tx_hash := tx_hash;
                 Swap.timestamp := timestamp |}];
         lowPrioTasks := lowPrioTasks st;
         prefetchSet := set_add pairContract (prefetchSet st);
         nCreatePair := nCreatePair st; nSwap := S (nSwap st);
         nLiq := nLiq st |}
  end.

(** The body of [for (let li = 0; li < liqs.length; li++)]. *)
Definition scan_liq (st : scan_state) (il : nat * event) : scan_state :=
  let '(li, le) := il in
  match Js.truthy (m le !! "_contract_address") with
  | None => st
  | Some pairContract =>
      let isProvide := bool_decide (m le !! "action" = Some "provide_liquidity") in
      let action := if isProvide then Trades.provide else Trades.withdraw in
      let direct : legs :=
        (Js.truthy (m le !! "reserve_asset1_denom"),
         digitsOrNull (m le !! "reserve_asset1_amount"),
         Js.truthy (m le !! "reserve_asset2_denom"),
         digitsOrNull (m le !! "reserve_asset2_amount")) in
      let assetsStr := if isProvide then m le !! "assets" else m le !! "refund_assets" in
      let '(res1d, res1a, res2d, res2a) :=
        fill_from (fill_from direct assetsStr parseAssetsList)
          (m le !! "reserves") parseReservesKV in
      let shareBase :=
        digitsOrNull
          (if isProvide then m le !! "share"
           else
             Js.or_else (m le !! "withdrawn_share")
               (Js.or_else (m le !! "withdraw_share")
                  (Js.or_else (m le !! "liquidity")
                     (Js.or_else (m le !! "burn_share")
                        (Js.or_else (m le !! "burnt_share") (m le !! "share")))))) in
      let msgIndex :=
        match m le !! "msg_index" with
        | Some v => NumberOfString v
        | None => Z.of_nat li
        end in
      let signerEOA := Js.truthy (msgSenderByIndex !! msgIndex) in
      {| poolTasks := poolTasks st;
         tasks := tasks st ++
           [liq_task
              {| Liq.pairContract := pairContract; Liq.action := action;
                 Liq.res1d := res1d; Liq.res1a := res1a;
                 Liq.res2d := res2d; Liq.res2a := res2a;
                 Liq.shareBase := shareBase;
                 Liq.msgIndex := msgIndex; Liq.signerEOA := signerEOA;
                 Liq.h := height; Liq.tx_hash := tx_hash;
                 Liq.timestamp := timestamp |}];
         lowPrioTasks := lowPrioTasks st;
         prefetchSet := set_add pairContract (prefetchSet st);
         nCreatePair := nCreatePair st; nSwap := nSwap st;
         nLiq := S (nLiq st) |}
  end.

End scan_tx.

Definition enumerate {A : Type} (l : list A) : list (nat * A) :=
  combine (seq 0 (length l)) l.

(** The backpressure lines that end the body of the scan loop:
    [if (tasks.length >= MAX_PENDING_TASKS)
       await runWithConcurrency(tasks.splice(0), BLOCK_PROC_CONCURRENCY, T, 'core')]. *)
Definition flush (cfg : config) (st : scan_state) : M world scan_state :=
  if (MAX_PENDING_TASKS cfg <=? length (tasks st))%nat then
    _ ← runWithConcurrency (tasks st) (BLOCK_PROC_CONCURRENCY cfg) "core";
    mret {| poolTasks := poolTasks st; tasks := [];
            lowPrioTasks := lowPrioTasks st; prefetchSet := prefetchSet st;
            nCreatePair := nCreatePair st; nSwap := nSwap st; nLiq := nLiq st |}
  else mret st.

(** The body of [for (let i = 0; i < N; i++)], at
    [txr = txResults[i] || { events: [] }] and [tx_hash = hashes[i] || null]. *)
Definition scan_tx (cfg : config) (height : Z) (timestamp : Z)
    (st : scan_state) (tx : list event * option string) : M world scan_state :=
  let '(events, tx_hash) := tx in
  let wasms := byType events "wasm" in
  let insts := byType events "instantiate" in
  let executes := byType events "execute" in
  let msgs := byType events "message" in
  let msgSenderByIndex := buildMsgSenderMap msgs in
  st1 ← Js.fold_each (wasmByAction wasms "create_pair")
          (scan_create_pair height timestamp tx_hash wasms insts msgSenderByIndex)
          st;
  let st2 :=
    fold_left (scan_swap cfg height timestamp tx_hash executes msgSenderByIndex)
      (enumerate (wasmByAction wasms "swap")) st1 in
  let st3 :=
    fold_left (scan_liq height timestamp tx_hash msgSenderByIndex)
      (enumerate (wasmByAction wasms "provide_liquidity"
                  ++ wasmByAction wasms "withdraw_liquidity")) st2 in
  flush cfg st3.

(** *** [processHeight] *)

Record header_t := { time : Z }.

(** [unwrapBlock(blkJson)] and [unwrapBlockResults(resJson)]. *)
Record block := {
  header : option header_t;
  txs : list string
}.

Record block_results := {
  txs_results : list (list event)
}.

(** [txResults[i]] and [hashes[i]] for [i] below
    [Math.max(txResults.length, hashes.length)]. *)
Fixpoint rows (txResults : list (list event)) (hashes : list string)
  : list (list event * option string) :=
  match txResults, hashes with
  | [], [] => []
  | txr :: txResults', [] => (txr, None) :: rows txResults' []
  | [], hash :: hashes' => ([], Js.truthy (Some hash)) :: map (fun x => ([], Js.truthy (Some x))) hashes'
  | txr :: txResults', hash :: hashes' =>
      (txr, Js.truthy (Some hash)) :: rows txResults' hashes'
  end.

(** [processHeight(h)], given what the two RPC calls and the unwrapping
    gave: the block (or [null]) and the block results, or the error
    thrown. *)
Definition processHeight (cfg : config) (h : Z)
    (rpc : result (option block * block_results)) : M world unit :=
  match rpc with
  | Throw e => throw e
  | Ok (blk, res) =>
      match blk ≫= header with
      | None => throw "block: missing header"
      | Some hd =>
          let hashes := sha256hex <$> default [] (txs <$> blk) in
          st ← Js.fold_each (rows (txs_results res) hashes)
                 (scan_tx cfg h (time hd)) scan_start;
          _ ← (if (0 <? length (poolTasks st))%nat
               then runWithConcurrency (poolTasks st) (BLOCK_PROC_CONCURRENCY cfg) "pools"
               else mret tt);
          _ ← (if (0 <? length (prefetchSet st))%nat
               then runWithConcurrency (prefetch_task <$> prefetchSet st)
                      (Nat.min (BLOCK_PROC_CONCURRENCY cfg) 24) "prefetch"
               else mret tt);
          _ ← (if (0 <? length (tasks st))%nat
               then runWithConcurrency (tasks st) (BLOCK_PROC_CONCURRENCY cfg) "core"
               else mret tt);
          (if (0 <? length (lowPrioTasks st))%nat
           then runWithConcurrency (lowPrioTasks st)
                  (Nat.min 4 (BLOCK_PROC_CONCURRENCY cfg)) "meta"
           else mret tt)
      end
  end.

(** *** What a run leaves untouched *)

(** [keeps f m]: whatever [m] returns or throws, it leaves [f] of the
    store as it found it. *)
Definition keeps {S X A : Type} (f : S -> X) (m : M S A) : Prop :=
  forall s, f (m s).2 = f s.

Lemma keeps_ret {S X A : Type} (f : S -> X) (a : A) : keeps f (mret a : M S A).
Proof. intros s. reflexivity. Qed.

Lemma keeps_bind {S X A B : Type} (f : S -> X) (m : M S A) (k : A -> M S B) :
  keeps f m -> (forall a, keeps f (k a)) -> keeps f (m ≫= k).
Proof.
  intros Hm Hk s. unfold mbind, M_bind.
  specialize (Hm s). destruct (m s) as [[a|e] s1]; simpl in *.
  - now rewrite Hk.
  - exact Hm.
Qed.

Lemma keeps_get {S X : Type} (f : S -> X) : keeps f (get : M S S).
Proof. intros s. reflexivity. Qed.

Lemma keeps_throw {S X A : Type} (f : S -> X) (e : string) :
  keeps f (throw e : M S A).
Proof. intros s. reflexivity. Qed.

Lemma keeps_fold_each {S X A B : Type} (f : S -> X) (l : list A)
    (body : B -> A -> M S B) (b : B) :
  (forall b a, keeps f (body b a)) -> keeps f (Js.fold_each l body b).
Proof.
  intros Hbody. revert b. induction l as [|x l IH]; intros b; simpl.
  - apply keeps_ret.
  - apply keeps_bind; [apply Hbody | intros b'; apply IH].
Qed.

Lemma keeps_query {X A : Type} (f : db -> X) (q : M db A) :
  keeps f q -> keeps (fun w => f (DB w)) (query q).
Proof.
  intros Hq w. unfold query. specialize (Hq (DB w)).
  destruct (q (DB w)) as [r d]. exact Hq.
Qed.

Create HintDb keeps.
#[local] Hint Resolve keeps_ret keeps_get keeps_throw : keeps.

(** Goals [keeps f m] by the shape of [m]. *)
Ltac keeps_step :=
  match goal with
  | |- keeps _ (_ ≫= _) => apply keeps_bind; [|intros ?]
  | |- keeps _ (match ?x with _ => _ end) => destruct x
  | |- keeps _ (if ?b then _ else _) => destruct b
  | |- keeps _ (let '(_, _) := ?x in _) => destruct x
  | |- keeps _ _ => solve [eauto with keeps]
  end.
Ltac keeps_auto := repeat keeps_step.

(** The statements of [upsertPool] never name [index_state]. *)
Lemma upsertTokenMinimal_keeps (denom : string) :
  keeps index_state (Pools.upsertTokenMinimal denom).
Proof.
  intros d. unfold Pools.upsertTokenMinimal. now destruct (tokens d !! denom).
Qed.

Lemma register_unknown_dex_keeps (factory : string) :
  keeps index_state (Pools.register_unknown_dex factory).
Proof.
  intros d. unfold Pools.register_unknown_dex.
  repeat match goal with |- context [if ?b then _ else _] => destruct b end;
    reflexivity.
Qed.

Lemma insert_pool_keeps (a : Pools.upsertPool_args) (baseId quoteId : Z)
    (dex chain : option Z) :
  keeps index_state (Pools.insert_pool a baseId quoteId dex chain).
Proof.
  intros d. unfold Pools.insert_pool.
  destruct (match chain with Some c => _ | None => _ end); [|reflexivity].
  now destruct (pools d !! Pools.pairContract a).
Qed.

Lemma select_dex_keeps (factory : string) :
  keeps index_state (Pools.select_dex factory).
Proof. intros d. reflexivity. Qed.

#[local] Hint Resolve upsertTokenMinimal_keeps register_unknown_dex_keeps
  insert_pool_keeps select_dex_keeps : keeps.

Lemma upsertPool_keeps (a : Pools.upsertPool_args) :
  keeps index_state (Pools.upsertPool a).
Proof. unfold Pools.upsertPool. keeps_auto. Qed.

Lemma poolWithTokens_keeps (pc : string) :
  keeps index_state (Pools.poolWithTokens pc).
Proof. intros d. reflexivity. Qed.

Lemma select_exp_keeps (id : Z) : keeps index_state (select_exp id).
Proof. intros d. reflexivity. Qed.

(** The watermark as the block processor's world holds it. *)
Definition watermark (w : world) : gmap string Z := index_state (DB w).

Lemma query_keeps {A : Type} (q : M db A) :
  keeps index_state q -> keeps watermark (query q).
Proof. apply (keeps_query index_state). Qed.

Lemma cache_set_keeps (pc : string) (p : row) : keeps watermark (cache_set pc p).
Proof. intros w. reflexivity. Qed.
Lemma meta_add_keeps (denom : string) : keeps watermark (meta_add denom).
Proof. intros w. reflexivity. Qed.
Lemma insertTrade_keeps (t : Trades.trade) : keeps watermark (insertTrade t).
Proof. intros w. reflexivity. Qed.
Lemma call_keeps (c : Collaborators.call) : keeps watermark (call c).
Proof. intros w. reflexivity. Qed.
Lemma track_keeps (label : string) (idx : nat) : keeps watermark (track label idx).
Proof. intros w. reflexivity. Qed.

#[local] Hint Resolve upsertPool_keeps poolWithTokens_keeps select_exp_keeps
  query_keeps cache_set_keeps meta_add_keeps insertTrade_keeps call_keeps
  track_keeps : keeps.

Lemma getPoolCached_keeps (pc : string) : keeps watermark (getPoolCached pc).
Proof. unfold getPoolCached. keeps_auto. Qed.
#[local] Hint Resolve getPoolCached_keeps : keeps.

Lemma live_price_keeps (pool : row) (r1d : option string) (r1a : option N)
    (r2d : option string) (r2a : option N) :
  keeps watermark (live_price pool r1d r1a r2d r2a).
Proof. unfold live_price. keeps_auto. Qed.
#[local] Hint Resolve live_price_keeps : keeps.

Lemma run_task_keeps (t : task) : keeps watermark (run_task t).
Proof.
  destruct t; simpl;
    unfold run_pool, run_swap, run_liq, run_prefetch; keeps_auto.
Qed.

Lemma workers_keeps (label : string) (idx : nat) (ts : list task) :
  keeps watermark (workers label idx ts).
Proof.
  revert idx. induction ts as [|t ts IH]; intros idx w; simpl.
  - reflexivity.
  - rewrite IH. now rewrite run_task_keeps.
Qed.

Lemma runWithConcurrency_keeps (ts : list task) (limit : nat) (label : string) :
  keeps watermark (runWithConcurrency ts limit label).
Proof.
  unfold runWithConcurrency.
  destruct (Nat.min limit (length ts) =? 0)%nat;
    [apply keeps_ret | apply workers_keeps].
Qed.
#[local] Hint Resolve runWithConcurrency_keeps : keeps.

Lemma rememberMeta_keeps (denom : string) (low : list task) :
  keeps watermark (rememberMeta denom low).
Proof. unfold rememberMeta. keeps_auto. Qed.
#[local] Hint Resolve rememberMeta_keeps : keeps.

Lemma scan_tx_keeps (cfg : config) (h ts : Z) (st : scan_state)
    (tx : list event * option string) :
  keeps watermark (scan_tx cfg h ts st tx).
Proof.
  unfold scan_tx. destruct tx as [events tx_hash].
  apply keeps_bind.
  - apply keeps_fold_each. intros b a. unfold scan_create_pair. keeps_auto.
  - intros st1. unfold flush. keeps_auto.
Qed.

(** C2 (amended).  [processHeight(h)] never writes [index_state]:
    whether it completes or throws, every [last_height] is what it was
    before the call.  Advancing the watermark to [h] is left to the
    caller. *)
Theorem processHeight_keeps_index_state (cfg : config) (h : Z)
    (rpc : result (option block * block_results)) (w : world) :
  index_state (DB (processHeight cfg h rpc w).2) = index_state (DB w).
Proof.
  change (watermark (processHeight cfg h rpc w).2 = watermark w).
  revert w. change (keeps watermark (processHeight cfg h rpc)).
  unfold processHeight.
  destruct rpc as [[blk res]|e]; [|apply keeps_throw].
  destruct (blk ≫= header) as [hd|]; [|apply keeps_throw].
  apply keeps_bind.
  - apply keeps_fold_each. intros st tx. apply scan_tx_keeps.
  - intros st. keeps_auto.
Qed.

(** *** The trade a swap task enqueues *)

Lemma bind_run {S A B : Type} (m : M S A) (k : A -> M S B) (s : S) :
  (m ≫= k) s
  = match m s with
    | (Ok a, s') => k a s'
    | (Throw e, s') => (Throw e, s')
    end.
Proof. reflexivity. Qed.

Lemma getPoolCached_queue (pc : string) (w : world) :
  tradesQueue (getPoolCached pc w).2 = tradesQueue w.
Proof.
  unfold getPoolCached. destruct (bool_decide (pc = "")); [reflexivity|].
  unfold mbind, M_bind, get; simpl.
  destruct (poolsByContract w !! pc); [reflexivity|].
  unfold query, Pools.poolWithTokens; simpl.
  match goal with |- context [match ?x with Some _ => _ | None => _ end] =>
    destruct x end; reflexivity.
Qed.

Lemma live_price_queue (pool : row) (r1d : option string) (r1a : option N)
    (r2d : option string) (r2a : option N) :
  keeps tradesQueue (live_price pool r1d r1a r2d r2a).
Proof.
  unfold live_price.
  apply keeps_bind; [intros w; reflexivity | intros baseExp].
  apply keeps_bind; [intros w; reflexivity | intros quoteExp].
  destruct baseExp, quoteExp; apply keeps_ret.
Qed.

Lemma call_queue (c : Collaborators.call) : keeps tradesQueue (call c).
Proof. intros w. reflexivity. Qed.

(** The row a swap closure hands to [insertTrade] for the pool it found. *)
Definition swap_row (s : Swap.closure) (pool : row) : Trades.trade :=
  {| Trades.pool_id := pool_id pool;
     Trades.pair_contract := Swap.pairContract s;
     Trades.action := Trades.swap;
     Trades.direction :=
       classifyDirection (Swap.offer s) (Pools.PoolWithTokens.quote_denom pool);
     Trades.offer_asset_denom := Swap.offer s;
     Trades.offer_amount_base := Swap.offerAmt s;
     Trades.ask_asset_denom := Swap.ask s;
     Trades.ask_amount_base := Swap.askAmt s;
     Trades.return_amount_base := Swap.retAmt s;
     Trades.is_router := Swap.isRouter s;
     Trades.reserve_asset1_denom := Swap.res1d s;
     Trades.reserve_asset1_amount_base := Swap.res1a s;
     Trades.reserve_asset2_denom := Swap.res2d s;
     Trades.reserve_asset2_amount_base := Swap.res2a s;
     Trades.height := Swap.h s;
     Trades.tx_hash := Swap.tx_hash s;
     Trades.signer := Swap.signerEOA s;
     Trades.msg_index := Swap.msgIndex s;
     Trades.created_at := Swap.timestamp s;
     Trades.class := None |}.

Lemma run_swap_enqueues (s : Swap.closure) (w : world) (pool : row) :
  (getPoolCached (Swap.pairContract s) w).1 = Ok (Some pool) ->
  tradesQueue (run_swap s w).2
  = Trades.insertTrade (swap_row s pool) (tradesQueue w).
Proof.
  intros Hpool. unfold run_swap.
  pose proof (getPoolCached_queue (Swap.pairContract s) w) as Hq.
  rewrite bind_run.
  destruct (getPoolCached (Swap.pairContract s) w) as [r w1].
  simpl in Hpool, Hq. subst r.
  fold (swap_row s pool). rewrite bind_run. simpl.
  match goal with |- tradesQueue (?k ?w').2 = _ =>
    assert (Hk : keeps tradesQueue k); [|rewrite Hk; simpl; now rewrite Hq]
  end.
  apply keeps_bind; [apply call_queue | intros _].
  destruct (is_uzig_quote pool); [|apply keeps_ret].
  apply keeps_bind; [apply live_price_queue|].
  intros [[price quoteExp]|]; [|apply keeps_ret].
  apply keeps_bind; [apply call_queue | intros _; apply call_queue].
Qed.


End processHeight.

(** *** The pool cache *)

Section tasks.
Context {parse : ParseJs} {prices : PricesJs} {builtins : Builtins}.

(** The process with another database under it. *)
Definition with_DB (w : world) (d : db) : world :=
  {| DB := d; poolsByContract := poolsByContract w;
     metaFetched := metaFetched w; tradesQueue := tradesQueue w;
     calls := calls w; tracked := tracked w |}.

Lemma with_DB_same (w : world) : with_DB w (DB w) = w.
Proof. now destruct w. Qed.

Lemma query_poolWithTokens (pc : string) (w : world) :
  query (Pools.poolWithTokens pc) w = ((Pools.poolWithTokens pc (DB w)).1, w).
Proof. unfold query, Pools.poolWithTokens. cbn. now destruct w. Qed.

Lemma getPoolCached_run (pc : string) (w : world) :
  getPoolCached pc w
  = if bool_decide (pc = "") then (Ok None, w)
    else match poolsByContract w !! pc with
         | Some c => (Ok (Some c), w)
         | None =>
             match (Pools.poolWithTokens pc (DB w)).1 with
             | Ok (Some r) => (Ok (Some r), (cache_set pc r w).2)
             | Ok None => (Ok None, w)
             | Throw e => (Throw e, w)
             end
         end.
Proof.
  unfold getPoolCached. destruct (bool_decide (pc = "")); [reflexivity|].
  unfold mbind at 1, M_bind at 1, get.
  destruct (poolsByContract w !! pc); [reflexivity|].
  unfold mbind at 1, M_bind at 1. rewrite query_poolWithTokens. cbn [fst].
  now destruct (Pools.poolWithTokens pc (DB w)).1 as [[r|]|e].
Qed.

(** [getPoolCached] writes nothing but its cache.  A pool it returns is
    in the cache afterwards, and from then on the cached row is returned
    whatever [pools] and [tokens] hold: the cache is never refreshed.  A
    contract that is not found is not remembered, so the next call asks
    the database again; the empty contract is never looked up. *)
Theorem getPoolCached_caches_found_pools (pc : string) (w w' : world)
    (r : option row) :
  getPoolCached pc w = (Ok r, w') ->
  DB w' = DB w /\ tradesQueue w' = tradesQueue w /\ calls w' = calls w /\
  match r with
  | Some p =>
      pc <> "" /\
      poolsByContract w' = <[pc := p]> (poolsByContract w) /\
      forall d, getPoolCached pc (with_DB w' d) = (Ok (Some p), with_DB w' d)
  | None =>
      w' = w /\ (pc <> "" -> poolsByContract w !! pc = None)
  end.
Proof.
  assert (Hhit : forall (w1 : world) (p : row),
            pc <> "" -> poolsByContract w1 !! pc = Some p ->
            forall d, getPoolCached pc (with_DB w1 d) = (Ok (Some p), with_DB w1 d)).
  { intros w1 p Hpc Hp d. rewrite getPoolCached_run.
    rewrite bool_decide_eq_false_2 by exact Hpc.
    cbn [poolsByContract with_DB]. now rewrite Hp. }
  rewrite getPoolCached_run.
  destruct (decide (pc = "")) as [->|Hpc].
  { rewrite bool_decide_eq_true_2 by reflexivity. intros Hrun.
    inversion Hrun; subst. do 4 (split; [reflexivity|]). intros Hne. contradiction. }
  rewrite bool_decide_eq_false_2 by exact Hpc.
  destruct (poolsByContract w !! pc) as [c|] eqn:Ec.
  - intros Hrun. inversion Hrun; subst. do 3 (split; [reflexivity|]).
    split; [exact Hpc|]. split; [symmetry; now apply insert_id|].
    now apply Hhit.
  - destruct (Pools.poolWithTokens pc (DB w)).1 as [[p|]|e];
      intros Hrun; inversion Hrun; subst.
    + do 3 (split; [reflexivity|]). split; [exact Hpc|]. split; [reflexivity|].
      apply Hhit; [exact Hpc|]. cbn. now rewrite lookup_insert_eq.
    + do 4 (split; [reflexivity|]). intros _. assumption || reflexivity.
Qed.

(** *** Tasks whose pool is unknown *)

(** The contract a swap or liquidity closure works on. *)
Definition contract_of (t : task) : option string :=
  match t with
  | swap_task s => Some (Swap.pairContract s)
  | liq_task l => Some (Liq.pairContract l)
  | _ => None
  end.

(** A swap or a liquidity event on a contract that is neither cached nor
    in [pools] leaves no trace: no trade, no call, no write, no error. *)
Theorem task_without_pool_is_dropped (t : task) (pc : string) (w : world) :
  contract_of t = Some pc ->
  poolsByContract w !! pc = None ->
  pools (DB w) !! pc = None ->
  run_task t w = (Ok tt, w).
Proof.
  intros Ht Hc Hp.
  assert (Hmiss : getPoolCached pc w = (Ok None, w)).
  { rewrite getPoolCached_run.
    destruct (bool_decide (pc = "")); [reflexivity|]. rewrite Hc.
    unfold Pools.poolWithTokens. rewrite Hp. reflexivity. }
  destruct t as [a|s|l|denom|pc']; try discriminate;
    cbn in Ht; inversion Ht; subst pc; cbn [run_task].
  - unfold run_swap. rewrite bind_run, Hmiss. reflexivity.
  - unfold run_liq. rewrite bind_run, Hmiss. reflexivity.
Qed.

(** *** The row of a liquidity event *)

Lemma run_liq_enqueues (l : Liq.closure) (w : world) (pool : row) :
  (getPoolCached (Liq.pairContract l) w).1 = Ok (Some pool) ->
  exists t,
    tradesQueue (run_liq l w).2 = Trades.insertTrade t (tradesQueue w) /\
    Trades.pool_id t = pool_id pool /\
    Trades.action t = Liq.action l /\
    Trades.direction t = direction_of (Liq.action l) /\
    Trades.offer_asset_denom t = None /\ Trades.ask_asset_denom t = None /\
    Trades.offer_amount_base t = None /\ Trades.ask_amount_base t = None /\
    Trades.return_amount_base t = Liq.shareBase l /\
    Trades.is_router t = false.
Proof.
  intros Hpool. unfold run_liq.
  pose proof (getPoolCached_queue (Liq.pairContract l) w) as Hq.
  rewrite bind_run.
  destruct (getPoolCached (Liq.pairContract l) w) as [r w1].
  simpl in Hpool, Hq. subst r.
  eexists. split.
  - rewrite bind_run. simpl.
    match goal with |- tradesQueue (?k ?w').2 = _ =>
      assert (Hk : keeps tradesQueue k); [|rewrite Hk; simpl; rewrite Hq; reflexivity]
    end.
    destruct (is_uzig_quote pool); [|apply keeps_ret].
    apply keeps_bind; [apply live_price_queue|].
    intros [[price quoteExp]|]; [apply call_queue | apply keeps_ret].
  - repeat split.
Qed.

(** A provide or withdraw event on a known pool enqueues one row whose
    direction is its action, with no offer and no ask leg, the share in
    [return_amount_base] and [is_router] false; and since neither leg is
    ['uzig'], [insertTrade] gives it no size class. *)
Theorem liquidity_row_has_no_class (l : Liq.closure) (w : world) (pool : row) :
  (getPoolCached (Liq.pairContract l) w).1 = Ok (Some pool) ->
  exists t,
    tradesQueue (run_liq l w).2 = tradesQueue w ++ [t] /\
    Trades.pool_id t = pool_id pool /\
    Trades.action t = Liq.action l /\
    (Liq.action l = Trades.provide -> Trades.direction t = Trades.dir_provide) /\
    (Liq.action l = Trades.withdraw -> Trades.direction t = Trades.dir_withdraw) /\
    Trades.offer_asset_denom t = None /\ Trades.ask_asset_denom t = None /\
    Trades.offer_amount_base t = None /\ Trades.ask_amount_base t = None /\
    Trades.return_amount_base t = Liq.shareBase l /\
    Trades.is_router t = false /\
    Trades.class t = None.
Proof.
  intros Hpool.
  destruct (run_liq_enqueues l w pool Hpool)
    as (t & Hq & Hid & Ha & Hd & Ho & Hk & Hoa & Hka & Hr & Hrt).
  exists (Trades.set_class t (Trades.classOf (Trades.zigAmount t))).
  split; [exact Hq|]. cbn [Trades.set_class Trades.pool_id Trades.action
    Trades.direction Trades.offer_asset_denom Trades.ask_asset_denom
    Trades.offer_amount_base Trades.ask_amount_base Trades.return_amount_base
    Trades.is_router Trades.class].
  repeat split; auto.
  - intros E. now rewrite Hd, E.
  - intros E. now rewrite Hd, E.
  - unfold Trades.zigAmount. rewrite Ho, Hk. reflexivity.
Qed.

(** *** The calls of a swap *)

Lemma live_price_calls (pool : row) (r1d : option string) (r1a : option N)
    (r2d : option string) (r2a : option N) :
  keeps calls (live_price pool r1d r1a r2d r2a).
Proof.
  unfold live_price.
  apply keeps_bind; [intros w; reflexivity | intros baseExp].
  apply keeps_bind; [intros w; reflexivity | intros quoteExp].
  destruct baseExp, quoteExp; apply keeps_ret.
Qed.

Lemma live_price_positive (pool : row) (r1d : option string) (r1a : option N)
    (r2d : option string) (r2a : option N) (w : world) (price : Q) (quoteExp : Z) :
  (live_price pool r1d r1a r2d r2a w).1 = Ok (Some (price, quoteExp)) ->
  (0 < price)%Q.
Proof.
  unfold live_price.
  do 2 (rewrite bind_run; cbn;
        match goal with
        | |- context [Pools.token_by_id ?d ?i] =>
            destruct (Pools.token_by_id d i); cbn; [|discriminate]
        end).
  match goal with
  | |- context [priceFromReserves ?m ?r] =>
      destruct (priceFromReserves m r) as [[| |x]|]; cbn; try discriminate
  end.
  destruct (Trades.Qltb 0 x) eqn:E; cbn; [|discriminate].
  intros Heq. inversion Heq; subst. now apply Trades.Qltb_lt.
Qed.

(** What a swap on a known pool asks of the collaborators.  It reports
    the reserves first ([upsertPoolState]).  For a pool that is not quoted
    in [uzig] it asks nothing else.  Whatever else it asks is a candle or
    a price of that pool at one positive price: the candle of the minute
    of the block, counting one trade, and the price with
    [is_pair_native = false]. *)
Theorem swap_calls (s : Swap.closure) (w : world) (pool : row) :
  (getPoolCached (Swap.pairContract s) w).1 = Ok (Some pool) ->
  exists tail,
    calls (run_swap s w).2
    = calls w ++
        Collaborators.upsertPoolState (pool_id pool)
          (Pools.PoolWithTokens.base_denom pool) (Pools.PoolWithTokens.quote_denom pool)
          (Swap.res1d s) (Swap.res1a s) (Swap.res2d s) (Swap.res2a s) :: tail /\
    (is_uzig_quote pool = false -> tail = []) /\
    exists price,
      (tail <> [] -> (0 < price)%Q) /\
      Forall (fun c =>
                c = Collaborators.upsertPrice (base_id pool) (pool_id pool) price false \/
                exists volZig,
                  c = Collaborators.upsertOHLCV1m (pool_id pool)
                        (Js.getTime (Swap.timestamp s) / 60000 * 60000)
                        price volZig 1) tail.
Proof.
  intros Hpool. unfold run_swap. rewrite bind_run.
  pose proof (getPoolCached_queue (Swap.pairContract s) w) as _.
  assert (Hc : calls (getPoolCached (Swap.pairContract s) w).2 = calls w).
  { rewrite getPoolCached_run.
    destruct (bool_decide _); [reflexivity|].
    destruct (poolsByContract w !! _); [reflexivity|].
    now destruct (Pools.poolWithTokens _ _).1 as [[r|]|e]. }
  destruct (getPoolCached (Swap.pairContract s) w) as [r w1].
  cbn [fst snd] in Hpool, Hc. subst r.
  rewrite bind_run. cbn [insertTrade]. rewrite bind_run. cbn [call].
  set (w2 := {| DB := _; calls := calls _ ++ [_] |}).
  assert (Hc2 : calls w2 = calls w ++
            [Collaborators.upsertPoolState (pool_id pool)
               (Pools.PoolWithTokens.base_denom pool)
               (Pools.PoolWithTokens.quote_denom pool)
               (Swap.res1d s) (Swap.res1a s) (Swap.res2d s) (Swap.res2a s)])
    by (unfold w2; cbn; now rewrite Hc).
  destruct (is_uzig_quote pool).
  - rewrite bind_run.
    pose proof (live_price_calls pool (Swap.res1d s) (Swap.res1a s)
                  (Swap.res2d s) (Swap.res2a s) w2) as Hlp.
    pose proof (live_price_positive pool (Swap.res1d s) (Swap.res1a s)
                  (Swap.res2d s) (Swap.res2a s) w2) as Hpos.
    destruct (live_price pool _ _ _ _ w2) as [[[[price quoteExp]|]|e] w3];
      cbn [snd fst] in *.
    + rewrite bind_run. cbn [call snd calls]. rewrite Hlp, Hc2.
      rewrite <- !app_assoc. cbn [app].
      eexists. split; [reflexivity|].
      split; [discriminate|]. exists price.
      split; [intros _; now apply (Hpos price quoteExp)|].
      constructor; [right; now eexists|].
      constructor; [now left | constructor].
    + exists []. unfold mret, M_ret. cbn [snd]. rewrite Hlp, Hc2.
      split; [reflexivity|]. split; [discriminate|].
      exists 0%Q. split; [intros H; now contradiction H | constructor].
    + exists []. cbn [snd]. rewrite Hlp, Hc2.
      split; [reflexivity|]. split; [discriminate|].
      exists 0%Q. split; [intros H; now contradiction H | constructor].
  - exists []. unfold mret, M_ret. cbn [snd]. rewrite Hc2.
    split; [reflexivity|]. split; [reflexivity|].
    exists 0%Q. split; [intros H; now contradiction H | constructor].
Qed.

(** *** Token metadata *)

(** The denoms [setTokenMetaFromLCD] has been called for, in order. *)
Definition meta_calls (w : world) : list string :=
  omap (fun c => match c with
                 | Collaborators.setTokenMetaFromLCD denom => Some denom
                 | _ => None
                 end) (calls w).

(** The denoms of the metadata closures among [tasks]. *)
Definition scheduled (tasks : list task) : list string :=
  omap (fun t => match t with meta_task denom => Some denom | _ => None end) tasks.

Definition meta_view (w : world) : gset string * list string :=
  (metaFetched w, meta_calls w).

Lemma query_meta {A : Type} (q : M db A) : keeps meta_view (query q).
Proof. intros w. unfold query. now destruct (q (DB w)). Qed.

Lemma cache_set_meta (pc : string) (p : row) : keeps meta_view (cache_set pc p).
Proof. intros w. reflexivity. Qed.

Lemma insertTrade_meta (t : Trades.trade) : keeps meta_view (insertTrade t).
Proof. intros w. reflexivity. Qed.

Lemma track_meta (label : string) (idx : nat) : keeps meta_view (track label idx).
Proof. intros w. reflexivity. Qed.

Lemma call_meta (c : Collaborators.call) :
  match c with Collaborators.setTokenMetaFromLCD _ => False | _ => True end ->
  keeps meta_view (call c).
Proof.
  intros Hc w. unfold meta_view, meta_calls. cbn.
  rewrite omap_app. destruct c; try contradiction; cbn; now rewrite app_nil_r.
Qed.

Ltac meta_step :=
  match goal with
  | |- keeps meta_view (_ ≫= _) => apply keeps_bind; [|intros ?]
  | |- keeps meta_view (query _) => apply query_meta
  | |- keeps meta_view (cache_set _ _) => apply cache_set_meta
  | |- keeps meta_view (insertTrade _) => apply insertTrade_meta
  | |- keeps meta_view (call _) => apply call_meta; exact I
  | |- keeps meta_view (mret _) => apply keeps_ret
  | |- keeps meta_view get => apply keeps_get
  | |- keeps meta_view (match ?x with _ => _ end) => destruct x
  | |- keeps meta_view (if ?b then _ else _) => destruct b
  end.

Lemma getPoolCached_meta (pc : string) : keeps meta_view (getPoolCached pc).
Proof. unfold getPoolCached. repeat meta_step. Qed.

Lemma live_price_meta (pool : row) (r1d : option string) (r1a : option N)
    (r2d : option string) (r2a : option N) :
  keeps meta_view (live_price pool r1d r1a r2d r2a).
Proof. unfold live_price. repeat meta_step. Qed.

(** Of the closures, only the metadata closure calls
    [setTokenMetaFromLCD], once, and none touches [metaFetched]. *)
Lemma run_task_meta (t : task) (w : world) :
  metaFetched (run_task t w).2 = metaFetched w /\
  meta_calls (run_task t w).2 = meta_calls w ++ scheduled [t].
Proof.
  assert (Hkeep : forall m : M world unit, keeps meta_view m ->
            metaFetched (m w).2 = metaFetched w /\
            meta_calls (m w).2 = meta_calls w ++ []).
  { intros m Hm. specialize (Hm w). unfold meta_view in Hm.
    rewrite app_nil_r. now inversion Hm. }
  destruct t as [a|s|l|denom|pc]; cbn [run_task scheduled omap].
  - apply Hkeep. unfold run_pool. repeat meta_step.
  - apply Hkeep. unfold run_swap. repeat meta_step.
    + apply getPoolCached_meta.
    + apply live_price_meta.
  - apply Hkeep. unfold run_liq. repeat meta_step.
    + apply getPoolCached_meta.
    + apply live_price_meta.
  - split; [reflexivity|]. unfold meta_calls. cbn. now rewrite omap_app.
  - apply Hkeep. unfold run_prefetch. repeat meta_step.
Qed.

Lemma workers_meta (label : string) (idx : nat) (ts : list task) (w : world) :
  metaFetched (workers label idx ts w).2 = metaFetched w /\
  meta_calls (workers label idx ts w).2 = meta_calls w ++ scheduled ts.
Proof.
  revert idx w. induction ts as [|t ts IH]; intros idx w.
  - cbn. now rewrite app_nil_r.
  - cbn [workers].
    destruct (IH (S idx) (run_task t (track label idx w).2).2) as [Hf Hc].
    destruct (run_task_meta t (track label idx w).2) as [Hf1 Hc1].
    rewrite Hf, Hc, Hf1, Hc1. split; [reflexivity|].
    change (scheduled (t :: ts)) with (scheduled ([t] ++ ts)).
    unfold scheduled at 3. rewrite omap_app. fold (scheduled [t]) (scheduled ts).
    now rewrite <- app_assoc.
Qed.

Lemma runWithConcurrency_meta (ts : list task) (limit : nat) (label : string)
    (w : world) :
  (runWithConcurrency ts limit label w).1 = Ok tt /\
  metaFetched (runWithConcurrency ts limit label w).2 = metaFetched w /\
  exists called,
    meta_calls (runWithConcurrency ts limit label w).2 = meta_calls w ++ called /\
    (called = [] \/ called = scheduled ts).
Proof.
  unfold runWithConcurrency.
  destruct (Nat.min limit (length ts) =? 0)%nat.
  - split; [reflexivity|]. split; [reflexivity|]. exists [].
    split; [now rewrite app_nil_r | now left].
  - destruct (workers_meta label 0 ts w) as [Hf Hc].
    split; [|split; [exact Hf|]].
    + clear. generalize 0%nat. revert w.
      induction ts as [|t ts IH]; intros w n; cbn [workers]; [reflexivity|apply IH].
    + exists (scheduled ts). split; [exact Hc | now right].
Qed.

(** What the scan has scheduled so far, against the process [w0] of the
    start of the block: no denom twice, none that had been remembered
    before the block, and each remembered now. *)
Definition scan_inv (w0 : world) (st : scan_state) (w : world) : Prop :=
  meta_calls w = meta_calls w0 /\
  metaFetched w0 ⊆ metaFetched w /\
  scheduled (poolTasks st) = [] /\
  scheduled (tasks st) = [] /\
  NoDup (scheduled (lowPrioTasks st)) /\
  forall denom, denom ∈ scheduled (lowPrioTasks st) ->
                denom ∈ metaFetched w /\ denom ∉ metaFetched w0.

Lemma scheduled_app (l1 l2 : list task) :
  scheduled (l1 ++ l2) = scheduled l1 ++ scheduled l2.
Proof. apply omap_app. Qed.

Lemma rememberMeta_inv (w0 w : world) (denom : string) (low : list task) :
  meta_calls w = meta_calls w0 -> metaFetched w0 ⊆ metaFetched w ->
  NoDup (scheduled low) ->
  (forall d, d ∈ scheduled low -> d ∈ metaFetched w /\ d ∉ metaFetched w0) ->
  exists low' w',
    rememberMeta denom low w = (Ok low', w') /\
    meta_calls w' = meta_calls w0 /\ metaFetched w0 ⊆ metaFetched w' /\
    NoDup (scheduled low') /\
    (forall d, d ∈ scheduled low' -> d ∈ metaFetched w' /\ d ∉ metaFetched w0).
Proof.
  intros Hc Hsub Hnd Hin. unfold rememberMeta.
  unfold mbind at 1, M_bind at 1, get.
  destruct (decide (denom = "")) as [->|Hne].
  { exists low, w. rewrite bool_decide_eq_true_2 by reflexivity. auto. }
  rewrite (bool_decide_eq_false_2 _ Hne). cbn [orb].
  destruct (decide (denom ∈ metaFetched w)) as [Hm|Hm].
  { exists low, w. rewrite bool_decide_eq_true_2 by exact Hm. auto. }
  rewrite (bool_decide_eq_false_2 _ Hm).
  exists (low ++ [meta_task denom]), (meta_add denom w).2.
  split; [reflexivity|]. split; [exact Hc|].
  cbn [meta_add snd metaFetched].
  split; [intros x Hx; apply elem_of_union; right; now apply Hsub|].
  rewrite scheduled_app. cbn [scheduled omap]. split.
  - apply NoDup_app. split; [exact Hnd|]. split; [|apply NoDup_singleton].
    intros x Hx Hx'. apply list_elem_of_singleton in Hx'. subst x.
    now destruct (Hin denom Hx).
  - intros x Hx. apply elem_of_app in Hx as [Hx|Hx].
    + destruct (Hin x Hx) as [Hx1 Hx0].
      split; [apply elem_of_union; now right | exact Hx0].
    + apply list_elem_of_singleton in Hx. subst x.
      split; [apply elem_of_union; left; now apply elem_of_singleton|].
      intros H0. apply Hm. now apply Hsub.
Qed.

Lemma scan_create_pair_inv (w0 : world) (height ts : Z) (tx_hash : option string)
    (wasms insts : list event) (senders : gmap Z string)
    (st : scan_state) (cp : event) (w : world) :
  scan_inv w0 st w ->
  exists st' w',
    scan_create_pair height ts tx_hash wasms insts senders st cp w = (Ok st', w') /\
    scan_inv w0 st' w'.
Proof.
  intros Hinv. pose proof Hinv as (Hc & Hsub & Hp & Ht & Hnd & Hin).
  unfold scan_create_pair.
  destruct (bool_decide _); [now exists st, w|].
  destruct (normalizePair _) as [base quote].
  destruct (Js.truthy _) as [poolAddr|]; [|eexists _, w; split; [reflexivity|exact Hinv]].
  destruct (rememberMeta_inv w0 w base (lowPrioTasks st) Hc Hsub Hnd Hin)
    as (low1 & w1 & Hr1 & Hc1 & Hsub1 & Hnd1 & Hin1).
  destruct (rememberMeta_inv w0 w1 quote low1 Hc1 Hsub1 Hnd1 Hin1)
    as (low2 & w2 & Hr2 & Hc2 & Hsub2 & Hnd2 & Hin2).
  rewrite bind_run, Hr1, bind_run, Hr2.
  eexists _, w2. split; [reflexivity|].
  split; [exact Hc2|]. split; [exact Hsub2|].
  cbn [poolTasks tasks lowPrioTasks]. rewrite scheduled_app, Hp.
  split; [reflexivity|]. split; [exact Ht|]. split; [exact Hnd2 | exact Hin2].
Qed.

Lemma scan_swap_scheduled (cfg : config) (height ts : Z) (tx_hash : option string)
    (executes : list event) (senders : gmap Z string)
    (st : scan_state) (ie : nat * event) :
  let st' := scan_swap cfg height ts tx_hash executes senders st ie in
  poolTasks st' = poolTasks st /\ lowPrioTasks st' = lowPrioTasks st /\
  scheduled (tasks st') = scheduled (tasks st).
Proof.
  destruct ie as [idx s]. unfold scan_swap.
  destruct (Js.truthy (m s !! "_contract_address")); [|auto].
  destruct (fill_from _ _ _) as [[[res1d res1a] res2d] res2a].
  cbn [poolTasks lowPrioTasks tasks]. rewrite scheduled_app.
  cbn. now rewrite app_nil_r.
Qed.

Lemma scan_liq_scheduled (height ts : Z) (tx_hash : option string)
    (senders : gmap Z string) (st : scan_state) (il : nat * event) :
  let st' := scan_liq height ts tx_hash senders st il in
  poolTasks st' = poolTasks st /\ lowPrioTasks st' = lowPrioTasks st /\
  scheduled (tasks st') = scheduled (tasks st).
Proof.
  destruct il as [li le]. unfold scan_liq.
  destruct (Js.truthy (m le !! "_contract_address")); [|auto].
  destruct (fill_from _ _ _) as [[[res1d res1a] res2d] res2a].
  cbn [poolTasks lowPrioTasks tasks]. rewrite scheduled_app.
  cbn. now rewrite app_nil_r.
Qed.

Lemma fold_left_scheduled {A : Type} (f : scan_state -> A -> scan_state)
    (l : list A) (st : scan_state) :
  (forall st a, poolTasks (f st a) = poolTasks st /\
                lowPrioTasks (f st a) = lowPrioTasks st /\
                scheduled (tasks (f st a)) = scheduled (tasks st)) ->
  poolTasks (fold_left f l st) = poolTasks st /\
  lowPrioTasks (fold_left f l st) = lowPrioTasks st /\
  scheduled (tasks (fold_left f l st)) = scheduled (tasks st).
Proof.
  intros Hf. revert st. induction l as [|a l IH]; intros st; cbn; [auto|].
  destruct (IH (f st a)) as (H1 & H2 & H3), (Hf st a) as (H4 & H5 & H6).
  rewrite H1, H2, H3. auto.
Qed.

Lemma fold_each_inv {S A B : Type} (P : B -> S -> Prop) (l : list A)
    (body : B -> A -> M S B) (b : B) (s : S) :
  (forall b a s, P b s -> exists b' s', body b a s = (Ok b', s') /\ P b' s') ->
  P b s ->
  exists b' s', Js.fold_each l body b s = (Ok b', s') /\ P b' s'.
Proof.
  intros Hbody. revert b s. induction l as [|a l IH]; intros b s Hb; cbn.
  - now exists b, s.
  - destruct (Hbody b a s Hb) as (b1 & s1 & Hrun & H1).
    rewrite bind_run, Hrun. now apply IH.
Qed.

Lemma scan_tx_inv (w0 : world) (cfg : config) (height ts : Z)
    (st : scan_state) (tx : list event * option string) (w : world) :
  scan_inv w0 st w ->
  exists st' w', scan_tx cfg height ts st tx w = (Ok st', w') /\ scan_inv w0 st' w'.
Proof.
  intros Hinv. unfold scan_tx. destruct tx as [events tx_hash].
  rewrite bind_run.
  destruct (fold_each_inv (scan_inv w0)
              (wasmByAction (byType events "wasm") "create_pair")
              (scan_create_pair height ts tx_hash (byType events "wasm")
                 (byType events "instantiate")
                 (buildMsgSenderMap (byType events "message"))) st w)
    as (st1 & w1 & Hrun & (Hc & Hsub & Hp & Ht & Hnd & Hin)).
  { intros b a s Hb. now apply scan_create_pair_inv. }
  { exact Hinv. }
  rewrite Hrun.
  set (st2 := fold_left (scan_swap _ _ _ _ _ _) _ st1).
  set (st3 := fold_left (scan_liq _ _ _ _) _ st2).
  destruct (fold_left_scheduled
              (scan_swap cfg height ts tx_hash (byType events "execute")
                 (buildMsgSenderMap (byType events "message")))
              (enumerate (wasmByAction (byType events "wasm") "swap")) st1)
    as (Hp2 & Hl2 & Ht2); [intros; apply scan_swap_scheduled|].
  destruct (fold_left_scheduled
              (scan_liq height ts tx_hash
                 (buildMsgSenderMap (byType events "message")))
              (enumerate (wasmByAction (byType events "wasm") "provide_liquidity"
                          ++ wasmByAction (byType events "wasm") "withdraw_liquidity"))
              st2)
    as (Hp3 & Hl3 & Ht3); [intros; apply scan_liq_scheduled|].
  fold st2 in Hp2, Hl2, Ht2. fold st3 in Hp3, Hl3, Ht3.
  unfold flush.
  destruct (MAX_PENDING_TASKS cfg <=? length (tasks st3))%nat.
  - rewrite bind_run.
    destruct (runWithConcurrency_meta (tasks st3) (BLOCK_PROC_CONCURRENCY cfg)
                "core" w1) as (Hok & Hf & called & Hcalled & Hwhich).
    destruct (runWithConcurrency _ _ _ w1) as [r w2]. cbn [fst snd] in *. subst r.
    eexists _, w2. split; [reflexivity|].
    assert (called = []) as ->
      by (destruct Hwhich as [->| ->]; [reflexivity|]; now rewrite Ht3, Ht2, Ht).
    rewrite app_nil_r in Hcalled.
    unfold scan_inv. cbn [poolTasks tasks lowPrioTasks].
    rewrite Hcalled, Hf, Hp3, Hp2, Hl3, Hl2. repeat split; auto; apply Hin; auto.
  - exists st3, w1. split; [reflexivity|].
    unfold scan_inv. rewrite Hp3, Hp2, Hl3, Hl2, Ht3, Ht2.
    repeat split; auto; apply Hin; auto.
Qed.

(** One of the four phases that follow the scan. *)
Lemma phase_meta (run : bool) (ts : list task) (limit : nat) (label : string)
    (w : world) :
  exists w' called,
    (if run then runWithConcurrency ts limit label else mret tt) w = (Ok tt, w') /\
    metaFetched w' = metaFetched w /\
    meta_calls w' = meta_calls w ++ called /\
    (called = [] \/ called = scheduled ts).
Proof.
  destruct run.
  - destruct (runWithConcurrency_meta ts limit label w)
      as (Hok & Hf & called & Hcalled & Hwhich).
    destruct (runWithConcurrency ts limit label w) as [r w'].
    cbn [fst snd] in *. subst r. now exists w', called.
  - exists w, []. rewrite app_nil_r. auto.
Qed.

(** What a process has asked of [setTokenMetaFromLCD] agrees with what it
    remembers in [metaFetched]. *)
Definition meta_inv (w : world) : Prop :=
  NoDup (meta_calls w) /\ forall denom, denom ∈ meta_calls w -> denom ∈ metaFetched w.

Lemma processHeight_meta_inv (cfg : config) (h : Z)
    (rpc : result (option block * block_results)) (w : world) :
  meta_inv w -> meta_inv (processHeight cfg h rpc w).2.
Proof.
  intros [Hnd Hin]. unfold processHeight.
  destruct rpc as [[blk res]|e]; [|now split].
  destruct (blk ≫= header) as [hd|]; [|now split].
  rewrite bind_run.
  destruct (fold_each_inv (scan_inv w)
              (rows (txs_results res) (sha256hex <$> default [] (txs <$> blk)))
              (scan_tx cfg h (time hd)) scan_start w)
    as (st & w1 & Hrun & (Hc & Hsub & Hp & Ht & Hnd1 & Hin1)).
  { intros b a s Hb. now apply scan_tx_inv. }
  { unfold scan_inv. cbn [scan_start poolTasks tasks lowPrioTasks scheduled omap].
    do 4 (split; [reflexivity|]). split; [constructor|].
    intros x Hx. now apply elem_of_nil in Hx. }
  rewrite Hrun.
  assert (Hprefetch : scheduled (prefetch_task <$> prefetchSet st) = []).
  { induction (prefetchSet st) as [|pc l IH]; [reflexivity | exact IH]. }
  destruct (phase_meta (0 <? length (poolTasks st))%nat (poolTasks st)
              (BLOCK_PROC_CONCURRENCY cfg) "pools" w1)
    as (w2 & c2 & Hr2 & Hf2 & Hc2 & Hw2).
  rewrite bind_run, Hr2.
  destruct (phase_meta (0 <? length (prefetchSet st))%nat
              (prefetch_task <$> prefetchSet st)
              (Nat.min (BLOCK_PROC_CONCURRENCY cfg) 24) "prefetch" w2)
    as (w3 & c3 & Hr3 & Hf3 & Hc3 & Hw3).
  rewrite bind_run, Hr3.
  destruct (phase_meta (0 <? length (tasks st))%nat (tasks st)
              (BLOCK_PROC_CONCURRENCY cfg) "core" w3)
    as (w4 & c4 & Hr4 & Hf4 & Hc4 & Hw4).
  rewrite bind_run, Hr4.
  destruct (phase_meta (0 <? length (lowPrioTasks st))%nat (lowPrioTasks st)
              (Nat.min 4 (BLOCK_PROC_CONCURRENCY cfg)) "meta" w4)
    as (w5 & called & Hr5 & Hf5 & Hc5 & Hw5).
  rewrite Hr5. cbn [snd].
  assert (c2 = []) as -> by (destruct Hw2 as [->| ->]; [reflexivity | exact Hp]).
  assert (c3 = []) as -> by (destruct Hw3 as [->| ->]; [reflexivity | exact Hprefetch]).
  assert (c4 = []) as -> by (destruct Hw4 as [->| ->]; [reflexivity | exact Ht]).
  rewrite app_nil_r in Hc2, Hc3, Hc4.
  unfold meta_inv. rewrite Hf5, Hc5, Hf4, Hc4, Hf3, Hc3, Hf2, Hc2, Hc.
  assert (Hcalled : NoDup called /\
            forall x, x ∈ called -> x ∈ metaFetched w1 /\ x ∉ metaFetched w).
  { destruct Hw5 as [->| ->]; [|now split].
    split; [constructor|]. intros x Hx. now apply elem_of_nil in Hx. }
  destruct Hcalled as [Hndc Hinc]. split.
  - apply NoDup_app. split; [exact Hnd|]. split; [|exact Hndc].
    intros x Hx Hx'. destruct (Hinc x Hx') as [_ Hfresh]. apply Hfresh, Hin, Hx.
  - intros x Hx. apply elem_of_app in Hx as [Hx|Hx].
    + apply Hsub, Hin, Hx.
    + now destruct (Hinc x Hx).
Qed.

(** The process from its start: the caches of the module empty, nothing
    called yet. *)
Definition started (d : db) : world :=
  {| DB := d; poolsByContract := ∅; metaFetched := ∅; tradesQueue := [];
     calls := []; tracked := [] |}.

(** The heights a process handles, one after the other, each with what
    its RPC calls gave. *)
Definition processHeights (cfg : config)
    (blocks : list (Z * result (option block * block_results))) (w : world) : world :=
  fold_left (fun w b => (processHeight cfg b.1 b.2 w).2) blocks w.


End tasks.

(** *** An instance of the imported helpers, for the runs below *)

Definition digit_of (c : ascii) : option N :=
  let n := N_of_ascii c in
  if (48 <=? n)%N && (n <=? 57)%N then Some (n - 48)%N else None.

Fixpoint digits_from (s : string) (acc : N) : option N :=
  match s with
  | EmptyString => Some acc
  | String c s' =>
      match digit_of c with
      | Some d => digits_from s' (acc * 10 + d)%N
      | None => None
      end
  end.

(** Modelled from the spec: [digitsOrNull] of core/parse.js, "accept only
    strings of ASCII digits; else [null]". *)
Definition sample_digitsOrNull (s : option string) : option N :=
  match s with
  | Some (String c s') => digits_from (String c s') 0
  | _ => None
  end.

Fixpoint split_at (sep : ascii) (s : string) : option (string * string) :=
  match s with
  | EmptyString => None
  | String c s' =>
      if bool_decide (c = sep) then Some (EmptyString, s')
      else (fun ab => (String c ab.1, ab.2)) <$> split_at sep s'
  end.

(** Modelled from the spec: [normalizePair] of core/parse.js on the
    format ["<denomA>-<denomB>"], "if one side is the native quote
    [uzig], it is quote"; otherwise the right-hand side is taken. *)
Definition sample_normalizePair (pair : option string) : string * string :=
  match pair ≫= split_at "-" with
  | Some (a, b) => if bool_decide (a = "uzig") then (b, a) else (a, b)
  | None => ("", "")
  end.

Definition sample_Number (s : string) : Z :=
  match digits_from s 0 with
  | Some n => Z.of_N n
  | None => 0
  end.

(** Modelled from the spec: [byType], [wasmByAction] ("all [wasm] events
    whose [action] attribute equals [action], preserving order"),
    [buildMsgSenderMap] ("maps [msg_index] to [sender]") and the two
    tolerant parsers at their "missing legs are returned as [null]";
    [classifyDirection] at its first rule, "[buy] if offer denom ==
    pool.quote_denom", and ['sell'] otherwise.  [sha256hex] hands the
    transaction on as it is. *)
#[local] Instance sample_parse : ParseJs :=
  {| byType := fun events t => filter (fun e => type e = t) events;
     wasmByAction := fun events a =>
       filter (fun e => type e = "wasm" /\ m e !! "action" = Some a) events;
     buildMsgSenderMap := fun msgs =>
       fold_left
         (fun acc e =>
            match m e !! "msg_index", m e !! "sender" with
            | Some i, Some sender => <[sample_Number i := sender]> acc
            | _, _ => acc
            end)
         msgs ∅;
     normalizePair := sample_normalizePair;
     classifyDirection := fun offer quote =>
       if bool_decide (offer = Some quote) then Trades.buy else Trades.sell;
     digitsOrNull := sample_digitsOrNull;
     parseReservesKV := fun _ => (None, None);
     parseAssetsList := fun _ => (None, None);
     sha256hex := fun tx => tx |}.

#[local] Instance sample_builtins : Builtins :=
  {| NumberOfString := sample_Number; trim := fun s => s |}.

Definition reserve_of (d : string) (reserves : list (option string * option N))
  : option N :=
  find (fun r => bool_decide (r.1 = Some d)) reserves ≫= snd.

(** Modelled from the spec: [priceFromReserves] of core/prices.js,
    "[quote_display / base_display] where display is
    [amount_base / 10^exp], matching legs by denom; [null] if matching
    fails or either reserve is zero". *)
#[local] Instance sample_prices : PricesJs :=
  {| priceFromReserves := fun meta reserves =>
       match reserve_of (base_denom meta) reserves,
             reserve_of (quote_denom meta) reserves with
       | Some rb, Some rq =>
           if bool_decide (rb = 0%N) || bool_decide (rq = 0%N) then None
           else Some (Js.Finite
                        ((inject_Z (Z.of_N rq) / inject_Z 10 ^ quote_exp meta)
                         / (inject_Z (Z.of_N rb) / inject_Z 10 ^ base_exp meta))%Q)
       | _, _ => None
       end |}.

Definition attrs (l : list (string * string)) : gmap string string :=
  list_to_map l.

(** Scenario S1: one transaction that creates pool [zig1pool]
    ([factory/X] against [uzig]) and swaps a million [uzig] for 250000
    of the base token. *)
Definition create_pair_event : event :=
  {| type := "wasm";
     m := attrs [("_contract_address", "zig1factory"); ("action", "create_pair");
                 ("pair", "factory/X-uzig"); ("pair_type", "xyk");
                 ("msg_index", "0")] |}.

Definition register_event : event :=
  {| type := "wasm";
     m := attrs [("_contract_address", "zig1factory"); ("action", "register");
                 ("pair_contract_addr", "zig1pool")] |}.

Definition swap_event : event :=
  {| type := "wasm";
     m := attrs [("_contract_address", "zig1pool"); ("action", "swap");
                 ("offer_asset", "uzig"); ("ask_asset", "factory/X");
                 ("offer_amount", "1000000"); ("return_amount", "250000");
                 ("reserve_asset1_denom", "uzig");
                 ("reserve_asset1_amount", "1000000");
                 ("reserve_asset2_denom", "factory/X");
                 ("reserve_asset2_amount", "250000");
                 ("msg_index", "0")] |}.

Definition message_event : event :=
  {| type := "message";
     m := attrs [("msg_index", "0"); ("sender", "zig1alice")] |}.

Definition block_of (events : list event) : result (option block * block_results) :=
  Ok (Some {| header := Some {| time := 1700000000123456 |}; txs := ["AB12"] |},
      {| txs_results := [events] |}).

Definition S1 : result (option block * block_results) :=
  block_of [message_event; create_pair_event; register_event; swap_event].

(** A database that knows the factory and the native token, with the
    watermark at height 99. *)
Definition db0 : db :=
  {| chain_catalogue := {[ 1 ]};
     dex_catalogue :=
       [{| dex_id := 1; dex_name := "OroSwap";
           dex_factory_contract := "zig1factory"; dex_chain_id := Some 1 |}];
     dex_catalogue_seq := 2;
     tokens := <["uzig" := {| token_id := 1; token_type := "native"; exponent := 6 |}]> ∅;
     tokens_seq := 2;
     token_holders_stats := ∅;
     pools := ∅;
     pools_seq := 1;
     trades := [];
     index_state := <["core" := 99]> ∅ |}.

Definition world0 : world :=
  {| DB := db0; poolsByContract := ∅; metaFetched := ∅; tradesQueue := [];
     calls := []; tracked := [] |}.

Definition S1_trade : Trades.trade :=
  {| Trades.pool_id := 1; Trades.pair_contract := "zig1pool";
     Trades.action := Trades.swap; Trades.direction := Trades.buy;
     Trades.offer_asset_denom := Some "uzig";
     Trades.offer_amount_base := Some 1000000%N;
     Trades.ask_asset_denom := Some "factory/X";
     Trades.ask_amount_base := None;
     Trades.return_amount_base := Some 250000%N;
     Trades.is_router := false;
     Trades.reserve_asset1_denom := Some "uzig";
     Trades.reserve_asset1_amount_base := Some 1000000%N;
     Trades.reserve_asset2_denom := Some "factory/X";
     Trades.reserve_asset2_amount_base := Some 250000%N;
     Trades.height := 100; Trades.tx_hash := Some "AB12";
     Trades.signer := Some "zig1alice"; Trades.msg_index := 0;
     Trades.created_at := 1700000000123456;
     Trades.class := Some Trades.shrimp |}.

Example processHeight_S1 :
  let r := processHeight default_config 100 S1 world0 in
  r.1 = Ok tt /\
  tracked r.2 = [("pools", 0%nat); ("prefetch", 0%nat); ("core", 0%nat);
                 ("meta", 0%nat); ("meta", 1%nat)] /\
  tradesQueue r.2 = [S1_trade] /\
  Trades.flushFn (tradesQueue r.2) [] = [S1_trade].
Proof. vm_compute. repeat split. Qed.

Example processHeight_S1_calls :
  exists price vol,
    calls (processHeight default_config 100 S1 world0).2 =
      [Collaborators.pgNotify "pair_created"
         {| Collaborators.pool_id := 1; Collaborators.pair_contract := "zig1pool";
            Collaborators.base_denom := "factory/X";
            Collaborators.quote_denom := "uzig";
            Collaborators.base_token_id := 2; Collaborators.quote_token_id := 1;
            Collaborators.is_uzig_quote := true |};
       Collaborators.upsertPoolState 1 "factory/X" "uzig" (Some "uzig")
         (Some 1000000%N) (Some "factory/X") (Some 250000%N);
       Collaborators.upsertOHLCV1m 1 1699999980000 price vol 1;
       Collaborators.upsertPrice 2 1 price false;
       Collaborators.setTokenMetaFromLCD "factory/X";
       Collaborators.setTokenMetaFromLCD "uzig"] /\
    (price == 4)%Q /\ (vol == 1)%Q.
Proof. eexists _, _. vm_compute. repeat split. Qed.

(** C2, as the spec words it, on scenario S1 at height 100: the call
    completes, and no row of [index_state] holds 100; the row that was
    there still holds 99. *)
Lemma processHeight_S1_leaves_last_height :
  (processHeight default_config 100 S1 world0).1 = Ok tt /\
  index_state (DB (processHeight default_config 100 S1 world0).2) !! "core"
  = Some 99 /\
  100 ∉ (map_to_list
           (index_state (DB (processHeight default_config 100 S1 world0).2))).*2.
Proof.
  repeat split; [vm_compute; reflexivity..|].
  vm_compute. intros Hin. apply list_elem_of_In in Hin. simpl in Hin. destruct Hin as [Hin|[]].
  discriminate.
Qed.

(** *** Backpressure *)

(** Scenario S1 with [BLOCK_PROC_MAX_TASKS=1]: the swap task is flushed
    at the end of its transaction, before the pool task of the same
    transaction has run, finds no pool and enqueues nothing. *)
Example processHeight_S1_max_tasks_1 :
  let cfg := {| BLOCK_PROC_CONCURRENCY := 12; MAX_PENDING_TASKS := 1;
                ROUTER_ADDR := None |} in
  let r := processHeight cfg 100 S1 world0 in
  r.1 = Ok tt /\
  tracked r.2 = [("core", 0%nat); ("pools", 0%nat); ("prefetch", 0%nat);
                 ("meta", 0%nat); ("meta", 1%nat)] /\
  tradesQueue r.2 = [] /\
  is_Some (pools (DB r.2) !! "zig1pool").
Proof. vm_compute. repeat split. now eexists. Qed.

(** The transaction of S1 with five thousand swaps on the new pool. *)
Definition S1_busy : result (option block * block_results) :=
  block_of ([message_event; create_pair_event; register_event]
            ++ repeat swap_event 5000).

(** C3 on [S1_busy], with the default knobs: the scan reaches
    [MAX_PENDING_TASKS] pending tasks at the end of the transaction and
    runs them under the label ['core'] while the pool task of the same
    transaction is still waiting in [poolTasks].  All five thousand
    Phase-2 tasks run before the Phase-1 task; each finds no pool, and no
    trade is enqueued. *)
Theorem backpressure_runs_core_before_pools :
  let r := processHeight default_config 100 S1_busy world0 in
  r.1 = Ok tt /\
  tracked r.2
  = ((fun i => ("core", i)) <$> seq 0 5000)
    ++ [("pools", 0%nat); ("prefetch", 0%nat); ("meta", 0%nat); ("meta", 1%nat)] /\
  tradesQueue r.2 = [] /\
  is_Some (pools (DB r.2) !! "zig1pool").
Proof.
  vm_compute. repeat split. now eexists.
Qed.

(** *** Direction *)

(** The rule of the spec: ['buy'] if the offer denom is the pool's quote,
    ['sell'] if it is the pool's base, else by the ask denom (base gives
    ['buy'], quote gives ['sell']). *)
Definition claimed_direction (offer ask : option string) (base quote : string)
    (d : Trades.trade_direction) : Prop :=
  (offer = Some quote -> d = Trades.buy) /\
  (offer <> Some quote -> offer = Some base -> d = Trades.sell) /\
  (offer <> Some quote -> offer <> Some base -> ask = Some base ->
   d = Trades.buy) /\
  (offer <> Some quote -> offer <> Some base -> ask <> Some base ->
   ask = Some quote -> d = Trades.sell).

(** The pool of S1 as [poolWithTokens] returns it, cached. *)
Definition pool1 : row :=
  {| pool_id := 1; is_uzig_quote := true; base_id := 2;
     Pools.PoolWithTokens.base_denom := "factory/X"; Pools.PoolWithTokens.base_exp := 6;
     quote_id := 1; Pools.PoolWithTokens.quote_denom := "uzig";
     Pools.PoolWithTokens.quote_exp := 6 |}.

Definition world1 : world :=
  {| DB := db0; poolsByContract := <["zig1pool" := pool1]> ∅; metaFetched := ∅;
     tradesQueue := []; calls := []; tracked := [] |}.

(** A swap on [zig1pool] whose event carries no offer denom. *)
Definition swap_asking (ask : string) : Swap.closure :=
  {| Swap.pairContract := "zig1pool"; Swap.offer := None; Swap.ask := Some ask;
     Swap.offerAmt := None; Swap.askAmt := None; Swap.retAmt := Some 5%N;
     Swap.res1d := None; Swap.res1a := None; Swap.res2d := None; Swap.res2a := None;
     Swap.msgIndex := 0; Swap.signerEOA := None; Swap.isRouter := false;
     Swap.h := 100; Swap.tx_hash := Some "AB12"; Swap.timestamp := 1700000000123456 |}.


(** *** The closures on the pool of S1 *)

(** The swap of S1 as the scan captures it. *)
Definition swap1 : Swap.closure :=
  {| Swap.pairContract := "zig1pool"; Swap.offer := Some "uzig";
     Swap.ask := Some "factory/X";
     Swap.offerAmt := Some 1000000%N; Swap.askAmt := None;
     Swap.retAmt := Some 250000%N;
     Swap.res1d := Some "uzig"; Swap.res1a := Some 1000000%N;
     Swap.res2d := Some "factory/X"; Swap.res2a := Some 250000%N;
     Swap.msgIndex := 0; Swap.signerEOA := Some "zig1alice"; Swap.isRouter := false;
     Swap.h := 100; Swap.tx_hash := Some "AB12"; Swap.timestamp := 1700000000123456 |}.


(** A deposit into the pool of S1. *)
Definition provide1 : Liq.closure :=
  {| Liq.pairContract := "zig1pool"; Liq.action := Trades.provide;
     Liq.res1d := Some "uzig"; Liq.res1a := Some 2000000%N;
     Liq.res2d := Some "factory/X"; Liq.res2a := Some 500000%N;
     Liq.shareBase := Some 1000000%N;
     Liq.msgIndex := 0; Liq.signerEOA := Some "zig1alice";
     Liq.h := 101; Liq.tx_hash := Some "CD34"; Liq.timestamp := 1700000006000000 |}.

(** [world1] has the pool in its cache and none in its database. *)
Lemma getPoolCached_caches_found_pools_world1 :
  pools (DB world1) !! "zig1pool" = None /\
  getPoolCached "zig1pool" world1 = (Ok (Some pool1), world1) /\
  getPoolCached "zig1pool" (with_DB world1 Pools.sample_db)
  = (Ok (Some pool1), with_DB world1 Pools.sample_db).
Proof.
  assert (Hrun : getPoolCached "zig1pool" world1 = (Ok (Some pool1), world1))
    by (vm_compute; reflexivity).
  split; [vm_compute; reflexivity|]. split; [exact Hrun|].
  destruct (getPoolCached_caches_found_pools "zig1pool" world1 world1
              (Some pool1) Hrun) as (_ & _ & _ & _ & _ & Hstays).
  apply Hstays.
Defined.

Lemma task_without_pool_is_dropped_world0 :
  run_task (swap_task swap1) world0 = (Ok tt, world0) /\
  run_task (liq_task provide1) world0 = (Ok tt, world0).
Proof.
  split.
  - apply (task_without_pool_is_dropped (swap_task swap1) "zig1pool" world0);
      vm_compute; reflexivity.
  - apply (task_without_pool_is_dropped (liq_task provide1) "zig1pool" world0);
      vm_compute; reflexivity.
Defined.

Lemma liquidity_row_has_no_class_provide1 :
  exists t,
    tradesQueue (run_liq provide1 world1).2 = [t] /\
    Trades.direction t = Trades.dir_provide /\
    Trades.return_amount_base t = Some 1000000%N /\
    Trades.class t = None.
Proof.
  destruct (liquidity_row_has_no_class provide1 world1 pool1)
    as (t & Hq & _ & _ & Hd & _ & _ & _ & _ & _ & Hr & _ & Hclass);
    [vm_compute; reflexivity|].
  exists t. split; [exact Hq|]. split; [now apply Hd|]. split; [exact Hr | exact Hclass].
Defined.

Lemma swap_calls_swap1 :
  exists tail,
    calls (run_swap swap1 (with_DB world1 Pools.sample_db)).2
    = Collaborators.upsertPoolState 1 "factory/X" "uzig" (Some "uzig")
        (Some 1000000%N) (Some "factory/X") (Some 250000%N) :: tail /\
    length tail = 2%nat.
Proof.
  destruct (swap_calls swap1 (with_DB world1 Pools.sample_db) pool1)
    as (tail & Hcalls & _); [vm_compute; reflexivity|].
  exists tail. split; [exact Hcalls|].
  assert (Hlen : length (calls (run_swap swap1 (with_DB world1 Pools.sample_db)).2)
                 = 3%nat) by (vm_compute; reflexivity).
  rewrite Hcalls in Hlen. cbn in Hlen. lia.
Defined.

(** Scenario S1 handled twice by one process: the second run schedules
    no metadata call. *)
Example metadata_S1_twice :
  meta_calls (processHeights default_config [(100, S1); (100, S1)] world0)
  = ["factory/X"; "uzig"].
Proof. vm_compute. reflexivity. Qed.

End BlockProcessor.

(** * jobs/fasttrack-listener.js *)
Module Fasttrack.
Import Schema.

(** The fields of a [pair_created] payload the listener reads. *)
Record payload := {
  payload_pool_id : option Z;
  payload_pair_contract : option string
}.

(** The row [loadPoolContext] selects. *)
Record ctx := {
  pool_id : Z;
  pair_contract : string;
  is_uzig_quote : bool;
  created_at : option Z;
  base_token_id : Z;
  base_denom : string;
  quote_token_id : Z;
  quote_denom : string
}.

(** The process: the database the listener reads and the calls it has
    made to the jobs and helpers outside the sources. *)
Record world := {
  DB : db;
  calls : list Collaborators.call
}.

(** [await DB.query(...)] of a [SELECT]; the database answers. *)
Definition query {A : Type} (q : db -> A) : M world A := fun w => (Ok (q (DB w)), w).

Definition context_of (d : db) (p : pool_row) : option ctx :=
  b ← Pools.token_by_id d (Schema.base_token_id p);
  q ← Pools.token_by_id d (Schema.quote_token_id p);
  Some {| pool_id := Schema.pool_id p;
          pair_contract := Schema.pair_contract p;
          is_uzig_quote := Schema.is_uzig_quote p;
          created_at := Schema.created_at p;
          base_token_id := Schema.base_token_id p; base_denom := b.1;
          quote_token_id := Schema.quote_token_id p; quote_denom := q.1 |}.

(** [loadPoolContext(payload)]: by [pool_id] when the payload has a
    truthy one, else by [pair_contract], else [null]. *)
Definition loadPoolContext (payload : option payload) (d : db) : option ctx :=
  payload ← payload;
  match Pools.truthy_id (payload_pool_id payload) with
  | Some id =>
      kv ← find (fun kv => bool_decide (Schema.pool_id kv.2 = id))
             (map_to_list (pools d));
      context_of d kv.2
  | None =>
      pc ← Js.truthy (payload_pair_contract payload);
      p ← pools d !! pc;
      context_of d p
  end.

(** [holdersCount(tokenId)]: [Number(rows?.[0]?.c || 0)]. *)
Definition holdersCount (tokenId : Z) (d : db) : Z :=
  default 0 (token_holders_stats d !! tokenId).

(** [minuteFloor(d)]: [setSeconds(0, 0)] clears the seconds and
    milliseconds of the local time of [d].  [tzMinutes] is the offset of
    the local zone from UTC, in minutes; [new Date(null)] is the epoch.
    The result is in milliseconds since the epoch. *)
Definition minuteFloor (tzMinutes : Z) (d : option Z) : Z :=
  let t := match d with Some d => Js.getTime d | None => 0 end in
  let local := t + tzMinutes * 60000 in
  local - local mod 60000 - tzMinutes * 60000.

(** What the listener imports from core/prices.js and what the awaited
    collaborators answer.  [returns log c] tells whether the call [c],
    made after the calls [log], returns or throws; [fetched pair] is
    what [fetchPoolReserves(pair)] resolves to when it returns. *)
Class Imports := {
  reserves : Type;
  priceFromReserves_UZIGQuote : string -> Z -> reserves -> option Js.number;
  returns : list Collaborators.call -> Collaborators.call -> bool;
  fetched : string -> reserves
}.

Section listener.
Context {imports : Imports}.
Variable tzMinutes : Z.

Definition record (c : Collaborators.call) : M world unit := fun w =>
  (Ok tt, {| DB := DB w; calls := calls w ++ [c] |}).

(** [await c(...)]: the call is made; if it throws, so does the [await]. *)
Definition await (c : Collaborators.call) : M world unit := fun w =>
  ((if returns (calls w) c then Ok tt else Throw "rejected"),
   {| DB := DB w; calls := calls w ++ [c] |}).

(** [await Promise.allSettled([...])]: every call is made, and none of
    their rejections is thrown. *)
Definition allSettled (cs : list Collaborators.call) : M world unit :=
  Js.for_each cs record.

(** [try { body } catch (e) { warn(...) }]. *)
Definition try_catch (body : M world unit) : M world unit := fun w =>
  (Ok tt, (body w).2).

Definition when (b : bool) (m : M world unit) : M world unit :=
  if b then m else mret tt.

(** [await fetchPoolReserves(pair)]. *)
Definition await_fetchPoolReserves (pair : string) : M world reserves := fun w =>
  ((if returns (calls w) (Collaborators.fetchPoolReserves pair)
    then Ok (fetched pair) else Throw "rejected"),
   {| DB := DB w; calls := calls w ++ [Collaborators.fetchPoolReserves pair] |}).

(** Steps 2 to 5: metadata, holders (with one retry at a zero count),
    security scan, matrix rollups. *)
Definition enrich (c : ctx) : M world unit :=
  let non_uzig := negb (bool_decide (quote_denom c = "uzig")) in
  _ ← allSettled [Collaborators.refreshMetaOnce (base_denom c);
                  Collaborators.refreshMetaOnce (quote_denom c)];
  _ ← allSettled
        (Collaborators.refreshHoldersOnce (base_token_id c) (base_denom c)
         :: if non_uzig
            then [Collaborators.refreshHoldersOnce (quote_token_id c) (quote_denom c)]
            else []);
  baseHC ← query (holdersCount (base_token_id c));
  quoteHC ← (if non_uzig then query (holdersCount (quote_token_id c))
             else mret 0);
  _ ← when (bool_decide (baseHC = 0))
        (await (Collaborators.refreshHoldersOnce (base_token_id c) (base_denom c)));
  _ ← when (non_uzig && bool_decide (quoteHC = 0))
        (await (Collaborators.refreshHoldersOnce (quote_token_id c) (quote_denom c)));
  _ ← allSettled
        (Collaborators.scanTokenOnce (base_token_id c) (base_denom c)
         :: if non_uzig
            then [Collaborators.scanTokenOnce (quote_token_id c) (quote_denom c)]
            else []);
  allSettled
    (Collaborators.refreshPoolMatrixOnce (pool_id c)
     :: Collaborators.refreshTokenMatrixOnce (base_token_id c)
     :: if non_uzig
        then [Collaborators.refreshTokenMatrixOnce (quote_token_id c)]
        else []).

(** [SELECT exponent AS exp FROM tokens WHERE token_id = $1], read as
    [rExp?.[0]?.exp]. *)
Definition select_exp (id : Z) (d : db) : option Z :=
  (fun kv => exponent kv.2) <$> Pools.token_by_id d id.

(** Step 6: the seed of price and OHLCV, for a [uzig] quote only. *)
Definition seed (c : ctx) : M world unit :=
  when (bool_decide (quote_denom c = "uzig"))
    (baseExp ← query (select_exp (base_token_id c));
     match baseExp with
     | None => mret tt
     | Some baseExp =>
         reserves ← await_fetchPoolReserves (pair_contract c);
         match Js.finite_positive
                 (priceFromReserves_UZIGQuote (base_denom c) baseExp reserves) with
         | Some price =>
             _ ← await (Collaborators.upsertPrice (base_token_id c) (pool_id c)
                          price true);
             let bucket := minuteFloor tzMinutes (created_at c) in
             await (Collaborators.upsertOHLCV1m (pool_id c) bucket price 0 0)
         | None => mret tt
         end
     end).

(** The handler [startFasttrackListener] registers for [pair_created]. *)
Definition on_pair_created (payload : option payload) : M world unit :=
  try_catch
    (ctx ← query (loadPoolContext payload);
     match ctx with
     | None => mret tt
     | Some c =>
         _ ← enrich c;
         try_catch (seed c)
     end).

(** *** What the handler emits *)

Definition is_upsertPrice (c : Collaborators.call) : bool :=
  match c with
  | Collaborators.upsertPrice _ _ _ _ => true
  | _ => false
  end.

Definition is_upsertOHLCV1m (c : Collaborators.call) : bool :=
  match c with
  | Collaborators.upsertOHLCV1m _ _ _ _ _ => true
  | _ => false
  end.

Definition no_seed_call (c : Collaborators.call) : Prop :=
  is_upsertPrice c = false /\ is_upsertOHLCV1m c = false.

(** [logs m]: [m] reads the database, appends calls that are not seed
    calls to the log, and changes nothing else. *)
Definition logs {A : Type} (m : M world A) : Prop :=
  forall w, DB (m w).2 = DB w /\
            exists cs, calls (m w).2 = calls w ++ cs /\ Forall no_seed_call cs.

Lemma logs_ret {A : Type} (a : A) : logs (mret a : M world A).
Proof.
  intros w. split; [reflexivity|]. exists []. split; [|constructor].
  simpl. now rewrite app_nil_r.
Qed.

Lemma logs_bind {A B : Type} (m : M world A) (k : A -> M world B) :
  logs m -> (forall a, logs (k a)) -> logs (m ≫= k).
Proof.
  intros Hm Hk w. unfold mbind, M_bind.
  destruct (Hm w) as (Hd & cs & Hc & Hcs).
  destruct (m w) as [[a|e] w1]; simpl in *.
  - destruct (Hk a w1) as (Hd' & cs' & Hc' & Hcs').
    split; [congruence|]. exists (cs ++ cs'). split.
    + rewrite Hc', Hc. now rewrite app_assoc.
    + now apply Forall_app.
  - split; [exact Hd|]. now exists cs.
Qed.

Lemma logs_query {A : Type} (q : db -> A) : logs (query q).
Proof.
  intros w. split; [reflexivity|]. exists []. split; [|constructor].
  simpl. now rewrite app_nil_r.
Qed.

Lemma logs_record (c : Collaborators.call) : no_seed_call c -> logs (record c).
Proof.
  intros Hc w. split; [reflexivity|]. exists [c]. split; [reflexivity|].
  now constructor.
Qed.

Lemma logs_await (c : Collaborators.call) : no_seed_call c -> logs (await c).
Proof.
  intros Hc w. split; [reflexivity|]. exists [c]. split; [reflexivity|].
  now constructor.
Qed.

Lemma logs_allSettled (cs : list Collaborators.call) :
  Forall no_seed_call cs -> logs (allSettled cs).
Proof.
  unfold allSettled. induction 1 as [|c cs Hc _ IH]; simpl.
  - apply logs_ret.
  - apply logs_bind; [now apply logs_record | intros _; exact IH].
Qed.

Lemma logs_when (b : bool) (m : M world unit) : logs m -> logs (when b m).
Proof. destruct b; [trivial | intros _; apply logs_ret]. Qed.

Lemma enrich_logs (c : ctx) : logs (enrich c).
Proof.
  unfold enrich.
  repeat first
    [ apply logs_bind; [|intros ?]
    | apply logs_allSettled
    | apply logs_when
    | apply logs_await
    | apply logs_query
    | apply logs_ret
    | match goal with |- logs (if ?b then _ else _) => destruct b end
    | match goal with |- Forall _ (if ?b then _ else _) => destruct b end
    | match goal with |- Forall _ _ => repeat constructor end
    | match goal with |- no_seed_call _ => split; reflexivity end ].
Qed.

Lemma minuteFloor_utc (t : Z) :
  minuteFloor tzMinutes (Some t) = Js.getTime t / 60000 * 60000.
Proof.
  unfold minuteFloor.
  rewrite Z.mod_eq by lia. rewrite Z.div_add by lia. lia.
Qed.

Lemma minuteFloor_null : minuteFloor tzMinutes None = 0.
Proof.
  unfold minuteFloor. rewrite Z.add_0_l, Z.mod_mul by lia. lia.
Qed.

Lemma filter_no_seed_call (cs : list Collaborators.call) :
  Forall no_seed_call cs ->
  List.filter is_upsertPrice cs = [] /\ List.filter is_upsertOHLCV1m cs = [].
Proof.
  induction 1 as [|c cs [Hp Ho] _ [IHp IHo]]; simpl; [auto|].
  now rewrite Hp, Ho.
Qed.

(** [returns_all]: no awaited call throws. *)
Definition returns_all : Prop := forall log c, returns log c = true.

Lemma bind_returns {A B : Type} (m : M world A) (k : A -> M world B) :
  (forall w, exists a, (m w).1 = Ok a) ->
  (forall a w, exists b, (k a w).1 = Ok b) ->
  forall w, exists b, ((m ≫= k) w).1 = Ok b.
Proof.
  intros Hm Hk w. unfold mbind, M_bind.
  destruct (Hm w) as [a Ha]. destruct (m w) as [r w1]. simpl in Ha. subst r.
  apply Hk.
Qed.

Lemma allSettled_returns (cs : list Collaborators.call) (w : world) :
  exists u, (allSettled cs w).1 = Ok u.
Proof.
  revert w. unfold allSettled. induction cs as [|c cs IH]; intros w; simpl.
  - now exists tt.
  - apply bind_returns; [intros w'; now exists tt | intros _ w'; apply IH].
Qed.

Lemma await_returns (c : Collaborators.call) (w : world) :
  returns_all -> exists u, (await c w).1 = Ok u.
Proof. intros Hr. unfold await. simpl. rewrite Hr. now exists tt. Qed.

Lemma enrich_returns (c : ctx) (w : world) :
  returns_all -> exists u, (enrich c w).1 = Ok u.
Proof.
  intros Hr. revert w. unfold enrich.
  repeat first
    [ apply bind_returns; [|intros ?]
    | intros w; apply allSettled_returns
    | intros w; now apply await_returns
    | intros w; now eexists
    | match goal with |- forall w, exists _, ((if ?b then _ else _) w).1 = _ =>
        destruct b end
    | match goal with |- forall w, exists _, (when ?b _ w).1 = _ =>
        destruct b; simpl end ].
Qed.

Lemma seed_other_quote (c : ctx) (w : world) :
  quote_denom c <> "uzig" -> seed c w = (Ok tt, w).
Proof. intros Hq. unfold seed. now rewrite bool_decide_eq_false_2. Qed.

Lemma seed_uzig_quote (c : ctx) (w : world) (baseExp : Z) (price : Q) :
  returns_all ->
  quote_denom c = "uzig" ->
  select_exp (base_token_id c) (DB w) = Some baseExp ->
  Js.finite_positive
    (priceFromReserves_UZIGQuote (base_denom c) baseExp (fetched (pair_contract c)))
  = Some price ->
  calls (seed c w).2
  = calls w ++
    [Collaborators.fetchPoolReserves (pair_contract c);
     Collaborators.upsertPrice (base_token_id c) (pool_id c) price true;
     Collaborators.upsertOHLCV1m (pool_id c)
       (minuteFloor tzMinutes (created_at c)) price 0 0].
Proof.
  intros Hr Hq Hexp Hprice. unfold seed.
  rewrite bool_decide_eq_true_2 by assumption. simpl.
  unfold mbind, M_bind, query, await_fetchPoolReserves, await. simpl.
  rewrite Hexp, Hr, Hprice, Hr. simpl.
  now rewrite <- !app_assoc.
Qed.


End listener.

(** *** Runs on the pool of scenario S1 *)

(** Modelled from the spec: [priceFromReserves] for a native quote,
    "[quote_display / base_display] where display is
    [amount_base / 10^exp]", on reserves given as the base and the quote
    amount; [fetchPoolReserves] answers 250000 of the base token against
    a million [uzig]. *)
Definition sample_price (baseExp : Z) (r : N * N) : option Js.number :=
  if bool_decide (r.1 = 0%N) || bool_decide (r.2 = 0%N) then None
  else Some (Js.Finite
               ((inject_Z (Z.of_N r.2) / inject_Z 10 ^ 6)
                / (inject_Z (Z.of_N r.1) / inject_Z 10 ^ baseExp))%Q).

(** Every awaited call returns. *)
Definition quiet : Imports :=
  {| reserves := N * N;
     priceFromReserves_UZIGQuote := fun _ => sample_price;
     returns := fun _ _ => true;
     fetched := fun _ => (250000%N, 1000000%N) |}.

(** [upsertPrice] throws (a failed write); every other call returns. *)
Definition failing_upsertPrice : Imports :=
  {| reserves := N * N;
     priceFromReserves_UZIGQuote := fun _ => sample_price;
     returns := fun _ c => negb (is_upsertPrice c);
     fetched := fun _ => (250000%N, 1000000%N) |}.

Definition payload1 : option payload :=
  Some {| payload_pool_id := Some 1; payload_pair_contract := Some "zig1pool" |}.

Definition ctx1 : ctx :=
  {| pool_id := 1; pair_contract := "zig1pool"; is_uzig_quote := true;
     created_at := Some 1700000000000000;
     base_token_id := 2; base_denom := "factory/X";
     quote_token_id := 1; quote_denom := "uzig" |}.

Definition world1 : world := {| DB := Pools.sample_db; calls := [] |}.

Example on_pair_created_sample :
  exists price,
    on_pair_created (imports := quiet) 0 payload1 world1
    = (Ok tt,
       {| DB := Pools.sample_db;
          calls :=
            [Collaborators.refreshMetaOnce "factory/X";
             Collaborators.refreshMetaOnce "uzig";
             Collaborators.refreshHoldersOnce 2 "factory/X";
             Collaborators.refreshHoldersOnce 2 "factory/X";
             Collaborators.scanTokenOnce 2 "factory/X";
             Collaborators.refreshPoolMatrixOnce 1;
             Collaborators.refreshTokenMatrixOnce 2;
             Collaborators.fetchPoolReserves "zig1pool";
             Collaborators.upsertPrice 2 1 price true;
             Collaborators.upsertOHLCV1m 1 1699999980000 price 0 0] |}) /\
    (price == 4)%Q.
Proof. eexists. vm_compute. split; reflexivity. Qed.



(** *** What the handler leaves behind *)

Section reactor.
Context {imports : Imports}.
Variable tzMinutes : Z.

(** [emits P m]: [m] reads the database and appends calls to the log,
    each of which satisfies [P]; it changes nothing else, whether it
    returns or throws. *)
Definition emits {A : Type} (P : Collaborators.call -> Prop) (m : M world A) : Prop :=
  forall w, DB (m w).2 = DB w /\
            exists cs, calls (m w).2 = calls w ++ cs /\ Forall P cs.

Lemma emits_ret {A : Type} (P : Collaborators.call -> Prop) (a : A) :
  emits P (mret a : M world A).
Proof.
  intros w. split; [reflexivity|]. exists []. split; [|constructor].
  cbn. now rewrite app_nil_r.
Qed.

Lemma emits_bind {A B : Type} (P : Collaborators.call -> Prop)
    (m : M world A) (k : A -> M world B) :
  emits P m -> (forall a, emits P (k a)) -> emits P (m ≫= k).
Proof.
  intros Hm Hk w. unfold mbind, M_bind.
  destruct (Hm w) as (Hd & cs & Hc & Hcs).
  destruct (m w) as [[a|e] w1]; cbn [snd] in *.
  - destruct (Hk a w1) as (Hd' & cs' & Hc' & Hcs').
    split; [congruence|]. exists (cs ++ cs'). split.
    + rewrite Hc', Hc. now rewrite app_assoc.
    + now apply Forall_app.
  - split; [exact Hd|]. now exists cs.
Qed.

Lemma emits_query {A : Type} (P : Collaborators.call -> Prop) (q : db -> A) :
  emits P (query q).
Proof.
  intros w. split; [reflexivity|]. exists []. split; [|constructor].
  cbn. now rewrite app_nil_r.
Qed.

Lemma emits_record (P : Collaborators.call -> Prop) (c : Collaborators.call) :
  P c -> emits P (record c).
Proof.
  intros Hc w. split; [reflexivity|]. exists [c]. split; [reflexivity|].
  now constructor.
Qed.

Lemma emits_await (P : Collaborators.call -> Prop) (c : Collaborators.call) :
  P c -> emits P (await c).
Proof.
  intros Hc w. split; [reflexivity|]. exists [c]. split; [reflexivity|].
  now constructor.
Qed.

Lemma emits_fetchPoolReserves (P : Collaborators.call -> Prop) (pair : string) :
  P (Collaborators.fetchPoolReserves pair) -> emits P (await_fetchPoolReserves pair).
Proof.
  intros Hc w. split; [reflexivity|]. eexists [_]. split; [reflexivity|].
  now constructor.
Qed.

Lemma emits_allSettled (P : Collaborators.call -> Prop)
    (cs : list Collaborators.call) :
  Forall P cs -> emits P (allSettled cs).
Proof.
  unfold allSettled. induction 1 as [|c cs Hc _ IH]; cbn [Js.for_each].
  - apply emits_ret.
  - apply emits_bind; [now apply emits_record | intros _; exact IH].
Qed.

Lemma emits_when (P : Collaborators.call -> Prop) (b : bool) (m : M world unit) :
  emits P m -> emits P (when b m).
Proof. destruct b; [trivial | intros _; apply emits_ret]. Qed.

Lemma emits_try_catch (P : Collaborators.call -> Prop) (m : M world unit) :
  emits P m -> emits P (try_catch m).
Proof. intros Hm w. exact (Hm w). Qed.

(** The calls that take a token by its id. *)
Definition about_token (id : Z) (c : Collaborators.call) : Prop :=
  match c with
  | Collaborators.refreshHoldersOnce i _
  | Collaborators.scanTokenOnce i _
  | Collaborators.refreshTokenMatrixOnce i => i = id
  | _ => False
  end.

Lemma enrich_native_quote (c : ctx) :
  quote_denom c = "uzig" -> base_token_id c <> quote_token_id c ->
  emits (fun call => ~ about_token (quote_token_id c) call) (enrich c).
Proof.
  intros Hq Hne.
  assert (Hnu : negb (bool_decide (quote_denom c = "uzig")) = false)
    by now rewrite bool_decide_eq_true_2.
  unfold enrich. cbv zeta. rewrite !Hnu. cbn [andb].
  repeat first
    [ apply emits_bind; [|intros ?]
    | apply emits_allSettled
    | match goal with |- emits _ (when false _) => apply emits_ret end
    | apply emits_when
    | apply emits_await
    | apply emits_query
    | apply emits_ret
    | match goal with |- Forall _ _ => repeat constructor end
    | match goal with |- ~ about_token _ _ => cbn; try tauto; congruence end ].
Qed.

Lemma seed_no_token_call (c : ctx) (id : Z) :
  emits (fun call => ~ about_token id call) (seed tzMinutes c).
Proof.
  unfold seed. apply emits_when.
  apply emits_bind; [apply emits_query | intros [baseExp|]]; [|apply emits_ret].
  apply emits_bind; [apply emits_fetchPoolReserves; cbn; tauto | intros r].
  destruct (Js.finite_positive _); [|apply emits_ret].
  apply emits_bind; [apply emits_await; cbn; tauto | intros _].
  apply emits_await. cbn. tauto.
Qed.

Lemma enrich_emits (c : ctx) : emits (fun _ => True) (enrich c).
Proof.
  unfold enrich. cbv zeta.
  destruct (negb (bool_decide (quote_denom c = "uzig")));
    repeat first
      [ apply emits_bind; [|intros ?]
      | apply emits_allSettled
      | apply emits_when
      | apply emits_await
      | apply emits_query
      | apply emits_ret
      | match goal with |- Forall _ _ => repeat constructor end
      | exact I ].
Qed.

Lemma seed_emits (c : ctx) : emits (fun _ => True) (seed tzMinutes c).
Proof.
  unfold seed. apply emits_when.
  apply emits_bind; [apply emits_query | intros [baseExp|]]; [|apply emits_ret].
  apply emits_bind; [now apply emits_fetchPoolReserves | intros r].
  destruct (Js.finite_positive _); [|apply emits_ret].
  apply emits_bind; [now apply emits_await | intros _].
  now apply emits_await.
Qed.

Lemma bind_step {A B : Type} (m : M world A) (k : A -> M world B)
    (w w1 : world) (a : A) :
  m w = (Ok a, w1) -> (m ≫= k) w = k a w1.
Proof. intros H. unfold mbind, M_bind. now rewrite H. Qed.

(** Steps 2 and 3 settle before anything can throw. *)
Lemma enrich_other_quote (c : ctx) (w : world) :
  quote_denom c <> "uzig" ->
  exists rest,
    calls (enrich c w).2
    = calls w ++
        [Collaborators.refreshMetaOnce (base_denom c);
         Collaborators.refreshMetaOnce (quote_denom c);
         Collaborators.refreshHoldersOnce (base_token_id c) (base_denom c);
         Collaborators.refreshHoldersOnce (quote_token_id c) (quote_denom c)]
        ++ rest.
Proof.
  intros Hq.
  assert (Hnu : negb (bool_decide (quote_denom c = "uzig")) = true)
    by now rewrite bool_decide_eq_false_2.
  unfold enrich. cbv zeta. rewrite !Hnu. cbn [andb].
  rewrite (bind_step _ _ w
             {| DB := DB w;
                calls := (calls w ++ [Collaborators.refreshMetaOnce (base_denom c)])
                         ++ [Collaborators.refreshMetaOnce (quote_denom c)] |} tt)
    by reflexivity.
  match goal with |- context [(_ ≫= ?k) ?w1] =>
    rewrite (bind_step _ k w1
               {| DB := DB w1;
                  calls := (calls w1 ++
                              [Collaborators.refreshHoldersOnce (base_token_id c)
                                 (base_denom c)])
                           ++ [Collaborators.refreshHoldersOnce (quote_token_id c)
                                 (quote_denom c)] |} tt)
      by reflexivity
  end.
  match goal with |- context [calls (?m ?w2).2] =>
    assert (Hrest : emits (fun _ => True) m); [|destruct (Hrest w2) as (_ & rest & Hc & _)]
  end.
  { repeat first
      [ apply emits_bind; [|intros ?]
      | apply emits_allSettled
      | apply emits_when
      | apply emits_await
      | apply emits_query
      | apply emits_ret
      | match goal with |- Forall _ _ => repeat constructor end
      | exact I ]. }
  exists rest. rewrite Hc. cbn [calls]. now rewrite <- !app_assoc.
Qed.

Lemma on_pair_created_run (payload : option payload) (w : world) :
  on_pair_created tzMinutes payload w
  = (Ok tt,
     match loadPoolContext payload (DB w) with
     | None => w
     | Some c =>
         match (enrich c w).1 with
         | Ok _ => (seed tzMinutes c (enrich c w).2).2
         | Throw _ => (enrich c w).2
         end
     end).
Proof.
  unfold on_pair_created, try_catch. f_equal.
  unfold mbind at 1, M_bind at 1, query. cbn [fst snd].
  destruct (loadPoolContext payload (DB w)) as [c|]; [|reflexivity].
  unfold mbind at 1, M_bind at 1.
  now destruct (enrich c w) as [[u|e] w1].
Qed.

Lemma on_pair_created_emits (payload : option payload) (w : world) :
  DB (on_pair_created tzMinutes payload w).2 = DB w /\
  exists emitted, calls (on_pair_created tzMinutes payload w).2 = calls w ++ emitted.
Proof.
  rewrite on_pair_created_run. cbn [fst snd].
  destruct (loadPoolContext payload (DB w)) as [c|].
  - destruct (emits_bind (fun _ => True) (enrich c)
                (fun _ => try_catch (seed tzMinutes c))) with (w := w)
      as (Hd & cs & Hc & _).
    { apply enrich_emits. }
    { intros _. apply emits_try_catch, seed_emits. }
    unfold mbind, M_bind, try_catch in Hd, Hc.
    destruct (enrich c w) as [[u|e] w1]; cbn [fst snd] in *.
    + split; [exact Hd | now exists cs].
    + split; [exact Hd | now exists cs].
  - split; [reflexivity|]. exists []. now rewrite app_nil_r.
Qed.

(** The handler is contained: whatever the payload holds and whatever the
    collaborators do, it resolves, it writes nothing to the database
    itself, and it keeps the log of calls made before it.  A payload for
    which no pool is found (no payload, neither key, a pool not stored
    yet) starts no job at all. *)
Theorem on_pair_created_is_contained (payload : option payload) (w : world) :
  (on_pair_created tzMinutes payload w).1 = Ok tt /\
  DB (on_pair_created tzMinutes payload w).2 = DB w /\
  (exists emitted, calls (on_pair_created tzMinutes payload w).2 = calls w ++ emitted) /\
  (loadPoolContext payload (DB w) = None ->
   (on_pair_created tzMinutes payload w).2 = w).
Proof.
  destruct (on_pair_created_emits payload w) as [Hd Hc].
  split; [|split; [exact Hd | split; [exact Hc|]]].
  - rewrite on_pair_created_run. reflexivity.
  - intros Hnone. rewrite on_pair_created_run, Hnone. reflexivity.
Qed.

(** For a pool quoted in [uzig] the handler asks for nothing about the
    quote token but its metadata: no holders refresh, no security scan
    and no token rollup names its id.  For any other quote the holders of
    the quote token are refreshed, whatever throws later. *)
Theorem native_quote_is_left_alone (payload : option payload) (w : world) (c : ctx) :
  loadPoolContext payload (DB w) = Some c ->
  base_token_id c <> quote_token_id c ->
  exists emitted,
    calls (on_pair_created tzMinutes payload w).2 = calls w ++ emitted /\
    (quote_denom c = "uzig" ->
     Forall (fun call => ~ about_token (quote_token_id c) call) emitted) /\
    (quote_denom c <> "uzig" ->
     Collaborators.refreshHoldersOnce (quote_token_id c) (quote_denom c) ∈ emitted).
Proof.
  intros Hctx Hne.
  destruct (on_pair_created_emits payload w) as (_ & [emitted Hem]).
  exists emitted. split; [exact Hem|].
  rewrite on_pair_created_run, Hctx in Hem. cbn [snd] in Hem. split.
  - intros Hq.
    destruct (enrich_native_quote c Hq Hne w) as (_ & cs & Hc & Hcs).
    destruct (enrich c w).1.
    + destruct (seed_no_token_call c (quote_token_id c) (enrich c w).2)
        as (_ & cs' & Hc' & Hcs').
      rewrite Hc', Hc, <- app_assoc in Hem. apply app_inv_head in Hem.
      subst emitted. now apply Forall_app.
    + rewrite Hc in Hem. apply app_inv_head in Hem. now subst emitted.
  - intros Hq.
    destruct (enrich_other_quote c w Hq) as [rest Hen].
    destruct (enrich c w).1.
    + destruct (seed_no_token_call c 0 (enrich c w).2) as (_ & cs' & Hc' & _).
      rewrite Hc', Hen in Hem. rewrite <- !app_assoc in Hem.
      apply app_inv_head in Hem. subst emitted. cbn [app].
      do 3 apply list_elem_of_further. apply list_elem_of_here.
    + rewrite Hen in Hem. apply app_inv_head in Hem. subst emitted. cbn [app].
      do 3 apply list_elem_of_further. apply list_elem_of_here.
Qed.

(** *** The candle of the minute *)

(** [minuteFloor] gives the start of the minute of its date, in UTC
    whatever the zone of the server (at an offset of whole minutes): the
    bucket the block processor computes for a swap of that minute. *)
Theorem minuteFloor_is_the_bucket_of_the_minute (created swapped : Z) :
  Js.getTime created / 60000 = Js.getTime swapped / 60000 ->
  minuteFloor tzMinutes (Some created) = Js.getTime swapped / 60000 * 60000 /\
  minuteFloor tzMinutes (Some created) mod 60000 = 0 /\
  minuteFloor tzMinutes (Some created) <= Js.getTime created
  < minuteFloor tzMinutes (Some created) + 60000.
Proof.
  intros Hsame. rewrite (minuteFloor_utc tzMinutes), Hsame.
  split; [reflexivity|]. split; [apply Z.mod_mul; lia|].
  rewrite <- Hsame.
  pose proof (Z.div_mod (Js.getTime created) 60000 ltac:(lia)) as Hd.
  pose proof (Z.mod_pos_bound (Js.getTime created) 60000 ltac:(lia)) as Hm.
  lia.
Qed.

End reactor.

(** A payload that names no pool. *)
Lemma on_pair_created_is_contained_no_payload :
  on_pair_created (imports := failing_upsertPrice) 0 None world1 = (Ok tt, world1).
Proof.
  destruct (on_pair_created_is_contained (imports := failing_upsertPrice) 0 None world1)
    as (Hok & _ & _ & Hsame).
  destruct (on_pair_created 0 None world1) as [r w'].
  cbn [fst snd] in *. rewrite Hok, Hsame; reflexivity.
Defined.

Lemma native_quote_is_left_alone_sample :
  exists emitted,
    calls (on_pair_created (imports := quiet) 0 payload1 world1).2 = emitted /\
    Forall (fun call => ~ about_token 1 call) emitted /\
    length emitted = 10%nat.
Proof.
  destruct (native_quote_is_left_alone (imports := quiet) 0 payload1 world1 ctx1)
    as (emitted & Hcalls & Huzig & _);
    [vm_compute; reflexivity | discriminate |].
  exists emitted. split; [exact Hcalls|]. split; [now apply Huzig|].
  change (calls world1 ++ emitted) with emitted in Hcalls. rewrite <- Hcalls.
  vm_compute. reflexivity.
Defined.

(** A pool created at the full minute and a swap 123456 microseconds
    later, on a server five and a half hours east of UTC. *)
Lemma minuteFloor_is_the_bucket_of_the_minute_sample :
  minuteFloor 330 (Some 1699999980000000) = 1699999980000 /\
  Js.getTime 1699999980123456 / 60000 * 60000 = 1699999980000.
Proof.
  destruct (minuteFloor_is_the_bucket_of_the_minute 330 1699999980000000
              1699999980123456) as (Hsame & _); [reflexivity|].
  split; [rewrite Hsame|]; reflexivity.
Defined.

End Fasttrack.

(** * api/ws.js *)
Module WS.
Import Schema.

(** ** The control protocol *)

(** What [JSON.parse] returns.  A number is given by its rendering
    [String(n)]: ["0"] for zero (of either sign), the only falsy one. *)
#[local] Unset Elimination Schemes.
Inductive json :=
| JNull
| JBool (b : bool)
| JNumber (rendering : string)
| JString (s : string)
| JArray (items : list json)
| JObject (members : list (string * json)).
#[local] Set Elimination Schemes.

(** [msg.key] on a parsed value other than [null]: the member of an
    object (of two members with one key the later one, as [JSON.parse]
    keeps it), [undefined] on anything else.  ([op] and [topic] are not
    properties of strings, numbers, booleans or arrays.) *)
Definition member (key : string) (msg : json) : option json :=
  match msg with
  | JObject members =>
      snd <$> find (fun kv => bool_decide (kv.1 = key)) (rev members)
  | _ => None
  end.

(** [ToBoolean], on a property that may be [undefined]. *)
Definition truthy (v : option json) : bool :=
  match v with
  | None | Some JNull => false
  | Some (JBool b) => b
  | Some (JNumber rendering) => negb (bool_decide (rendering = "0"))
  | Some (JString s) => negb (bool_decide (s = ""))
  | Some (JArray _) | Some (JObject _) => true
  end.

Fixpoint join (sep : string) (parts : list string) : string :=
  match parts with
  | [] => ""
  | [p] => p
  | p :: rest => p +:+ sep +:+ join sep rest
  end.

(** [String(v)].  An array renders as its items joined by commas, a
    [null] item as the empty string.  An object renders as
    ["[object Object]"], by [Object.prototype.toString], unless it has a
    member named [toString]: a member parsed from JSON is not callable,
    [valueOf] hands back the object, and the conversion throws a
    [TypeError].  So does the conversion of an array that holds such an
    object. *)
Fixpoint String_ (v : json) : result string :=
  match v with
  | JNull => Ok "null"
  | JBool true => Ok "true"
  | JBool false => Ok "false"
  | JNumber rendering => Ok rendering
  | JString s => Ok s
  | JArray items =>
      match
        (fix each (l : list json) : result (list string) :=
           match l with
           | [] => Ok []
           | x :: l' =>
               match match x with JNull => Ok "" | _ => String_ x end with
               | Ok part =>
                   match each l' with
                   | Ok parts => Ok (part :: parts)
                   | Throw e => Throw e
                   end
               | Throw e => Throw e
               end
           end) items
      with
      | Ok parts => Ok (join "," parts)
      | Throw e => Throw e
      end
  | JObject members =>
      if existsb (fun kv => bool_decide (kv.1 = "toString")) members
      then Throw "TypeError: Cannot convert object to primitive value"
      else Ok "[object Object]"
  end.

(** [String(x || '')]. *)
Definition String_or_empty (v : option json) : result string :=
  match v with
  | Some x => if truthy v then String_ x else Ok ""
  | None => Ok ""
  end.

Definition lower (c : ascii) : ascii :=
  let n := nat_of_ascii c in
  if (65 <=? n)%nat && (n <=? 90)%nat then ascii_of_nat (n + 32) else c.

(** [s.toLowerCase()], on the letters [A] to [Z].  No character outside
    ASCII lowers to a letter of ["subscribe"] or ["unsubscribe"], so the
    two comparisons of the handler read the same. *)
Fixpoint toLowerCase (s : string) : string :=
  match s with
  | EmptyString => EmptyString
  | String c s' => String (lower c) (toLowerCase s')
  end.

(** The topic hub of [startWS]: [subs], the [_topics] set of each
    connection, and the frames handed to [ws.send], in order, each with
    the object that was serialized. *)
Record hub := {
  subs : gmap string (gset nat);
  _topics : gmap nat (gset string);
  frames : list (nat * json)
}.

Definition send (ws : nat) (frame : json) : M hub unit := fun h =>
  (Ok tt, {| subs := subs h; _topics := _topics h;
             frames := frames h ++ [(ws, frame)] |}).

(** [addSub(ws, topic)]. *)
Definition addSub (ws : nat) (topic : string) : M hub unit := fun h =>
  (Ok tt,
   {| subs := <[topic := {[ ws ]} ∪ default ∅ (subs h !! topic)]> (subs h);
      _topics := <[ws := {[ topic ]} ∪ default ∅ (_topics h !! ws)]> (_topics h);
      frames := frames h |}).

(** [removeSub(ws, topic)]. *)
Definition removeSub (ws : nat) (topic : string) : M hub unit := fun h =>
  (Ok tt,
   {| subs :=
        match subs h !! topic with
        | Some set =>
            if bool_decide (set ∖ {[ ws ]} = ∅) then delete topic (subs h)
            else <[topic := set ∖ {[ ws ]}]> (subs h)
        | None => subs h
        end;
      _topics :=
        match _topics h !! ws with
        | Some set => <[ws := set ∖ {[ topic ]}]> (_topics h)
        | None => _topics h
        end;
      frames := frames h |}).

Definition object (members : list (string * json)) : json := JObject members.

(** An expression of the handler that may throw. *)
Definition eval {A : Type} (r : result A) : M hub A := fun h => (r, h).

(** [ws.on('message', async (raw) => ...)], given what
    [JSON.parse(raw.toString())] returned, or [None] when it threw.
    Reading [msg.op] of [null] throws a [TypeError], and so may the two
    conversions: they stand outside the [try], before anything is sent
    or subscribed. *)
Definition on_message (ws : nat) (parsed : option json) : M hub unit :=
  match parsed with
  | None => send ws (object [("ok", JBool false); ("error", JString "invalid_json")])
  | Some JNull => throw "TypeError: Cannot read properties of null (reading 'op')"
  | Some msg =>
      op ← eval (String_or_empty (member "op" msg));
      let op := toLowerCase op in
      topic ← eval (String_or_empty (member "topic" msg));
      if bool_decide (op = "subscribe") then
        _ ← addSub ws topic;
        send ws (object [("ok", JBool true); ("subscribed", JString topic)])
      else if bool_decide (op = "unsubscribe") then
        _ ← removeSub ws topic;
        send ws (object [("ok", JBool true); ("unsubscribed", JString topic)])
      else
        send ws (object [("ok", JBool false); ("error", JString "unknown_op")])
  end.

Definition frame (op topic : string) : option json :=
  Some (object [("op", JString op); ("topic", JString topic)]).

Definition hub0 : hub := {| subs := ∅; _topics := ∅; frames := [] |}.

Example on_message_samples :
  frames (on_message 7 None hub0).2
  = [(7%nat, object [("ok", JBool false); ("error", JString "invalid_json")])] /\
  frames (on_message 7 (frame "subscribe" "trades.stream") hub0).2
  = [(7%nat, object [("ok", JBool true); ("subscribed", JString "trades.stream")])] /\
  subs (on_message 7 (frame "subscribe" "trades.stream") hub0).2 !! "trades.stream"
  = Some {[ 7%nat ]} /\
  frames (on_message 7 (frame "unsubscribe" "trades.stream") hub0).2
  = [(7%nat, object [("ok", JBool true); ("unsubscribed", JString "trades.stream")])] /\
  frames (on_message 7 (frame "ping" "trades.stream") hub0).2
  = [(7%nat, object [("ok", JBool false); ("error", JString "unknown_op")])] /\
  frames (on_message 7 (Some (JNumber "5")) hub0).2
  = [(7%nat, object [("ok", JBool false); ("error", JString "unknown_op")])].
Proof. vm_compute. repeat split. Qed.

(** The frame [null] is valid JSON; the handler throws on it and sends
    nothing. *)
Example on_message_null :
  exists e, on_message 7 (Some JNull) hub0 = (Throw e, hub0).
Proof. eexists. reflexivity. Qed.

(** So is [{"op":"subscribe","topic":{"toString":1}}]: the conversion
    of the topic throws, nothing is sent and nothing is subscribed. *)
Example on_message_unconvertible :
  exists e,
    on_message 7
      (Some (object [("op", JString "subscribe");
                     ("topic", object [("toString", JNumber "1")])])) hub0
    = (Throw e, hub0).
Proof. eexists. reflexivity. Qed.

(** What the handler does once both conversions have returned. *)
Lemma on_message_run (ws : nat) (msg : json) (op topic : string) (h : hub) :
  msg <> JNull ->
  String_or_empty (member "op" msg) = Ok op ->
  String_or_empty (member "topic" msg) = Ok topic ->
  on_message ws (Some msg) h
  = (if bool_decide (toLowerCase op = "subscribe") then
       addSub ws topic ≫= fun _ =>
       send ws (object [("ok", JBool true); ("subscribed", JString topic)])
     else if bool_decide (toLowerCase op = "unsubscribe") then
       removeSub ws topic ≫= fun _ =>
       send ws (object [("ok", JBool true); ("unsubscribed", JString topic)])
     else
       send ws (object [("ok", JBool false); ("error", JString "unknown_op")])) h.
Proof.
  intros Hmsg Hop Htopic.
  assert (Hrun : on_message ws (Some msg) h
                 = (eval (String_or_empty (member "op" msg)) ≫= fun op =>
                    let op := toLowerCase op in
                    eval (String_or_empty (member "topic" msg)) ≫= fun topic =>
                    if bool_decide (op = "subscribe") then
                      addSub ws topic ≫= fun _ =>
                      send ws (object [("ok", JBool true); ("subscribed", JString topic)])
                    else if bool_decide (op = "unsubscribe") then
                      removeSub ws topic ≫= fun _ =>
                      send ws (object [("ok", JBool true);
                                       ("unsubscribed", JString topic)])
                    else
                      send ws (object [("ok", JBool false);
                                       ("error", JString "unknown_op")])) h)
    by (destruct msg; try reflexivity; congruence).
  rewrite Hrun. unfold mbind at 1, M_bind at 1, eval at 1. rewrite Hop.
  cbv zeta. unfold mbind at 1, M_bind at 1, eval at 1. rewrite Htopic.
  reflexivity.
Qed.

(** A conversion that throws ends the handler where it started. *)
Lemma on_message_state (ws : nat) (msg : json) (h : hub) :
  (exists op topic,
     String_or_empty (member "op" msg) = Ok op /\
     String_or_empty (member "topic" msg) = Ok topic) \/
  (on_message ws (Some msg) h).2 = h.
Proof.
  destruct (String_or_empty (member "op" msg)) as [op|e] eqn:Hop.
  - destruct (String_or_empty (member "topic" msg)) as [topic|e] eqn:Htopic.
    + left. now exists op, topic.
    + right. destruct msg; try reflexivity;
        unfold on_message, mbind, M_bind, eval; rewrite Hop, Htopic; reflexivity.
  - right. destruct msg; try reflexivity;
      unfold on_message, mbind, M_bind, eval; rewrite Hop; reflexivity.
Qed.

(** C9, as the spec words it, at the frame
    [{"op":"SUBSCRIBE","topic":"trades.stream"}]: its op is not
    ['subscribe'], and the reply is [{ok:true, subscribed:...}], not
    [{ok:false, error:"unknown_op"}].  The handler lower-cases the op. *)
Lemma on_message_SUBSCRIBE :
  "SUBSCRIBE" <> "subscribe" /\
  frames (on_message 7 (frame "SUBSCRIBE" "trades.stream") hub0).2
  = [(7%nat, object [("ok", JBool true); ("subscribed", JString "trades.stream")])] /\
  frames (on_message 7 (frame "SUBSCRIBE" "trades.stream") hub0).2
  <> [(7%nat, object [("ok", JBool false); ("error", JString "unknown_op")])].
Proof. split; [discriminate|]. split; [vm_compute; reflexivity|]. vm_compute. discriminate. Qed.

(** C9 (amended).  A frame that is not valid JSON is answered with
    exactly [{ok:false, error:"invalid_json"}].  For a valid frame other
    than [null] whose [msg.op || ''] and [msg.topic || ''] [String]
    converts, let [op] be [String(msg.op || '')] in lower case and
    [topic] be [String(msg.topic || '')]: when [op] is ['subscribe'] the
    connection is added to the topic and answered with exactly
    [{ok:true, subscribed:topic}]; when it is ['unsubscribe'] it is
    removed and answered with exactly [{ok:true, unsubscribed:topic}];
    any other [op] is answered with exactly
    [{ok:false, error:"unknown_op"}] and changes no subscription. *)
Theorem on_message_replies (ws : nat) (h : hub) :
  on_message ws None h
  = (Ok tt,
     {| subs := subs h; _topics := _topics h;
        frames := frames h ++
          [(ws, object [("ok", JBool false); ("error", JString "invalid_json")])] |}) /\
  forall (msg : json) (converted topic : string),
    msg <> JNull ->
    String_or_empty (member "op" msg) = Ok converted ->
    String_or_empty (member "topic" msg) = Ok topic ->
    let op := toLowerCase converted in
    let r := on_message ws (Some msg) h in
    r.1 = Ok tt /\
    (op = "subscribe" ->
     frames r.2 = frames h ++
       [(ws, object [("ok", JBool true); ("subscribed", JString topic)])] /\
     (exists set, subs r.2 !! topic = Some set /\ ws ∈ set)) /\
    (op = "unsubscribe" ->
     frames r.2 = frames h ++
       [(ws, object [("ok", JBool true); ("unsubscribed", JString topic)])] /\
     (forall set, subs r.2 !! topic = Some set -> ws ∉ set)) /\
    (op <> "subscribe" -> op <> "unsubscribe" ->
     frames r.2 = frames h ++
       [(ws, object [("ok", JBool false); ("error", JString "unknown_op")])] /\
     subs r.2 = subs h /\ _topics r.2 = _topics h).
Proof.
  split; [reflexivity|].
  intros msg converted topic Hmsg Hop Htopic op r.
  subst r. rewrite (on_message_run ws msg converted topic h Hmsg Hop Htopic).
  fold op.
  destruct (decide (op = "subscribe")) as [Hs|Hs].
  - rewrite bool_decide_eq_true_2 by exact Hs.
    split; [reflexivity|]. split; [|split].
    + intros _. split; [reflexivity|]. simpl.
      eexists. rewrite lookup_insert_eq. split; [reflexivity|].
      rewrite elem_of_union, elem_of_singleton. now left.
    + intros Hu. rewrite Hs in Hu. discriminate.
    + intros Hn. contradiction.
  - rewrite bool_decide_eq_false_2 by exact Hs.
    destruct (decide (op = "unsubscribe")) as [Hu|Hu].
    + rewrite bool_decide_eq_true_2 by exact Hu.
      split; [reflexivity|]. split; [|split].
      * intros Hs'. contradiction.
      * intros _. split; [reflexivity|]. simpl. intros set.
        destruct (subs h !! topic) as [old|] eqn:Eold.
        -- destruct (bool_decide (old ∖ {[ws]} = ∅)).
           ++ rewrite lookup_delete_eq. discriminate.
           ++ rewrite lookup_insert_eq. intros Heq.
              injection Heq as Heq. subst set.
              rewrite elem_of_difference, elem_of_singleton. tauto.
        -- rewrite Eold. discriminate.
      * intros _ Hn. contradiction.
    + rewrite bool_decide_eq_false_2 by exact Hu.
      split; [reflexivity|]. split; [|split].
      * intros Hs'. contradiction.
      * intros Hu'. contradiction.
      * intros _ _. repeat split.
Qed.

(** The frame [{"op":"Unsubscribe","topic":"trades.stream"}]. *)
Lemma on_message_replies_Unsubscribe :
  frames (on_message 7 (frame "Unsubscribe" "trades.stream") hub0).2
  = [(7%nat, object [("ok", JBool true); ("unsubscribed", JString "trades.stream")])].
Proof.
  destruct (on_message_replies 7 hub0) as [_ Hvalid].
  destruct (Hvalid (object [("op", JString "Unsubscribe");
                            ("topic", JString "trades.stream")])
              "Unsubscribe" "trades.stream")
    as (_ & _ & Hunsubscribe & _);
    [discriminate | reflexivity | reflexivity |].
  destruct Hunsubscribe as [Hframes _]; [vm_compute; reflexivity|].
  exact Hframes.
Defined.

(** ** The keepalive *)

Inductive readyState := CONNECTING | OPEN | CLOSING | CLOSED.

#[global] Instance readyState_eq_dec : EqDecision readyState.
Proof. solve_decision. Defined.

(** A member of [wss.clients].  [answered] tells whether a pong has come
    back since the last ping: the server keeps no record of it. *)
Record client := {
  id : nat;
  state : readyState;
  answered : bool
}.

(** What a timer callback may ask of a socket. *)
Inductive socket_call :=
| ping (ws : nat)
| close (ws : nat)
| terminate (ws : nat).

Definition HEARTBEAT_MS : Z := 25000.

(** The callback of [setInterval(..., HEARTBEAT_MS)]: the calls it makes
    on the sockets, in order. *)
Definition heartbeat (clients : list client) : list socket_call :=
  (fun c => ping (id c)) <$> filter (fun c => state c = OPEN) clients.

(** The delay, in milliseconds from [startWS], after which the callback
    runs for the [k]-th time (counting from [0]). *)
Definition heartbeat_at (k : nat) : Z := (Z.of_nat k + 1) * HEARTBEAT_MS.

(** C8, as the spec words it, at an open connection that has not
    answered the previous ping: the callback pings it again and asks
    nothing else of it; the connection is not closed. *)
Lemma heartbeat_keeps_silent_connection :
  let silent := {| id := 1; state := OPEN; answered := false |} in
  heartbeat [silent] = [ping 1] /\
  (close 1 ∉ heartbeat [silent]) /\
  (terminate 1 ∉ heartbeat [silent]).
Proof.
  cbv zeta. split; [reflexivity|].
  split; intros Hin; apply list_elem_of_In in Hin; simpl in Hin;
    destruct Hin as [Hin|[]]; discriminate.
Qed.

(** C8 (amended).  The keepalive runs every 25 seconds and pings every
    connection that is open, once; it asks nothing else of any socket:
    no connection is closed or terminated by it, whether or not it has
    answered the previous ping. *)
Theorem heartbeat_pings_open_connections (clients : list client) :
  HEARTBEAT_MS = 25000 /\
  (forall k, heartbeat_at (S k) - heartbeat_at k = 25000) /\
  heartbeat clients
  = (fun c => ping (id c)) <$> filter (fun c => state c = OPEN) clients /\
  (forall c, c ∈ clients -> state c = OPEN -> ping (id c) ∈ heartbeat clients) /\
  (forall ws, (close ws ∉ heartbeat clients) /\ (terminate ws ∉ heartbeat clients)).
Proof.
  split; [reflexivity|]. split; [intros k; unfold heartbeat_at, HEARTBEAT_MS; lia|].
  split; [reflexivity|]. split.
  - intros c Hc Hopen. unfold heartbeat.
    apply (list_elem_of_fmap_2 (fun c => ping (id c))).
    apply list_elem_of_filter. auto.
  - intros ws. unfold heartbeat.
    split; intros Hin; apply list_elem_of_fmap in Hin as (c & Heq & _);
      discriminate.
Qed.

(** Of an open and a closing connection the first is pinged. *)
Lemma heartbeat_pings_open_connections_sample :
  ping 1 ∈ heartbeat [ {| id := 1; state := OPEN; answered := true |};
                       {| id := 2; state := CLOSING; answered := false |} ].
Proof.
  destruct (heartbeat_pings_open_connections
              [ {| id := 1; state := OPEN; answered := true |};
                {| id := 2; state := CLOSING; answered := false |} ])
    as (_ & _ & _ & Hping & _).
  apply (Hping {| id := 1; state := OPEN; answered := true |});
    [apply list_elem_of_here | reflexivity].
Defined.

(** ** The trade pump *)

(** A row of the pump's [SELECT]: the trade with its [trade_id] and the
    columns joined to it. *)
Record row := {
  trade_id : Z;
  t : Trades.trade;
  pair_contract : string;
  is_uzig_quote : bool;
  qexp : option Z;
  pq_price_in_zig : option Q;
  offer_exp : option Z;
  ask_exp : option Z
}.

Definition created_at (r : row) : Z := Trades.created_at (t r).

(** The row of the base-token lookup; [token_id] is a [BIGINT], which
    the driver hands over as a string. *)
Record token := {
  symbol : option string;
  denom : option string;
  token_id : string
}.

(** What one run of [pumpTrades] gets from outside: the rate (or the
    error [getZigUsd] threw), the database's [now()], the trades joined
    with their pools and tokens that the [SELECT] ranges over (or the
    error of the query), and the answer of the base-token lookup for a
    row (its first row, if any, or the error). *)
Record cycle := {
  zigUsd : result Q;
  now : Z;
  joined : result (list row);
  base_token : row -> result (option token)
}.

(** The pump: the watermark and the [broadcast(topic, msg)] calls made so
    far, each with the row its message was shaped from. *)
Record pump := {
  lastSeenIso : option Z;
  broadcasts : list (string * row)
}.

Definition lift {A : Type} (r : result A) : M pump A := fun p => (r, p).

(** [broadcast(topic, msg)].  It sends to open sockets only, and
    [ws.send] on an open socket does not throw. *)
Definition broadcast (topic : string) (r : row) : M pump unit := fun p =>
  (Ok tt, {| lastSeenIso := lastSeenIso p;
             broadcasts := broadcasts p ++ [(topic, r)] |}).

(** [r.created_at] as [DB.query] hands it over, and as it goes back to
    the database as [$1].  The driver's own parser makes a [TIMESTAMPTZ]
    a [Date], which counts whole milliseconds ([as_Date]); a parser that
    leaves the column as text keeps its microseconds ([as_text]).
    lib/db.js, which sets the driver up, is not among the sources: the
    pump takes the conversion as [driver]. *)
Definition as_Date (stored : timestamp) : timestamp := Js.getTime stored * 1000.

Definition as_text (stored : timestamp) : timestamp := stored.

Definition earlier (a b : row) : Prop := created_at a <= created_at b.

#[global] Instance earlier_dec : RelDecision earlier.
Proof. intros a b. unfold earlier. apply _. Defined.

(** The [WHERE] clause: [t.created_at > $1] with the watermark, or
    [t.created_at >= now() - INTERVAL '10 minutes'] without one, and the
    test on [t.action]. *)
Definition wanted (watermark : option Z) (now : Z) (r : row) : Prop :=
  match watermark with
  | Some w => w < created_at r
  | None => now - 600000000 <= created_at r
  end
  /\ match Trades.action (t r) with
     | Trades.swap | Trades.provide | Trades.withdraw => True
     end.

#[global] Instance wanted_dec (watermark : option Z) (now : Z) (r : row) :
  Decision (wanted watermark now r).
Proof.
  unfold wanted. destruct watermark, (Trades.action (t r)); apply _.
Defined.

(** The [SELECT]: [WHERE], [ORDER BY t.created_at ASC], [LIMIT 200].
    Rows of one [created_at] come in an order of the database's choosing;
    here, the one the merge leaves. *)
Definition select (watermark : option Z) (now : Z) (table : list row) : list row :=
  take 200 (merge_sort earlier (filter (wanted watermark now) table)).

(** [new Set([String(tok.token_id), tok.symbol, tok.denom].filter(Boolean))]. *)
Definition refs (tok : token) : list string :=
  remove_dups
    (omap Js.truthy [Some (token_id tok); symbol tok; denom tok]).

Section pumpTrades.
Variable driver : timestamp -> timestamp.

(** [lastSeenIso = r.created_at]. *)
Definition advance (r : row) : M pump unit := fun p =>
  (Ok tt, {| lastSeenIso := Some (driver (created_at r));
             broadcasts := broadcasts p |}).

(** The body of [for (const r of rows)]. *)
Definition pump_row (c : cycle) (r : row) : M pump unit :=
  _ ← broadcast "trades.stream" r;
  bt ← lift (base_token c r);
  _ ← match bt with
      | Some tok =>
          Js.for_each (refs tok)
            (fun ref => broadcast ("trades.stream.token:" +:+ ref) r)
      | None => mret tt
      end;
  _ ← broadcast ("trades.stream.pair:" +:+ pair_contract r) r;
  advance r.

(** One run of [pumpTrades], from its [try] to its [catch]. *)
Definition pumpTrades (c : cycle) : M pump unit := fun p =>
  (Ok tt,
   ((_ ← lift (zigUsd c);
     table ← lift (joined c);
     Js.for_each (select (lastSeenIso p) (now c) table) (pump_row c)) p).2).

(** The runs of the pump, one every two seconds, from the start. *)
Definition pump0 : pump := {| lastSeenIso := None; broadcasts := [] |}.

Definition run (cycles : list cycle) : pump :=
  fold_left (fun p c => (pumpTrades c p).2) cycles pump0.

(** The rows sent to the global topic, in order. *)
Definition streamed (p : pump) : list row :=
  (filter (fun e => e.1 = "trades.stream") (broadcasts p)).*2.

(** *** One run *)

Lemma streamed_app (p : pump) (topic : string) (r : row) :
  streamed {| lastSeenIso := lastSeenIso p;
              broadcasts := broadcasts p ++ [(topic, r)] |}
  = if decide (topic = "trades.stream") then streamed p ++ [r] else streamed p.
Proof.
  unfold streamed. simpl. rewrite filter_app, fmap_app.
  destruct (decide (topic = "trades.stream")) as [->|Hne].
  - reflexivity.
  - rewrite filter_cons_False by exact Hne. simpl. now rewrite app_nil_r.
Qed.

Lemma token_topics (r : row) (refs : list string) (p : pump) :
  let p' := (Js.for_each refs
               (fun ref => broadcast ("trades.stream.token:" +:+ ref) r) p) in
  p'.1 = Ok tt /\ streamed p'.2 = streamed p /\ lastSeenIso p'.2 = lastSeenIso p.
Proof.
  revert p. induction refs as [|ref refs IH]; intros p; simpl.
  - auto.
  - unfold mbind, M_bind. simpl.
    destruct (IH {| lastSeenIso := lastSeenIso p;
                    broadcasts := broadcasts p ++
                      [("trades.stream.token:" +:+ ref, r)] |})
      as (Hok & Hs & Hw).
    split; [exact Hok|]. split; [|exact Hw].
    rewrite Hs, streamed_app. rewrite decide_False; [reflexivity|].
    simpl. discriminate.
Qed.

Lemma pump_row_run (c : cycle) (r : row) (p : pump) (bt : option token) :
  base_token c r = Ok bt ->
  (pump_row c r p).1 = Ok tt /\
  streamed (pump_row c r p).2 = streamed p ++ [r] /\
  lastSeenIso (pump_row c r p).2 = Some (driver (created_at r)).
Proof.
  intros Hbt. unfold pump_row, mbind, M_bind, lift. simpl. rewrite Hbt.
  set (p1 := {| lastSeenIso := lastSeenIso p;
                broadcasts := broadcasts p ++ [("trades.stream", r)] |}).
  assert (H1 : streamed p1 = streamed p ++ [r])
    by (unfold p1; rewrite streamed_app; now rewrite decide_True).
  assert (Hpair : forall q, streamed q = streamed p ++ [r] ->
            streamed {| lastSeenIso := Some (driver (created_at r));
                        broadcasts := broadcasts q ++
                          [("trades.stream.pair:" +:+ pair_contract r, r)] |}
            = streamed p ++ [r]).
  { intros q Hq.
    pose proof (streamed_app q ("trades.stream.pair:" +:+ pair_contract r) r) as Hs.
    rewrite decide_False in Hs by (simpl; discriminate).
    unfold streamed in *. simpl in *. now rewrite Hs. }
  destruct bt as [tok|].
  - destruct (token_topics r (refs tok) p1) as (Hok & Hs & _).
    destruct (Js.for_each (refs tok) _ p1) as [res p2]. simpl in *. subst res.
    simpl. split; [reflexivity|]. split; [|reflexivity].
    apply (Hpair p2). now rewrite Hs.
  - simpl. split; [reflexivity|]. split; [|reflexivity].
    apply (Hpair p1), H1.
Qed.

Definition answers (c : cycle) : Prop :=
  forall r, exists bt, base_token c r = Ok bt.

Lemma pump_rows_run (c : cycle) (rows : list row) (p : pump) :
  answers c ->
  streamed (Js.for_each rows (pump_row c) p).2 = streamed p ++ rows /\
  lastSeenIso (Js.for_each rows (pump_row c) p).2
  = match last rows with
    | Some r => Some (driver (created_at r))
    | None => lastSeenIso p
    end.
Proof.
  intros Hans. revert p. induction rows as [|r rows IH]; intros p; simpl.
  - now rewrite app_nil_r.
  - destruct (Hans r) as [bt Hbt].
    destruct (pump_row_run c r p bt Hbt) as (Hok & Hs & Hw).
    unfold mbind, M_bind.
    destruct (pump_row c r p) as [res p1]. simpl in *. subst res.
    destruct (IH p1) as [IHs IHw]. split.
    + rewrite IHs, Hs. now rewrite <- app_assoc.
    + rewrite IHw, Hw. destruct rows as [|r' rows']; [reflexivity|].
      simpl. destruct (last (r' :: rows')) eqn:E; [reflexivity|].
      apply last_None in E. discriminate.
Qed.

Lemma pumpTrades_run (c : cycle) (p : pump) :
  answers c ->
  (pumpTrades c p).2 = p \/
  exists table,
    joined c = Ok table /\
    streamed (pumpTrades c p).2
    = streamed p ++ select (lastSeenIso p) (now c) table /\
    lastSeenIso (pumpTrades c p).2
    = match last (select (lastSeenIso p) (now c) table) with
      | Some r => Some (driver (created_at r))
      | None => lastSeenIso p
      end.
Proof.
  intros Hans. unfold pumpTrades, mbind, M_bind, lift. simpl.
  destruct (zigUsd c); [|now left].
  destruct (joined c) as [table|]; [|now left].
  right. exists table. split; [reflexivity|]. now apply pump_rows_run.
Qed.

(** *** The selected rows *)

#[local] Instance earlier_total : Total earlier.
Proof. intros a b. unfold earlier. lia. Qed.

#[local] Instance earlier_trans : Transitive earlier.
Proof. intros a b c. unfold earlier. lia. Qed.

Lemma select_sublist (watermark : option Z) (now : Z) (table : list row) :
  forall r, r ∈ select watermark now table ->
            r ∈ table /\ wanted watermark now r.
Proof.
  intros r Hr. unfold select in Hr.
  apply subseteq_take in Hr. rewrite merge_sort_Permutation in Hr.
  apply list_elem_of_filter in Hr as [? ?]. auto.
Qed.

Lemma select_keys (watermark : option Z) (now : Z) (table : list row) :
  NoDup (trade_id <$> table) ->
  NoDup (trade_id <$> select watermark now table).
Proof.
  intros Hnd. unfold select. rewrite fmap_take.
  eapply sublist_NoDup; [|apply sublist_take].
  rewrite merge_sort_Permutation.
  eapply sublist_NoDup; [exact Hnd|].
  apply fmap_sublist, sublist_filter.
Qed.

Lemma select_last (watermark : option Z) (now : Z) (table : list row) (r x : row) :
  last (select watermark now table) = Some x ->
  r ∈ select watermark now table -> created_at r <= created_at x.
Proof.
  intros Hlast Hr.
  assert (Hsorted : StronglySorted earlier (select watermark now table)).
  { unfold select.
    pose proof (StronglySorted_merge_sort earlier
                  (filter (wanted watermark now) table)) as Hs.
    rewrite <- (take_drop 200 (merge_sort _ _)) in Hs.
    now apply StronglySorted_app_1_l in Hs. }
  apply last_Some in Hlast as [l' Hl']. rewrite Hl' in Hr, Hsorted.
  apply elem_of_app in Hr as [Hr|Hr].
  - apply (StronglySorted_app_1_elem_of _ _ _ _ _ Hsorted Hr).
    now apply list_elem_of_singleton.
  - apply list_elem_of_singleton in Hr. subst. unfold created_at. lia.
Qed.

(** *** All runs *)

Section runs.
Variable cycles : list cycle.

(** No base-token lookup throws. *)
Hypothesis lookups_answer : forall c, c ∈ cycles -> answers c.

(** [trade_id] is the primary key of [trades], and each trade joins one
    pool and one quote token. *)
Hypothesis trade_id_key :
  forall c table, c ∈ cycles -> joined c = Ok table -> NoDup (trade_id <$> table).

(** [trades] is append-only: a trade keeps its [created_at]. *)
Hypothesis created_at_kept :
  forall c c' table table' r r',
    c ∈ cycles -> c' ∈ cycles ->
    joined c = Ok table -> joined c' = Ok table' ->
    r ∈ table -> r' ∈ table' ->
    trade_id r = trade_id r' -> created_at r = created_at r'.

(** The watermark a row leaves is its [created_at] as stored: nothing of
    it is lost on the way through the driver. *)
Hypothesis created_at_whole :
  forall c table r,
    c ∈ cycles -> joined c = Ok table -> r ∈ table ->
    driver (created_at r) = created_at r.

Definition selected_once (p : pump) : Prop :=
  NoDup (trade_id <$> streamed p) /\
  forall r, r ∈ streamed p ->
    (exists c table, c ∈ cycles /\ joined c = Ok table /\ r ∈ table) /\
    (exists w, lastSeenIso p = Some w /\ created_at r <= w).

Lemma selected_once_step (c : cycle) (p : pump) :
  c ∈ cycles -> selected_once p -> selected_once (pumpTrades c p).2.
Proof.
  intros Hc [Hnd Hold].
  destruct (pumpTrades_run c p (lookups_answer c Hc))
    as [->|(table & Htable & Hs & Hw)]; [now split|].
  set (rows := select (lastSeenIso p) (now c) table) in *.
  destruct (last rows) as [x|] eqn:Hlast.
  - assert (Hx : x ∈ rows) by (eapply last_Some_elem_of; exact Hlast).
    assert (Hwhole : driver (created_at x) = created_at x).
    { apply (created_at_whole c table); [exact Hc | exact Htable |].
      now apply select_sublist in Hx as [? _]. }
    rewrite Hwhole in Hw.
    assert (Hnew : forall r w, r ∈ rows -> lastSeenIso p = Some w ->
                               w < created_at r).
    { intros r w Hr Hp. apply select_sublist in Hr as [_ [Hwant _]].
      now rewrite Hp in Hwant. }
    split.
    + rewrite Hs, fmap_app. apply NoDup_app. split; [exact Hnd|]. split.
      * intros i Hi Hi'.
        apply list_elem_of_fmap in Hi as (r & -> & Hr).
        apply list_elem_of_fmap in Hi' as (r' & Heq & Hr').
        destruct (Hold r Hr) as ((c0 & table0 & Hc0 & Ht0 & Hr0) & w & Hp & Hle).
        pose proof (Hnew r' w Hr' Hp) as Hlt.
        apply select_sublist in Hr' as [Hr' _].
        pose proof (created_at_kept c0 c table0 table r r' Hc0 Hc Ht0 Htable
                      Hr0 Hr' Heq). lia.
      * now apply select_keys, (trade_id_key c).
    + intros r Hr. rewrite Hs in Hr. rewrite Hw.
      apply elem_of_app in Hr as [Hr|Hr].
      * destruct (Hold r Hr) as (Hseen & w & Hp & Hle).
        split; [exact Hseen|]. eexists. split; [reflexivity|].
        pose proof (Hnew x w Hx Hp). lia.
      * split.
        -- exists c, table. split; [exact Hc|]. split; [exact Htable|].
           now apply select_sublist in Hr as [? _].
        -- eexists. split; [reflexivity|]. now apply (select_last _ _ _ r x Hlast).
  - apply last_None in Hlast. rewrite Hlast in Hs. rewrite app_nil_r in Hs.
    split.
    + now rewrite Hs.
    + intros r Hr. rewrite Hs in Hr. rewrite Hw. now apply Hold.
Qed.

Lemma selected_once_runs (l : list cycle) (p : pump) :
  (forall c, c ∈ l -> c ∈ cycles) -> selected_once p ->
  selected_once (fold_left (fun p c => (pumpTrades c p).2) l p).
Proof.
  revert p. induction l as [|c l IH]; intros p Hl Hp; simpl; [exact Hp|].
  apply IH.
  - intros c' Hc'. apply Hl. now right.
  - apply selected_once_step; [apply Hl; now left | exact Hp].
Qed.


End runs.
End pumpTrades.

(** *** Two runs over one trade *)

Definition row1 : row :=
  {| trade_id := 1;
     t := Trades.sample_trade (Some "uzig") (Some 1000000%N) (Some "factory/X")
            (Some 250000%N) (Some "AB12");
     pair_contract := "zig1pool"; is_uzig_quote := true; qexp := Some 6;
     pq_price_in_zig := None; offer_exp := Some 6; ask_exp := Some 6 |}.

Definition base1 : token :=
  {| symbol := Some "X"; denom := Some "factory/X"; token_id := "2" |}.

(** A run over the trades [rows] in which everything answers. *)
Definition calm (rows : list row) (now : Z) : cycle :=
  {| zigUsd := Ok 1%Q; now := now; joined := Ok rows;
     base_token := fun _ => Ok (Some base1) |}.

(** The same run with the base-token lookup failing. *)
Definition troubled (rows : list row) (now : Z) : cycle :=
  {| zigUsd := Ok 1%Q; now := now; joined := Ok rows;
     base_token := fun _ => Throw "connection terminated" |}.

(** Five and seven seconds after the trade. *)
Example pump_calm :
  broadcasts (run as_Date [calm [row1] 1700000005000000; calm [row1] 1700000007000000])
  = [("trades.stream", row1); ("trades.stream.token:2", row1);
     ("trades.stream.token:X", row1); ("trades.stream.token:factory/X", row1);
     ("trades.stream.pair:zig1pool", row1)] /\
  lastSeenIso (run as_Date [calm [row1] 1700000005000000; calm [row1] 1700000007000000])
  = Some 1700000000000000.
Proof. vm_compute. split; reflexivity. Qed.

(** The trade of scenario S1 as the block processor stamps it, with the
    microseconds of its block time. *)
Definition row2 : row :=
  {| trade_id := 2; t := BlockProcessor.S1_trade;
     pair_contract := "zig1pool"; is_uzig_quote := true; qexp := Some 6;
     pq_price_in_zig := None; offer_exp := Some 6; ask_exp := Some 6 |}.

(** A watermark that is a [Date] stops short of such a trade: every run
    finds the trade above the watermark and sends it again.  A watermark
    kept as text passes it. *)
Example pump_repeats_below_the_millisecond :
  created_at row2 = 1700000000123456 /\
  lastSeenIso (run as_Date [calm [row2] 1700000005000000]) = Some 1700000000123000 /\
  streamed (run as_Date [calm [row2] 1700000005000000; calm [row2] 1700000007000000])
  = [row2; row2] /\
  streamed (run as_text [calm [row2] 1700000005000000; calm [row2] 1700000007000000])
  = [row2].
Proof. vm_compute. repeat split. Qed.



(** ** Subscriptions, delivery and disconnects *)

(** [ws.on('close', ...)]: nothing for a connection that never
    subscribed ([ws._topics] is [undefined]); otherwise [removeSub] for
    each of its topics.  The loop runs over the set [removeSub] deletes
    from, which visits every member once: deleting a member already
    visited does not disturb the iteration. *)
Definition on_close (ws : nat) : M hub unit := fun h =>
  match _topics h !! ws with
  | None => (Ok tt, h)
  | Some topics => Js.for_each (elements topics) (removeSub ws) h
  end.

Module Sockets.

(** [broadcast(topic, msg)] of the hub: one [ws.send] of the message for
    each subscriber of the topic whose socket is open.  [readyState]
    gives the state of each socket at the call. *)
Definition broadcast (readyState : nat -> readyState) (topic : string) (msg : json)
  : M hub unit := fun h =>
  match subs h !! topic with
  | None => (Ok tt, h)
  | Some set =>
      (Ok tt,
       {| subs := subs h; _topics := _topics h;
          frames := frames h ++
            ((fun ws => (ws, msg)) <$>
             filter (fun ws => readyState ws = OPEN) (elements set)) |})
  end.

End Sockets.

(** The subscribers of a topic and the topics of a connection. *)
Definition subscribers (h : hub) (topic : string) : gset nat :=
  default ∅ (subs h !! topic).

Definition topics_of (h : hub) (ws : nat) : gset string :=
  default ∅ (_topics h !! ws).

(** The two indexes agree, and no topic is kept without a subscriber. *)
Definition consistent (h : hub) : Prop :=
  (forall ws topic, ws ∈ subscribers h topic <-> topic ∈ topics_of h ws) /\
  (forall topic set, subs h !! topic = Some set -> set <> ∅).

Ltac set_facts :=
  rewrite ?elem_of_union, ?elem_of_difference, ?elem_of_singleton, ?elem_of_empty.

Lemma addSub_subscribers (ws : nat) (topic : string) (h : hub) (ws' : nat)
    (topic' : string) :
  ws' ∈ subscribers (addSub ws topic h).2 topic'
  <-> ws' ∈ subscribers h topic' \/ (ws' = ws /\ topic' = topic).
Proof.
  unfold subscribers. cbn [addSub snd subs].
  destruct (decide (topic' = topic)) as [->|Hne].
  - rewrite lookup_insert_eq. cbn [default from_option]; unfold Datatypes.id. set_facts. intuition congruence.
  - rewrite lookup_insert_ne by congruence. intuition congruence.
Qed.

Lemma addSub_topics_of (ws : nat) (topic : string) (h : hub) (ws' : nat)
    (topic' : string) :
  topic' ∈ topics_of (addSub ws topic h).2 ws'
  <-> topic' ∈ topics_of h ws' \/ (ws' = ws /\ topic' = topic).
Proof.
  unfold topics_of. cbn [addSub snd _topics].
  destruct (decide (ws' = ws)) as [->|Hne].
  - rewrite lookup_insert_eq. cbn [default from_option]; unfold Datatypes.id. set_facts. intuition congruence.
  - rewrite lookup_insert_ne by congruence. intuition congruence.
Qed.

Lemma removeSub_subscribers (ws : nat) (topic : string) (h : hub) (ws' : nat)
    (topic' : string) :
  ws' ∈ subscribers (removeSub ws topic h).2 topic'
  <-> ws' ∈ subscribers h topic' /\ ~ (ws' = ws /\ topic' = topic).
Proof.
  unfold subscribers. cbn [removeSub snd subs].
  destruct (subs h !! topic) as [set|] eqn:E.
  - destruct (decide (set ∖ {[ws]} = ∅)) as [Hempty|Hsome].
    + rewrite bool_decide_eq_true_2 by exact Hempty.
      destruct (decide (topic' = topic)) as [->|Hne].
      * rewrite lookup_delete_eq, E. cbn [default from_option]; unfold Datatypes.id. set_facts.
        split; [tauto|]. intros [Hin Hnot].
        assert (Hd : ws' ∈ set ∖ {[ws]})
          by (set_facts; split; [exact Hin|]; intros ->; tauto).
        rewrite Hempty in Hd. now apply elem_of_empty in Hd.
      * rewrite lookup_delete_ne by congruence. intuition congruence.
    + rewrite bool_decide_eq_false_2 by exact Hsome.
      destruct (decide (topic' = topic)) as [->|Hne].
      * rewrite lookup_insert_eq, E. cbn [default from_option]; unfold Datatypes.id. set_facts. intuition congruence.
      * rewrite lookup_insert_ne by congruence. intuition congruence.
  - destruct (decide (topic' = topic)) as [->|Hne].
    + rewrite E. cbn [default from_option]; unfold Datatypes.id. set_facts. intuition congruence.
    + intuition congruence.
Qed.

Lemma removeSub_topics_of (ws : nat) (topic : string) (h : hub) (ws' : nat)
    (topic' : string) :
  topic' ∈ topics_of (removeSub ws topic h).2 ws'
  <-> topic' ∈ topics_of h ws' /\ ~ (ws' = ws /\ topic' = topic).
Proof.
  unfold topics_of. cbn [removeSub snd _topics].
  destruct (_topics h !! ws) as [set|] eqn:E.
  - destruct (decide (ws' = ws)) as [->|Hne].
    + rewrite lookup_insert_eq, E. cbn [default from_option]; unfold Datatypes.id. set_facts. intuition congruence.
    + rewrite lookup_insert_ne by congruence. intuition congruence.
  - destruct (decide (ws' = ws)) as [->|Hne].
    + rewrite E. cbn [default from_option]; unfold Datatypes.id. set_facts. intuition congruence.
    + intuition congruence.
Qed.

Lemma addSub_consistent (ws : nat) (topic : string) (h : hub) :
  consistent h -> consistent (addSub ws topic h).2.
Proof.
  intros [Hagree Hfull]. split.
  - intros ws' topic'. rewrite addSub_subscribers, addSub_topics_of.
    now rewrite Hagree.
  - intros topic' set. cbn [addSub snd subs].
    destruct (decide (topic' = topic)) as [->|Hne].
    + rewrite lookup_insert_eq. intros Heq Hempty. injection Heq as Hset.
      assert (Hin : ws ∈ set) by (rewrite <- Hset; set_facts; now left).
      rewrite Hempty in Hin. now apply elem_of_empty in Hin.
    + rewrite lookup_insert_ne by congruence. apply Hfull.
Qed.

Lemma removeSub_consistent (ws : nat) (topic : string) (h : hub) :
  consistent h -> consistent (removeSub ws topic h).2.
Proof.
  intros [Hagree Hfull]. split.
  - intros ws' topic'. rewrite removeSub_subscribers, removeSub_topics_of.
    now rewrite Hagree.
  - intros topic' set. cbn [removeSub snd subs].
    destruct (subs h !! topic) as [old|] eqn:E; [|apply Hfull].
    destruct (decide (old ∖ {[ws]} = ∅)) as [Hempty|Hsome].
    + rewrite bool_decide_eq_true_2 by exact Hempty.
      destruct (decide (topic' = topic)) as [->|Hne].
      * rewrite lookup_delete_eq. discriminate.
      * rewrite lookup_delete_ne by congruence. apply Hfull.
    + rewrite bool_decide_eq_false_2 by exact Hsome.
      destruct (decide (topic' = topic)) as [->|Hne].
      * rewrite lookup_insert_eq. intros Heq. inversion Heq. now subst.
      * rewrite lookup_insert_ne by congruence. apply Hfull.
Qed.

Lemma send_consistent (ws : nat) (frame : json) (h : hub) :
  consistent h -> consistent (send ws frame h).2.
Proof. intros H. exact H. Qed.

(** Every frame a connection sends leaves the hub consistent: a valid
    control message, an unknown op, bytes that are not JSON, and the
    frame [null], on which the handler throws. *)
Theorem on_message_keeps_the_hub_consistent (ws : nat) (parsed : option json)
    (h : hub) :
  consistent h -> consistent (on_message ws parsed h).2.
Proof.
  intros Hh. destruct parsed as [msg|]; [|exact Hh].
  assert (Hcase : msg = JNull \/ msg <> JNull)
    by (destruct msg; [now left | right; discriminate ..]).
  destruct Hcase as [->|Hmsg]; [exact Hh|].
  destruct (on_message_state ws msg h) as [(op & topic & Hop & Htopic)|Hsame].
  - rewrite (on_message_run ws msg op topic h Hmsg Hop Htopic).
    destruct (bool_decide (_ = "subscribe")); [now apply addSub_consistent|].
    destruct (bool_decide (_ = "unsubscribe")); [now apply removeSub_consistent|].
    exact Hh.
  - now rewrite Hsame.
Qed.

Lemma removeSub_each (ws : nat) (topics : list string) (h : hub) :
  (forall ws' topic',
     ws' ∈ subscribers (Js.for_each topics (removeSub ws) h).2 topic'
     <-> ws' ∈ subscribers h topic' /\ ~ (ws' = ws /\ topic' ∈ topics)) /\
  frames (Js.for_each topics (removeSub ws) h).2 = frames h /\
  (consistent h -> consistent (Js.for_each topics (removeSub ws) h).2).
Proof.
  revert h. induction topics as [|topic topics IH]; intros h.
  - split; [|split; [reflexivity|auto]]. intros ws' topic'. split; [|tauto].
    intros H. split; [exact H|]. intros [_ Hin]. now apply elem_of_nil in Hin.
  - change (Js.for_each (topic :: topics) (removeSub ws) h)
      with (Js.for_each topics (removeSub ws) (removeSub ws topic h).2).
    destruct (IH (removeSub ws topic h).2) as (Hs & Hf & Hc). split; [|split].
    + intros ws' topic'. rewrite Hs, removeSub_subscribers, elem_of_cons.
      split.
      * intros [[H1 H2] H3]. split; [exact H1|]. intros [-> [->|Hin]]; tauto.
      * intros [H1 H2]. split; [split; [exact H1|]|]; intros [-> Hx]; apply H2;
          split; auto.
    + rewrite Hf. reflexivity.
    + intros Hh. apply Hc. now apply removeSub_consistent.
Qed.

(** A disconnect unsubscribes the connection everywhere: afterwards it is
    a subscriber of no topic, the subscriptions of the other connections
    are what they were, nothing has been sent, and the hub is still
    consistent. *)
Theorem on_close_unsubscribes_everywhere (ws : nat) (h : hub) :
  consistent h ->
  let h' := (on_close ws h).2 in
  (forall topic, ws ∉ subscribers h' topic) /\
  (forall ws' topic, ws' <> ws ->
     (ws' ∈ subscribers h' topic <-> ws' ∈ subscribers h topic)) /\
  frames h' = frames h /\
  consistent h'.
Proof.
  intros Hh. pose proof Hh as [Hagree _]. unfold on_close.
  destruct (_topics h !! ws) as [topics|] eqn:E; cbn [snd].
  - destruct (removeSub_each ws (elements topics) h) as (Hs & Hf & Hc).
    split; [|split; [|split]].
    + intros topic. rewrite Hs. intros [Hin Hnot]. apply Hnot.
      split; [reflexivity|]. apply elem_of_elements.
      apply Hagree in Hin. unfold topics_of in Hin. now rewrite E in Hin.
    + intros ws' topic Hne. rewrite Hs. tauto.
    + exact Hf.
    + now apply Hc.
  - split; [|split; [|split]].
    + intros topic Hin. apply Hagree in Hin. unfold topics_of in Hin.
      rewrite E in Hin. now apply elem_of_empty in Hin.
    + intros ws' topic _. reflexivity.
    + reflexivity.
    + exact Hh.
Qed.

(** What one [broadcast] hands to [ws.send]. *)
Definition delivered (readyState : nat -> readyState) (topic : string) (msg : json)
    (h : hub) : list (nat * json) :=
  drop (length (frames h)) (frames (Sockets.broadcast readyState topic msg h).2).

Lemma delivered_to (readyState : nat -> readyState) (topic : string) (msg : json)
    (h : hub) (ws : nat) (frame : json) :
  (ws, frame) ∈ delivered readyState topic msg h
  <-> frame = msg /\ ws ∈ subscribers h topic /\ readyState ws = OPEN.
Proof.
  unfold delivered, Sockets.broadcast, subscribers.
  destruct (subs h !! topic) as [set|];
    cbn [snd frames default from_option]; unfold Datatypes.id.
  - rewrite drop_app_length, list_elem_of_fmap. split.
    + intros (ws' & Heq & Hin). inversion Heq; subst.
      apply list_elem_of_filter in Hin as [Hopen Hin].
      apply elem_of_elements in Hin. auto.
    + intros (-> & Hin & Hopen). exists ws. split; [reflexivity|].
      apply list_elem_of_filter. split; [exact Hopen|].
      now apply elem_of_elements.
  - rewrite drop_all. split.
    + intros Hin. now apply elem_of_nil in Hin.
    + intros (_ & Hin & _). now apply elem_of_empty in Hin.
Qed.

(** A broadcast sends the message once to each open subscriber of the
    topic and to no one else; it changes no subscription. *)
Theorem broadcast_reaches_open_subscribers (readyState : nat -> readyState)
    (topic : string) (msg : json) (h : hub) :
  frames (Sockets.broadcast readyState topic msg h).2
  = frames h ++ delivered readyState topic msg h /\
  NoDup (delivered readyState topic msg h) /\
  (forall ws frame,
     (ws, frame) ∈ delivered readyState topic msg h
     <-> frame = msg /\ ws ∈ subscribers h topic /\ readyState ws = OPEN) /\
  subs (Sockets.broadcast readyState topic msg h).2 = subs h /\
  _topics (Sockets.broadcast readyState topic msg h).2 = _topics h.
Proof.
  split; [|split; [|split; [apply delivered_to|]]].
  - unfold delivered, Sockets.broadcast.
    destruct (subs h !! topic) as [set|]; cbn [snd frames].
    + now rewrite drop_app_length.
    + now rewrite drop_all, app_nil_r.
  - unfold delivered, Sockets.broadcast.
    destruct (subs h !! topic) as [set|]; cbn [snd frames].
    + rewrite drop_app_length.
      apply NoDup_fmap_2; [intros a b Hab; now inversion Hab|].
      apply NoDup_filter, NoDup_elements.
    + rewrite drop_all. constructor.
  - unfold Sockets.broadcast.
    destruct (subs h !! topic) as [set|]; cbn [snd subs _topics]; auto.
Qed.

Lemma String_or_empty_string (s : string) :
  String_or_empty (Some (JString s)) = Ok s.
Proof.
  unfold String_or_empty, truthy. destruct (decide (s = "")) as [->|Hne].
  - reflexivity.
  - now rewrite bool_decide_eq_false_2.
Qed.

Lemma on_message_subscribe (ws : nat) (topic : string) (h : hub) :
  on_message ws (frame "subscribe" topic) h
  = (addSub ws topic ≫= fun _ =>
     send ws (object [("ok", JBool true); ("subscribed", JString topic)])) h.
Proof.
  unfold frame, object.
  apply (on_message_run ws _ "subscribe" topic h);
    [discriminate | reflexivity | apply String_or_empty_string].
Qed.

Lemma on_message_unsubscribe (ws : nat) (topic : string) (h : hub) :
  on_message ws (frame "unsubscribe" topic) h
  = (removeSub ws topic ≫= fun _ =>
     send ws (object [("ok", JBool true); ("unsubscribed", JString topic)])) h.
Proof.
  unfold frame, object.
  apply (on_message_run ws _ "unsubscribe" topic h);
    [discriminate | reflexivity | apply String_or_empty_string].
Qed.

(** Subscribing takes effect and unsubscribing undoes it: after
    [{op:"subscribe", topic}] a broadcast on the topic reaches the
    connection while its socket is open; after [{op:"unsubscribe", topic}]
    no broadcast on the topic reaches it, whatever it had subscribed to
    before. *)
Theorem subscription_round_trip (readyState : nat -> readyState) (ws : nat)
    (topic : string) (msg : json) (h : hub) :
  let subscribed := (on_message ws (frame "subscribe" topic) h).2 in
  let unsubscribed := (on_message ws (frame "unsubscribe" topic) subscribed).2 in
  (readyState ws = OPEN -> (ws, msg) ∈ delivered readyState topic msg subscribed) /\
  (forall sent, (ws, sent) ∉ delivered readyState topic msg unsubscribed) /\
  (forall sent, (ws, sent) ∉
     delivered readyState topic msg (on_message ws (frame "unsubscribe" topic) h).2).
Proof.
  cbv zeta. rewrite !on_message_subscribe, !on_message_unsubscribe.
  unfold mbind, M_bind. cbn [addSub removeSub send snd].
  assert (Hsend : forall (h0 : hub) (reply : list (nat * json)),
            delivered readyState topic msg
              {| subs := subs h0; _topics := _topics h0; frames := reply |}
            = delivered readyState topic msg h0).
  { intros h0 reply. unfold delivered, Sockets.broadcast. cbn [subs].
    destruct (subs h0 !! topic); cbn [snd frames].
    - now rewrite !drop_app_length.
    - now rewrite !drop_all. }
  split; [|split].
  - intros Hopen.
    apply (delivered_to readyState topic msg).
    split; [reflexivity|]. split; [|exact Hopen].
    unfold subscribers. cbn [subs]. rewrite lookup_insert_eq. cbn [default from_option]; unfold Datatypes.id.
    set_facts. now left.
  - intros sent Hin.
    apply (delivered_to readyState topic msg) in Hin
      as (_ & Hin & _).
    change (ws ∈ subscribers
              (removeSub ws topic (addSub ws topic h).2).2 topic) in Hin.
    apply removeSub_subscribers in Hin as [_ Hnot]. now apply Hnot.
  - intros sent Hin.
    apply (delivered_to readyState topic msg) in Hin
      as (_ & Hin & _).
    change (ws ∈ subscribers (removeSub ws topic h).2 topic) in Hin.
    apply removeSub_subscribers in Hin as [_ Hnot]. now apply Hnot.
Qed.

(** *** A connection that subscribes and goes away *)

Lemma hub0_consistent : consistent hub0.
Proof.
  split.
  - intros ws topic. unfold subscribers, topics_of, hub0. cbn [subs _topics].
    rewrite !lookup_empty. cbn [default from_option]. unfold Datatypes.id.
    rewrite !elem_of_empty. tauto.
  - intros topic set E. unfold hub0 in E. cbn [subs] in E.
    rewrite lookup_empty in E. discriminate.
Qed.

(** Connection 7 on [trades.stream], connection 8 on the same topic. *)
Definition hub2 : hub :=
  (addSub 8 "trades.stream" (addSub 7 "trades.stream" hub0).2).2.

Lemma hub2_consistent : consistent hub2.
Proof. unfold hub2. do 2 apply addSub_consistent. exact hub0_consistent. Qed.

Lemma on_message_keeps_the_hub_consistent_hub2 :
  consistent hub2 /\
  consistent (on_message 7 (frame "unsubscribe" "trades.stream") hub2).2.
Proof.
  split; [exact hub2_consistent|].
  apply on_message_keeps_the_hub_consistent. exact hub2_consistent.
Defined.

Lemma on_close_unsubscribes_everywhere_hub2 :
  consistent hub2 /\
  (forall topic, 7%nat ∉ subscribers (on_close 7 hub2).2 topic) /\
  (8%nat ∈ subscribers (on_close 7 hub2).2 "trades.stream"
   <-> 8%nat ∈ subscribers hub2 "trades.stream").
Proof.
  split; [exact hub2_consistent|].
  destruct (on_close_unsubscribes_everywhere 7 hub2 hub2_consistent)
    as (Hgone & Hkept & _ & _).
  split; [exact Hgone|]. apply Hkept. discriminate.
Defined.

(** ** What one run of the pump sends *)

#[local] Existing Instance earlier_total.
#[local] Existing Instance earlier_trans.

Section one_run.
Variable driver : timestamp -> timestamp.

(** A row reaches [trades.stream] before its lookup is awaited: it is
    out whether the rest of the iteration runs or throws. *)
Lemma pump_row_streamed (c : cycle) (r : row) (p : pump) :
  streamed (pump_row driver c r p).2 = streamed p ++ [r].
Proof.
  destruct (base_token c r) as [bt|e] eqn:Hbt.
  - now destruct (pump_row_run driver c r p bt Hbt) as (_ & Hs & _).
  - unfold pump_row, mbind, M_bind, lift. simpl. rewrite Hbt. simpl.
    pose proof (streamed_app p "trades.stream" r) as Hs.
    now rewrite decide_True in Hs.
Qed.

Lemma pump_rows_streamed (c : cycle) (rows : list row) (p : pump) :
  exists k, streamed (Js.for_each rows (pump_row driver c) p).2
            = streamed p ++ take k rows.
Proof.
  revert p. induction rows as [|r rows IH]; intros p.
  - exists 0%nat. simpl. now rewrite app_nil_r.
  - simpl. unfold mbind, M_bind.
    pose proof (pump_row_streamed c r p) as Hs.
    destruct (pump_row driver c r p) as [[[]|e] p1]; simpl in *.
    + destruct (IH p1) as [k Hk]. exists (S k).
      rewrite Hk, Hs. simpl. now rewrite <- app_assoc.
    + exists 1%nat. simpl. now rewrite take_0.
Qed.

Lemma select_sorted (watermark : option Z) (now : Z) (table : list row) :
  StronglySorted earlier (select watermark now table).
Proof.
  unfold select.
  pose proof (StronglySorted_merge_sort earlier
                (filter (wanted watermark now) table)) as Hs.
  rewrite <- (take_drop 200 (merge_sort _ _)) in Hs.
  now apply StronglySorted_app_1_l in Hs.
Qed.

Lemma select_length (watermark : option Z) (now : Z) (table : list row) :
  (length (select watermark now table) <= 200)%nat.
Proof. unfold select. rewrite length_take. lia. Qed.

(** One run adds a batch to [trades.stream] and takes nothing back.  The
    batch has at most 200 rows in ascending [created_at]; each is a row
    of the query's table that passes the [WHERE] clause for the
    watermark the run started from (strictly above it, or within ten
    minutes of [now()] on a cold start); and when [getZigUsd] or the
    query throws, the batch is empty.  This holds whatever the lookups
    inside the loop do. *)
Theorem pumpTrades_sends_one_sorted_batch (c : cycle) (p : pump) :
  exists sent,
    streamed (pumpTrades driver c p).2 = streamed p ++ sent /\
    (length sent <= 200)%nat /\
    StronglySorted earlier sent /\
    (forall r, r ∈ sent ->
       wanted (lastSeenIso p) (now c) r /\
       exists table, joined c = Ok table /\ r ∈ table) /\
    ((forall q, zigUsd c <> Ok q) \/ (forall table, joined c <> Ok table) ->
     sent = []).
Proof.
  unfold pumpTrades, mbind, M_bind, lift. cbn [fst snd].
  assert (Hnone : exists sent : list row,
            streamed p = streamed p ++ sent /\ (length sent <= 200)%nat /\
            StronglySorted earlier sent /\
            (forall r, r ∈ sent ->
               wanted (lastSeenIso p) (now c) r /\
               exists table, joined c = Ok table /\ r ∈ table) /\
            ((forall q, zigUsd c <> Ok q) \/ (forall table, joined c <> Ok table) ->
             sent = [])).
  { exists []. rewrite app_nil_r. split; [reflexivity|]. split; [simpl; lia|].
    split; [constructor|]. split; [|reflexivity].
    intros r Hr. apply elem_of_nil in Hr. contradiction. }
  destruct (zigUsd c) as [q|e]; [|exact Hnone].
  destruct (joined c) as [table|e]; [|exact Hnone].
  clear Hnone. cbn [fst snd].
  destruct (pump_rows_streamed c (select (lastSeenIso p) (now c) table) p)
    as [k Hk].
  exists (take k (select (lastSeenIso p) (now c) table)).
  split; [exact Hk|]. split.
  - rewrite length_take. pose proof (select_length (lastSeenIso p) (now c) table).
    lia.
  - split.
    + pose proof (select_sorted (lastSeenIso p) (now c) table) as Hs.
      rewrite <- (take_drop k (select _ _ _)) in Hs.
      now apply StronglySorted_app_1_l in Hs.
    + split.
      * intros r Hr. apply subseteq_take in Hr.
        apply select_sublist in Hr as [Hr Hw].
        split; [exact Hw|]. now exists table.
      * intros [H|H]; [destruct (H q) | destruct (H table)]; reflexivity.
Qed.

(** The references of a token are its id, symbol and denom, those that
    are not empty, each once. *)
Lemma refs_are_the_names (tok : token) :
  NoDup (refs tok) /\
  forall ref, ref ∈ refs tok
    <-> ref <> "" /\
        (ref = token_id tok \/ symbol tok = Some ref \/ denom tok = Some ref).
Proof.
  unfold refs. split; [apply NoDup_remove_dups|].
  intros ref. rewrite elem_of_remove_dups, list_elem_of_omap.
  assert (Htruthy : forall x, Js.truthy x = Some ref <-> x = Some ref /\ ref <> "").
  { intros [[|a0 x]|]; cbn; (split; [intros H | intros [H Hne]]);
      try discriminate; try (inversion H; subst; split; [reflexivity|discriminate]);
      try exact H.
    inversion H. subst. now destruct Hne. }
  split.
  - intros (x & Hx & Hr). apply Htruthy in Hr as [-> Hne]. split; [exact Hne|].
    repeat (apply elem_of_cons in Hx as [Hx|Hx]);
      [left; congruence | right; left; congruence | right; right; congruence
      | now apply elem_of_nil in Hx].
  - intros (Hne & [->|[H|H]]).
    + exists (Some (token_id tok)). split; [left | now apply Htruthy].
    + exists (symbol tok). split; [right; left | apply Htruthy; now split].
    + exists (denom tok). split; [right; right; left | apply Htruthy; now split].
Qed.

(** The topics one row goes out on, in order: [trades.stream]; when the
    lookup finds the base token, one token topic for each of its
    references; then the topic of the pair.  When the lookup throws, the
    row has gone out on [trades.stream] alone.  No topic gets the row
    twice, also when the token's symbol and denom are one string. *)
Theorem pump_row_once_per_topic (c : cycle) (r : row) (p : pump) :
  let topics :=
    match base_token c r with
    | Ok (Some tok) =>
        "trades.stream"
        :: (String.append "trades.stream.token:" <$> refs tok)
        ++ ["trades.stream.pair:" +:+ pair_contract r]
    | Ok None => ["trades.stream"; "trades.stream.pair:" +:+ pair_contract r]
    | Throw _ => ["trades.stream"]
    end in
  broadcasts (pump_row driver c r p).2
  = broadcasts p ++ ((fun topic => (topic, r)) <$> topics) /\
  NoDup topics /\
  forall tok, base_token c r = Ok (Some tok) ->
    NoDup (refs tok) /\
    forall ref, ref ∈ refs tok
      <-> ref <> "" /\
          (ref = token_id tok \/ symbol tok = Some ref \/ denom tok = Some ref).
Proof.
  cbv zeta.
  assert (Htok : forall (l : list string) (q : pump),
            broadcasts (Js.for_each l
               (fun ref => broadcast ("trades.stream.token:" +:+ ref) r) q).2
            = broadcasts q ++
              ((fun topic => (topic, r)) <$>
               (String.append "trades.stream.token:" <$> l)) /\
            (Js.for_each l
               (fun ref => broadcast ("trades.stream.token:" +:+ ref) r) q).1
            = Ok tt).
  { induction l as [|ref l IH]; intros q; simpl.
    - now rewrite app_nil_r.
    - unfold mbind, M_bind. simpl.
      destruct (IH {| lastSeenIso := lastSeenIso q;
                      broadcasts := broadcasts q ++
                        [("trades.stream.token:" +:+ ref, r)] |}) as [Hb Hok].
      split; [|exact Hok]. rewrite Hb. simpl. now rewrite <- app_assoc. }
  split; [|split; [|intros tok _; apply refs_are_the_names]].
  - unfold pump_row, mbind, M_bind, lift. simpl.
    destruct (base_token c r) as [[tok|]|e]; simpl.
    + set (p1 := {| lastSeenIso := lastSeenIso p;
                    broadcasts := broadcasts p ++ [("trades.stream", r)] |}).
      destruct (Htok (refs tok) p1) as [Hb Hok].
      destruct (Js.for_each (refs tok) _ p1) as [res p2]. simpl in *. subst res.
      simpl. rewrite Hb.
      rewrite fmap_app. simpl. rewrite <- !app_assoc. reflexivity.
    + now rewrite <- app_assoc.
    + reflexivity.
  - destruct (base_token c r) as [[tok|]|e].
    + apply NoDup_cons. split.
      * intros Hin. apply elem_of_app in Hin as [Hin|Hin].
        -- apply list_elem_of_fmap in Hin as (ref & Heq & _). discriminate.
        -- apply list_elem_of_singleton in Hin. discriminate.
      * apply NoDup_app. split.
        -- apply NoDup_fmap_2.
           ++ intros a b Hab. simpl in Hab.
              now repeat (injection Hab as Hab).
           ++ apply NoDup_remove_dups.
        -- split; [|apply NoDup_singleton].
           intros x Hx Hx'. apply list_elem_of_singleton in Hx'. subst x.
           apply list_elem_of_fmap in Hx as (ref & Heq & _). discriminate.
    + apply NoDup_cons. split; [|apply NoDup_singleton].
      intros Hin. apply list_elem_of_singleton in Hin. discriminate.
    + apply NoDup_singleton.
Qed.

(** *** The order of the stream *)

Section in_order.
Variable cycles : list cycle.

Hypothesis lookups_answer : forall c, c ∈ cycles -> answers c.

Hypothesis created_at_whole :
  forall c table r,
    c ∈ cycles -> joined c = Ok table -> r ∈ table ->
    driver (created_at r) = created_at r.

(** What has gone out is in ascending [created_at] and at or below the
    watermark. *)
Definition ordered (p : pump) : Prop :=
  StronglySorted earlier (streamed p) /\
  forall r, r ∈ streamed p ->
    exists w, lastSeenIso p = Some w /\ created_at r <= w.

Lemma ordered_step (c : cycle) (p : pump) :
  c ∈ cycles -> ordered p -> ordered (pumpTrades driver c p).2.
Proof.
  intros Hc [Hsorted Hold].
  destruct (pumpTrades_run driver c p (lookups_answer c Hc))
    as [->|(table & Htable & Hs & Hw)]; [now split|].
  set (rows := select (lastSeenIso p) (now c) table) in *.
  assert (Hnew : forall r w, r ∈ rows -> lastSeenIso p = Some w ->
                             w < created_at r).
  { intros r w Hr Hp. apply select_sublist in Hr as [_ [Hwant _]].
    now rewrite Hp in Hwant. }
  split.
  - rewrite Hs. apply StronglySorted_app_2.
    + intros r r' Hr Hr'. destruct (Hold r Hr) as (w & Hp & Hle).
      pose proof (Hnew r' w Hr' Hp). unfold earlier. lia.
    + exact Hsorted.
    + apply select_sorted.
  - destruct (last rows) as [x|] eqn:Hlast.
    + assert (Hx : x ∈ rows) by (eapply last_Some_elem_of; exact Hlast).
      assert (Hwhole : driver (created_at x) = created_at x).
      { apply (created_at_whole c table); [exact Hc | exact Htable |].
        now apply select_sublist in Hx as [? _]. }
      rewrite Hwhole in Hw.
      intros r Hr. rewrite Hs in Hr. rewrite Hw.
      eexists. split; [reflexivity|].
      apply elem_of_app in Hr as [Hr|Hr].
      * destruct (Hold r Hr) as (w & Hp & Hle).
        pose proof (Hnew x w Hx Hp). lia.
      * now apply (select_last _ _ _ r x Hlast).
    + apply last_None in Hlast. rewrite Hlast in Hs. rewrite app_nil_r in Hs.
      intros r Hr. rewrite Hs in Hr. rewrite Hw. now apply Hold.
Qed.

Lemma ordered_runs (l : list cycle) (p : pump) :
  (forall c, c ∈ l -> c ∈ cycles) -> ordered p ->
  ordered (fold_left (fun p c => (pumpTrades driver c p).2) l p).
Proof.
  revert p. induction l as [|c l IH]; intros p Hl Hp; simpl; [exact Hp|].
  apply IH.
  - intros c' Hc'. apply Hl. now right.
  - apply ordered_step; [apply Hl; now left | exact Hp].
Qed.

(** Over any number of runs in which no base-token lookup throws and
    every [created_at] comes through the driver whole, [trades.stream]
    carries the trades in ascending [created_at] across the runs: a
    subscriber never sees a trade older than one it has seen, and every
    trade sent is at or below the watermark the pump is left with. *)
Theorem pump_streams_in_time_order :
  StronglySorted earlier (streamed (run driver cycles)) /\
  forall r, r ∈ streamed (run driver cycles) ->
    exists w, lastSeenIso (run driver cycles) = Some w /\ created_at r <= w.
Proof.
  apply (ordered_runs cycles pump0); [auto|].
  split; [constructor|]. intros r Hr. apply elem_of_nil in Hr. contradiction.
Qed.

End in_order.
End one_run.

Definition row3 : row :=
  {| trade_id := 3;
     t := Trades.sample_trade (Some "factory/X") (Some 250000%N) (Some "uzig")
            (Some 1000000%N) (Some "CD34");
     pair_contract := "zig1pool"; is_uzig_quote := true; qexp := Some 6;
     pq_price_in_zig := None; offer_exp := Some 6; ask_exp := Some 6 |}.

Lemma pump_streams_in_time_order_calm :
  StronglySorted earlier
    (streamed (run as_Date [calm [row1] 1700000005000000;
                            calm [row1; row3] 1700000007000000])) /\
  forall r, r ∈ streamed (run as_Date [calm [row1] 1700000005000000;
                                       calm [row1; row3] 1700000007000000]) ->
    exists w, lastSeenIso (run as_Date [calm [row1] 1700000005000000;
                                        calm [row1; row3] 1700000007000000])
              = Some w /\ created_at r <= w.
Proof.
  apply pump_streams_in_time_order.
  - intros c Hc r. apply elem_of_cons in Hc as [->|Hc];
      [|apply list_elem_of_singleton in Hc as ->]; now eexists.
  - intros c table r Hc Ht Hr.
    assert (Hin : r ∈ [row1; row3]).
    { apply elem_of_cons in Hc as [->|Hc];
        [|apply list_elem_of_singleton in Hc as ->]; inversion Ht; subst table.
      - apply list_elem_of_singleton in Hr as ->. left.
      - exact Hr. }
    apply elem_of_cons in Hin as [->|Hin];
      [|apply list_elem_of_singleton in Hin as ->]; reflexivity.
Defined.

End WS.

(** * jobs/meta-refresher.js *)
Module MetaRefresher.
Import Schema.

(** The environment knobs the backfill reads.  [parseInt] gives an
    integer or [NaN] ([None]).  [META_BACKFILL_SLEEP_MS] only spaces the
    batches out in time. *)
Record config := {
  META_BACKFILL : bool;
  META_BACKFILL_BATCH : option Z;
  META_CONCURRENCY : option Z
}.

(** The process: the database the refresher reads and the calls it has
    made to core/tokens.js. *)
Record world := {
  DB : db;
  calls : list Collaborators.call
}.

(** core/tokens.js is not among the sources.  [setTokenMetaFromLCD]
    fills the metadata of a token; what it writes is its own, and the
    queries of the backfill read [token_id] and [denom] only.
    [returns log c] tells whether the call [c], made after the calls
    [log], returns or throws. *)
Class TokensJs := {
  returns : list Collaborators.call -> Collaborators.call -> bool
}.

(** A row of [SELECT token_id, denom FROM tokens]. *)
Record row := {
  token_id : Z;
  denom : string
}.

Definition table (d : db) : list row :=
  (fun kv => {| token_id := Schema.token_id kv.2; denom := kv.1 |})
    <$> map_to_list (tokens d).

Definition by_id (a b : row) : Prop := token_id a <= token_id b.

#[global] Instance by_id_dec : RelDecision by_id.
Proof. intros a b. unfold by_id. apply _. Defined.

(** [WHERE token_id > $1 ORDER BY token_id ASC LIMIT $2]. *)
Definition select (lastId limit : Z) (d : db) : list row :=
  take (Z.to_nat limit)
    (merge_sort by_id (filter (fun r => lastId < token_id r) (table d))).

Section refresher.
Context {tokensJs : TokensJs}.
Variable cfg : config.

(** [await setTokenMetaFromLCD(denom)]: the call is made; if it throws,
    so does the [await]. *)
Definition setTokenMetaFromLCD (denom : string) : M world unit := fun w =>
  ((if returns (calls w) (Collaborators.setTokenMetaFromLCD denom)
    then Ok tt else Throw "rejected"),
   {| DB := DB w; calls := calls w ++ [Collaborators.setTokenMetaFromLCD denom] |}).

(** [try { body } catch (e) { warn(...) }]. *)
Definition try_catch (body : M world unit) : M world unit := fun w =>
  (Ok tt, (body w).2).

(** [runBounded(items, limit, fn)].  [Array(n)] throws a [RangeError]
    when [n] is negative or [NaN], and there is no worker when it is [0].
    The workers share the index [i] and each calls [fn] as soon as it
    has taken one: the calls start in the order of [items], which is the
    order the embedding runs them in. *)
Definition runBounded {A : Type} (items : list A) (limit : option Z)
    (fn : A -> M world unit) : M world unit :=
  match limit with
  | None => throw "Invalid array length"
  | Some limit =>
      let n := Z.min limit (Z.of_nat (length items)) in
      if (n <? 0)%Z then throw "Invalid array length"
      else if (n =? 0)%Z then mret tt
      else Js.for_each items (fun it => try_catch (fn it))
  end.

(** [refreshMetaOnce(denom)]. *)
Definition refreshMetaOnce (denom : option string) : M world unit :=
  match Js.truthy denom with
  | None => mret tt
  | Some denom => try_catch (setTokenMetaFromLCD denom)
  end.

(** The query of one batch.  The database refuses a [LIMIT] that is
    negative or not a number. *)
Definition query_batch (lastId : Z) : M world (list row) := fun w =>
  match META_BACKFILL_BATCH cfg with
  | None => (Throw "invalid input syntax for type bigint", w)
  | Some limit =>
      if (limit <? 0)%Z then (Throw "LIMIT must not be negative", w)
      else (Ok (select lastId limit (DB w)), w)
  end.

(** The [for (;;)] of [backfillAllTokensOnce], with [lastId] and [total]:
    [Some total] at its [break], [None] if [fuel] rounds did not reach
    it. *)
Fixpoint backfill_loop (fuel : nat) (lastId total : Z) : M world (option Z) :=
  match fuel with
  | O => mret None
  | S fuel =>
      rows ← query_batch lastId;
      match last rows with
      | None => mret (Some total)
      | Some r =>
          _ ← runBounded rows (META_CONCURRENCY cfg)
                (fun r => setTokenMetaFromLCD (denom r));
          backfill_loop fuel (token_id r) (total + Z.of_nat (length rows))
      end
  end.

(** [backfillAllTokensOnce()], with the [total] it logs at the end
    ([0] when the backfill is switched off). *)
Definition backfillAllTokensOnce (fuel : nat) : M world (option Z) :=
  if META_BACKFILL cfg then backfill_loop fuel 0 0 else mret (Some 0).

(** *** Batches *)

Definition before (a b : row) : Prop := token_id a < token_id b.

#[local] Instance by_id_total : Total by_id.
Proof. intros a b. unfold by_id. lia. Qed.

#[local] Instance by_id_trans : Transitive by_id.
Proof. intros a b c. unfold by_id. lia. Qed.

Lemma StronglySorted_filter {A : Type} (R : relation A) (P : A -> Prop)
    `{!forall x, Decision (P x)} (l : list A) :
  StronglySorted R l -> StronglySorted R (filter P l).
Proof.
  induction 1 as [|x l Hl IH Hx]; [constructor|].
  rewrite filter_cons. destruct (decide (P x)); [|exact IH].
  constructor; [exact IH|].
  apply Forall_forall. intros y Hy.
  apply list_elem_of_filter in Hy as [_ Hy].
  rewrite Forall_forall in Hx. now apply Hx.
Qed.

(** With [token_id] a key, the rows have one ascending order. *)
Lemma key_row (l : list row) (a b : row) :
  NoDup (token_id <$> l) -> a ∈ l -> b ∈ l -> token_id a = token_id b -> a = b.
Proof.
  intros Hnd Ha Hb Heq.
  apply list_elem_of_lookup in Ha as [i Hi], Hb as [j Hj].
  assert (i = j) as ->.
  { apply (NoDup_lookup _ i j (token_id a) Hnd);
      rewrite list_lookup_fmap; [rewrite Hi | rewrite Hj, Heq]; reflexivity. }
  congruence.
Qed.

Lemma sort_filter (P : row -> Prop) `{!forall x, Decision (P x)} (l : list row) :
  NoDup (token_id <$> l) ->
  merge_sort by_id (filter P l) = filter P (merge_sort by_id l).
Proof.
  intros Hnd. apply (StronglySorted_unique_strong by_id).
  - intros a b Ha Hb Hab Hba. rewrite merge_sort_Permutation in Ha, Hb.
    apply list_elem_of_filter in Ha as [_ Ha], Hb as [_ Hb].
    apply (key_row l a b Hnd Ha Hb). unfold by_id in *. lia.
  - apply (StronglySorted_merge_sort by_id).
  - apply StronglySorted_filter, (StronglySorted_merge_sort by_id).
  - now rewrite !merge_sort_Permutation.
Qed.

Lemma sorted_before (l : list row) :
  NoDup (token_id <$> l) -> StronglySorted by_id l -> StronglySorted before l.
Proof.
  intros Hnd Hs. induction Hs as [|x l Hl IH Hx]; [constructor|].
  rewrite fmap_cons in Hnd. apply NoDup_cons in Hnd as [Hx' Hnd].
  constructor; [now apply IH|].
  rewrite Forall_forall in Hx |- *. intros y Hy. pose proof (Hx y Hy) as Hle.
  unfold by_id, before in *.
  destruct (decide (token_id x = token_id y)) as [Heq|Hne]; [|lia].
  exfalso. apply Hx'. rewrite Heq. apply list_elem_of_fmap.
  exists y. split; [reflexivity|]. exact Hy.
Qed.

(** What is left above the last row of a batch is what the batch left. *)
Lemma above_batch (batch rest : list row) (r : row) :
  StronglySorted before (batch ++ rest) -> last batch = Some r ->
  filter (fun x => token_id r < token_id x) (batch ++ rest) = rest.
Proof.
  intros Hs Hlast. apply last_Some in Hlast as [batch' ->].
  rewrite filter_app.
  assert (Hbatch : filter (fun x => token_id r < token_id x) (batch' ++ [r]) = []).
  { apply elem_of_nil_inv. intros x Hx.
    apply list_elem_of_filter in Hx as [Hlt Hx].
    apply elem_of_app in Hx as [Hx|Hx].
    - apply StronglySorted_app_1_l in Hs.
      pose proof (StronglySorted_app_1_elem_of _ _ _ _ _ Hs Hx
                    (list_elem_of_here _ _)) as Hb.
      unfold before in Hb. lia.
    - apply list_elem_of_singleton in Hx. subst x. lia. }
  rewrite Hbatch. cbn [app].
  assert (Hall : Forall (fun x => token_id r < token_id x) rest).
  { apply Forall_forall. intros x Hx.
    apply (StronglySorted_app_1_elem_of _ _ _ _ _ Hs).
    - apply elem_of_app. right. left.
    - exact Hx. }
  clear Hs Hbatch. induction rest as [|x rest IH]; [reflexivity|].
  apply Forall_cons in Hall as [Hx Hall].
  rewrite filter_cons_True by exact Hx. now rewrite IH.
Qed.

(** *** The calls of one batch *)

Definition refreshed (rows : list row) : list Collaborators.call :=
  (fun r => Collaborators.setTokenMetaFromLCD (denom r)) <$> rows.

Lemma each_row_called (rows : list row) (w : world) :
  Js.for_each rows (fun r => try_catch (setTokenMetaFromLCD (denom r))) w
  = (Ok tt, {| DB := DB w; calls := calls w ++ refreshed rows |}).
Proof.
  revert w. induction rows as [|r rows IH]; intros w.
  - cbn. rewrite app_nil_r. now destruct w.
  - cbn [Js.for_each]. unfold mbind, M_bind.
    unfold try_catch at 1. cbn [setTokenMetaFromLCD snd].
    rewrite IH. cbn [DB calls]. unfold refreshed. rewrite fmap_cons.
    now rewrite <- app_assoc.
Qed.

Lemma runBounded_run (rows : list row) (k : Z) (w : world) :
  0 <= k -> rows <> [] ->
  runBounded rows (Some k) (fun r => setTokenMetaFromLCD (denom r)) w
  = (Ok tt, {| DB := DB w;
               calls := calls w ++ if (k =? 0)%Z then [] else refreshed rows |}).
Proof.
  intros Hk Hrows. unfold runBounded. cbv zeta.
  assert (0 < Z.of_nat (length rows)) by (destruct rows; [congruence | simpl; lia]).
  destruct (Z.ltb_spec (Z.min k (Z.of_nat (length rows))) 0) as [|_]; [lia|].
  destruct (Z.eqb_spec k 0) as [->|Hne].
  - rewrite Z.min_l by lia. cbn. rewrite app_nil_r. now destruct w.
  - destruct (Z.eqb_spec (Z.min k (Z.of_nat (length rows))) 0) as [|_]; [lia|].
    apply each_row_called.
Qed.

(** *** The loop *)

Section loop.
Variables (b k : Z) (d : db).
Hypothesis batch_size : META_BACKFILL_BATCH cfg = Some b.
Hypothesis batch_positive : 1 <= b.
Hypothesis concurrency : META_CONCURRENCY cfg = Some k.
Hypothesis concurrency_natural : 0 <= k.
Hypothesis token_id_key : NoDup (token_id <$> table d).

Definition ascending : list row := merge_sort by_id (table d).

Lemma ascending_before : StronglySorted before ascending.
Proof.
  apply sorted_before.
  - unfold ascending. now rewrite merge_sort_Permutation.
  - apply (StronglySorted_merge_sort by_id).
Qed.

Lemma backfill_loop_run (fuel : nat) :
  forall (rest : list row) (lastId total : Z) (w : world),
    DB w = d ->
    filter (fun r => lastId < token_id r) ascending = rest ->
    (length rest < fuel)%nat ->
    backfill_loop fuel lastId total w
    = (Ok (Some (total + Z.of_nat (length rest))),
       {| DB := d;
          calls := calls w ++ if (k =? 0)%Z then [] else refreshed rest |}).
Proof.
  induction fuel as [|fuel IH]; intros rest lastId total w Hd Hrest Hfuel; [lia|].
  cbn [backfill_loop]. unfold mbind at 1, M_bind at 1.
  unfold query_batch. rewrite batch_size.
  destruct (Z.ltb_spec b 0) as [|_]; [lia|].
  rewrite Hd. unfold select. rewrite (sort_filter _ _ token_id_key).
  fold ascending. rewrite Hrest.
  assert (Hsorted : StronglySorted before rest).
  { rewrite <- Hrest. apply StronglySorted_filter, ascending_before. }
  destruct (last (take (Z.to_nat b) rest)) as [r|] eqn:Hlast.
  - assert (Hne : take (Z.to_nat b) rest <> [])
      by (intros E; rewrite E in Hlast; discriminate).
    unfold mbind, M_bind. rewrite concurrency.
    rewrite (runBounded_run _ k w concurrency_natural Hne).
    set (w1 := {| DB := DB w; calls := _ |}).
    assert (Hr : r ∈ rest).
    { apply last_Some_elem_of in Hlast. now apply subseteq_take in Hlast. }
    assert (Habove : lastId < token_id r).
    { rewrite <- Hrest in Hr. now apply list_elem_of_filter in Hr as [? _]. }
    rewrite (IH (drop (Z.to_nat b) rest) (token_id r) _ w1).
    + f_equal; [|f_equal].
      * do 2 f_equal.
        rewrite <- (take_drop (Z.to_nat b) rest) at 3.
        rewrite length_app. lia.
      * unfold w1. cbn [calls]. rewrite <- app_assoc. f_equal.
        destruct (k =? 0)%Z; [reflexivity|].
        unfold refreshed. rewrite <- fmap_app. now rewrite take_drop.
    + unfold w1. cbn [DB]. exact Hd.
    + rewrite <- (above_batch (take (Z.to_nat b) rest) (drop (Z.to_nat b) rest) r).
      * rewrite take_drop. rewrite <- Hrest.
        rewrite list_filter_filter. apply list_filter_iff. intros x. lia.
      * now rewrite take_drop.
      * exact Hlast.
    + rewrite length_drop.
      assert (rest <> []) by (intros E; rewrite E in Hr; now apply elem_of_nil in Hr).
      destruct rest; [congruence|]. simpl in *. lia.
  - apply last_None in Hlast. apply take_nil_inv in Hlast as [Hb| ->]; [lia|].
    cbn. rewrite Z.add_0_r. do 2 f_equal. rewrite <- Hd.
    destruct (k =? 0)%Z; rewrite app_nil_r; now destruct w.
Qed.

End loop.

Lemma above_zero (d : db) (r : row) :
  r ∈ filter (fun r => 0 < token_id r) (ascending d)
  <-> r ∈ table d /\ 0 < token_id r.
Proof.
  rewrite list_elem_of_filter. unfold ascending.
  rewrite merge_sort_Permutation. tauto.
Qed.

(** The one-off backfill pages through [tokens] by [token_id]: with a
    batch size and a concurrency of at least one it calls
    [setTokenMetaFromLCD] once for each token whose id is above zero,
    in ascending order of the ids, whatever the batch size and whichever
    of the calls throw; it ends with the number of tokens as its total
    and never asks for a token twice.  [token_id] is the primary key of
    [tokens]; the loop needs one round for each batch and one for the
    empty page that ends it. *)
Theorem backfill_refreshes_every_token_once (b k : Z) (fuel : nat) (w : world) :
  META_BACKFILL cfg = true ->
  META_BACKFILL_BATCH cfg = Some b -> 1 <= b ->
  META_CONCURRENCY cfg = Some k -> 1 <= k ->
  NoDup (token_id <$> table (DB w)) ->
  (length (table (DB w)) < fuel)%nat ->
  exists done,
    backfillAllTokensOnce fuel w
    = (Ok (Some (Z.of_nat (length done))),
       {| DB := DB w; calls := calls w ++ refreshed done |}) /\
    StronglySorted before done /\
    (forall r, r ∈ done <-> r ∈ table (DB w) /\ 0 < token_id r).
Proof.
  intros Hon Hb Hb1 Hk Hk1 Hkey Hfuel.
  exists (filter (fun r => 0 < token_id r) (ascending (DB w))).
  split; [|split].
  - unfold backfillAllTokensOnce. rewrite Hon.
    rewrite (backfill_loop_run b k (DB w) Hb Hb1 Hk ltac:(lia) Hkey fuel
               (filter (fun r => 0 < token_id r) (ascending (DB w))) 0 0 w
               eq_refl eq_refl).
    + destruct (Z.eqb_spec k 0) as [|_]; [lia|]. reflexivity.
    + eapply Nat.le_lt_trans; [apply length_filter|].
      unfold ascending.
      now rewrite (Permutation_length (merge_sort_Permutation by_id _)).
  - apply StronglySorted_filter, ascending_before, Hkey.
  - apply above_zero.
Qed.

(** With [META_CONCURRENCY=0] there is no worker: the backfill pages
    through the whole table, counts every token into its total and
    reports completion, and has asked for the metadata of none. *)
Theorem backfill_without_workers_refreshes_nothing (b : Z) (fuel : nat) (w : world) :
  META_BACKFILL cfg = true ->
  META_BACKFILL_BATCH cfg = Some b -> 1 <= b ->
  META_CONCURRENCY cfg = Some 0 ->
  NoDup (token_id <$> table (DB w)) ->
  (length (table (DB w)) < fuel)%nat ->
  backfillAllTokensOnce fuel w
  = (Ok (Some (Z.of_nat
                 (length (filter (fun r => 0 < token_id r) (table (DB w)))))),
     w).
Proof.
  intros Hon Hb Hb1 Hk Hkey Hfuel.
  unfold backfillAllTokensOnce. rewrite Hon.
  rewrite (backfill_loop_run b 0 (DB w) Hb Hb1 Hk ltac:(lia) Hkey fuel
             (filter (fun r => 0 < token_id r) (ascending (DB w))) 0 0 w
             eq_refl eq_refl).
  - cbn [Z.eqb]. rewrite app_nil_r. unfold ascending.
    rewrite (Permutation_length
               (filter_Permutation _ _ _ (merge_sort_Permutation by_id _))).
    now destruct w.
  - eapply Nat.le_lt_trans; [apply length_filter|].
    unfold ascending.
    now rewrite (Permutation_length (merge_sort_Permutation by_id _)).
Qed.

End refresher.

(** *** The two tokens of scenario S1, one to a batch *)

(** An LCD that answers no request. *)
Definition lcd_down : TokensJs := {| returns := fun _ _ => false |}.

Definition one_by_one (workers : Z) : config :=
  {| META_BACKFILL := true; META_BACKFILL_BATCH := Some 1;
     META_CONCURRENCY := Some workers |}.

Definition world1 : world := {| DB := Pools.sample_db; calls := [] |}.

Lemma sample_token_ids : NoDup (token_id <$> table (DB world1)).
Proof. apply (bool_decide_unpack _). vm_compute. reflexivity. Qed.

Lemma backfill_refreshes_every_token_once_sample :
  exists done,
    backfillAllTokensOnce (tokensJs := lcd_down) (one_by_one 4) 3 world1
    = (Ok (Some (Z.of_nat (length done))),
       {| DB := DB world1; calls := calls world1 ++ refreshed done |}) /\
    StronglySorted before done /\
    (forall r, r ∈ done <-> r ∈ table (DB world1) /\ 0 < token_id r).
Proof.
  apply (backfill_refreshes_every_token_once (tokensJs := lcd_down)
           (one_by_one 4) 1 4 3 world1);
    [reflexivity | reflexivity | lia | reflexivity | lia
    | exact sample_token_ids | vm_compute; lia].
Defined.

Example backfill_sample :
  backfillAllTokensOnce (tokensJs := lcd_down) (one_by_one 4) 3 world1
  = (Ok (Some 2),
     {| DB := Pools.sample_db;
        calls := [Collaborators.setTokenMetaFromLCD "uzig";
                  Collaborators.setTokenMetaFromLCD "factory/X"] |}).
Proof. vm_compute. reflexivity. Qed.

Lemma backfill_without_workers_refreshes_nothing_sample :
  backfillAllTokensOnce (tokensJs := lcd_down) (one_by_one 0) 3 world1
  = (Ok (Some 2), world1).
Proof.
  exact (backfill_without_workers_refreshes_nothing (tokensJs := lcd_down)
           (one_by_one 0) 1 3 world1 eq_refl eq_refl ltac:(lia) eq_refl
           sample_token_ids ltac:(vm_compute; lia)).
Defined.

End MetaRefresher.
